(** * data_formatter: re-indexing the [portfolio] array of [atit.json]

    A shallow embedding of [src/routes/portfolio/data_formatter.py] and of
    the part of CPython's [json] module the script calls ([json.loads] and
    [json.dumps] with their default arguments, as run by the C accelerator
    [_json]), together with the properties stated for it.

    Modelling conventions.
    - A Python [str] is the list of its code points.  The text that
      [file.read()] returns was decoded with the strict error handler, so it
      holds no surrogate code point ([wf_text]).
    - [json.loads] builds a fresh [dict] or [list] for every node of the
      text, so a loaded document is a tree without sharing: the in-place
      assignment [item['id'] = i] is the functional update of the element at
      its position.  A [dict] keeps insertion order and is an association
      list with [dict_get] and [dict_set].
    - A [float] is an IEEE 754 binary64 number, with correctly rounded
      conversion from decimal and shortest round-tripping [repr].
    - The limits of the interpreter are not modelled.  [loads] reads text
      nested to any depth and integers of any length; CPython's
      [json.loads] raises [RecursionError] where arrays and objects are
      nested beyond the recursion limit (about a thousand deep) and
      [ValueError] for an integer of more than 4300 digits.  Running out of
      memory and operating-system failures while writing are left out as
      well.  The statements about the script are therefore made for a given
      outcome of [json.loads] ([loads s = Ok data], [loads s = Raise e]) or
      of the script itself: they hold of every run in which [json.loads]
      has that outcome, whatever texts it refuses for its limits. *)

From stdpp Require Import gmap strings list.
From Stdlib Require Import ZArith Ascii.

Local Open Scope Z_scope.
Set Warnings "-register-all,-clear-no-such-hyp".

(* ===================================================================== *)
(** * Python values *)
(* ===================================================================== *)

(** A Python [str]: its code points. *)
Abbreviation str := (list Z).

Definition ord (a : ascii) : Z := Z.of_N (N_of_ascii a).

(** A literal without quotes, such as ['portfolio']. *)
Fixpoint py (s : string) : str :=
  match s with
  | EmptyString => []
  | String a s' => ord a :: py s'
  end.

(** A JSON text written with apostrophes in place of the double quotes. *)
Definition js (s : string) : str :=
  (λ c, if c =? 39 then 34 else c) <$> py s.

Arguments py : simpl never.
Arguments js : simpl never.

(** IEEE 754 binary64.  [FNum neg m e] is [(-1)^neg * m * 2^e]. *)
Inductive float :=
| FNaN
| FInf (neg : bool)
| FZero (neg : bool)
| FNum (neg : bool) (m : Z) (e : Z).

(** The values [json.loads] returns: [None], [bool], [int], [float], [str],
    [list] and [dict] with [str] keys. *)
Inductive value :=
| VNone
| VBool (b : bool)
| VInt (n : Z)
| VFloat (x : float)
| VStr (s : str)
| VList (items : list value)
| VDict (d : list (str * value)).

Abbreviation dict := (list (str * value)).

Inductive exn :=
| FileNotFoundError
| JSONDecodeError
| KeyError (k : str)
| TypeError
| RecursionError.

Inductive result (A : Type) :=
| Ok (a : A)
| Raise (e : exn).
Arguments Ok {A} a.
Arguments Raise {A} e.

#[export] Instance result_ret : MRet result := λ A, Ok.
#[export] Instance result_bind : MBind result :=
  λ A B f m, match m with Ok a => f a | Raise e => Raise e end.

#[export] Instance float_eq_dec : EqDecision float.
Proof. solve_decision. Defined.
#[export] Instance exn_eq_dec : EqDecision exn.
Proof. solve_decision. Defined.
#[export] Instance result_eq_dec {A} `{EqDecision A} : EqDecision (result A).
Proof. solve_decision. Defined.

(** [d[k]] on a [dict]: the value stored under [k]. *)
Fixpoint dict_get (d : dict) (k : str) : option value :=
  match d with
  | [] => None
  | (k', v) :: d' => if decide (k' = k) then Some v else dict_get d' k
  end.

(** [d[k] = v] on a [dict]: an existing key keeps its position, a new key
    goes last. *)
Fixpoint dict_set (d : dict) (k : str) (v : value) : dict :=
  match d with
  | [] => [(k, v)]
  | (k', v') :: d' =>
      if decide (k' = k) then (k', v) :: d' else (k', v') :: dict_set d' k v
  end.

Definition keys (d : dict) : list str := d.*1.

(** The entries of [d] stored under a key other than [k], in order. *)
Definition dict_without (k : str) (d : dict) : dict :=
  filter (λ kv, kv.1 ≠ k) d.

(** [o[k]] for a [str] key [k]. *)
Definition getitem (o : value) (k : str) : result value :=
  match o with
  | VDict d =>
      match dict_get d k with
      | Some v => Ok v
      | None => Raise (KeyError k)
      end
  | _ => Raise TypeError
  end.

(** [o[k] = v] for a [str] key [k]. *)
Definition setitem (o : value) (k : str) (v : value) : result value :=
  match o with
  | VDict d => Ok (VDict (dict_set d k v))
  | _ => Raise TypeError
  end.

(** The items [iter(o)] yields: the elements of a [list], the keys of a
    [dict], the characters of a [str]. *)
Definition iter (o : value) : result (list value) :=
  match o with
  | VList items => Ok items
  | VDict d => Ok (VStr <$> keys d)
  | VStr s => Ok ((λ c, VStr [c]) <$> s)
  | _ => Raise TypeError
  end.

(* ===================================================================== *)
(** * The loop of the script *)
(* ===================================================================== *)

(** [for i, item in enumerate(items, i): item['id'] = i]. *)
Fixpoint reindex_from (i : Z) (items : list value) : result (list value) :=
  match items with
  | [] => Ok []
  | item :: rest =>
      item' ← setitem item (py "id") (VInt i);
      rest' ← reindex_from (i + 1) rest;
      Ok (item' :: rest')
  end.

(** [for i, item in enumerate(data['portfolio']): item['id'] = i], returning
    [data] as it stands after the loop.  Only the elements of a [list] are
    objects of [data]; the items a [dict] or a [str] yields are [str]
    objects, which the assignment rejects. *)
Definition reindex (data : value) : result value :=
  portfolio ← getitem data (py "portfolio");
  items ← iter portfolio;
  items' ← reindex_from 0 items;
  match data, portfolio with
  | VDict d, VList _ => Ok (VDict (dict_set d (py "portfolio") (VList items')))
  | _, _ => Ok data
  end.

Definition is_dict (v : value) : Prop :=
  match v with VDict _ => True | _ => False end.


#[export] Instance is_dict_dec (v : value) : Decision (is_dict v).
Proof. destruct v; simpl; apply _. Defined.

(* ===================================================================== *)
(** * Decimal digits and [int] *)
(* ===================================================================== *)

Definition is_digit (c : Z) : bool := (48 <=? c) && (c <=? 57).

Fixpoint digits_aux (fuel : nat) (n : Z) (acc : str) : str :=
  match fuel with
  | O => acc
  | S fuel' =>
      let acc' := (48 + n mod 10) :: acc in
      if n <? 10 then acc' else digits_aux fuel' (n / 10) acc'
  end.

(** The decimal digits of [n >= 0], most significant first. *)
Definition digits_of (n : Z) : str :=
  digits_aux (S (Z.to_nat (Z.log2 n))) n [].

(** The number a string of decimal digits denotes. *)
Definition digits_val (ds : str) : Z :=
  foldl (λ a c, 10 * a + (c - 48)) 0 ds.

(** [int.__repr__]. *)
Definition int_repr (n : Z) : str :=
  if n <? 0 then 45 :: digits_of (- n) else digits_of n.

(* ===================================================================== *)
(** * binary64: [float(numstr)] and [float.__repr__] *)
(* ===================================================================== *)

(** The finite non-zero doubles: a 53-bit mantissa with an exponent in
    range, or a subnormal. *)
Definition canonical (x : float) : Prop :=
  match x with
  | FNum _ m e =>
      (2 ^ 52 ≤ m < 2 ^ 53 ∧ -1074 ≤ e ≤ 971) ∨ (0 < m < 2 ^ 52 ∧ e = -1074)
  | _ => True
  end.

(** [p / q] (with [0 <= p], [0 < q]) rounded to nearest, ties to even, at
    53 bits of precision and a least exponent of -1074: the mantissa and
    the exponent.  The exponent is not bounded above here. *)
Definition round_ratio (p q : Z) : Z * Z :=
  let P := p * 2 ^ 1074 in
  let s := Z.max (Z.log2 (P / q) - 52) 0 in
  let b := q * 2 ^ s in
  let m0 := P / b in
  let r := P mod b in
  let m := if (b <? 2 * r) || ((b =? 2 * r) && Z.odd m0) then m0 + 1 else m0 in
  if m =? 2 ^ 53 then (2 ^ 52, s + 1 - 1074) else (m, s - 1074).

(** The double nearest to [(-1)^neg * d * 10^t], for [0 <= d]: what
    [float(numstr)] returns for a literal with that value. *)
Definition float_of_dec (neg : bool) (d t : Z) : float :=
  let '(p, q) := if 0 <=? t then (d * 10 ^ t, 1) else (d, 10 ^ (- t)) in
  let '(m, e) := round_ratio p q in
  if m =? 0 then FZero neg
  else if 971 <? e then FInf neg
  else FNum neg m e.

(** [m * 2^e] as [n * 10^t], exactly. *)
Definition exact_decimal (m e : Z) : Z * Z :=
  if 0 <=? e then (m * 2 ^ e, 0) else (m * 5 ^ (- e), e).

Definition rounds_to (m e d t : Z) : bool :=
  bool_decide (float_of_dec false d t = FNum false m e).

(** [n] with its last [drop] digits removed, rounded down and up, the one
    nearer to [n] first and the even one first on a tie. *)
Definition candidates (n drop : Z) : list Z :=
  let lo := n / 10 ^ drop in
  let r := n mod 10 ^ drop in
  match 2 * r ?= 10 ^ drop with
  | Lt => [lo; lo + 1]
  | Gt => [lo + 1; lo]
  | Eq => if Z.even lo then [lo; lo + 1] else [lo + 1; lo]
  end.

(** The shortest decimal [d * 10^t] that rounds to [m * 2^e], and among
    those of that length the one nearest to it; [n * 10^t0] is the exact
    value and [drop] the number of its digits that may still be removed. *)
Fixpoint shortest (m e n t0 : Z) (drop : nat) : Z * Z :=
  match drop with
  | O => (n, t0)
  | S drop' =>
      let t := t0 + Z.of_nat drop in
      match filter (λ d, rounds_to m e d t) (candidates n (Z.of_nat drop)) with
      | d :: _ => (d, t)
      | [] => shortest m e n t0 drop'
      end
  end.

(** Remove the trailing zeros of a digit string. *)
Fixpoint strip_zeros (ds : str) : str :=
  match ds with
  | [] => []
  | d :: ds' =>
      match strip_zeros ds' with
      | [] => if d =? 48 then [] else [d]
      | r => d :: r
      end
  end.

(** The digits of the shortest decimal and the position of its decimal
    point: the value is [0.d1d2...dk * 10^decpt]. *)
Definition repr_digits (m e : Z) : str * Z :=
  let '(n, t0) := exact_decimal m e in
  let '(d, t) := shortest m e n t0 (length (digits_of n) - 1)%nat in
  let ds := digits_of d in
  (strip_zeros ds, t + Z.of_nat (length ds)).

(** The exponent of the scientific notation: a sign and at least two
    digits. *)
Definition exponent (x : Z) : str :=
  let ds := digits_of (Z.abs x) in
  (if x <? 0 then 45 else 43) :: (if (length ds <? 2)%nat then 48 :: ds else ds).

(** [repr] style formatting of the digits: fixed notation when
    [-4 < decpt <= 16], scientific notation otherwise. *)
Definition format_float_short (ds : str) (decpt : Z) : str :=
  if (decpt <=? -4) || (16 <? decpt) then
    match ds with
    | [] => []
    | d1 :: rest =>
        d1 :: (match rest with [] => [] | _ => 46 :: rest end)
        ++ 101 :: exponent (decpt - 1)
    end
  else if decpt <=? 0 then
    [48; 46] ++ replicate (Z.to_nat (- decpt)) 48 ++ ds
  else if decpt <? Z.of_nat (length ds) then
    take (Z.to_nat decpt) ds ++ 46 :: drop (Z.to_nat decpt) ds
  else
    ds ++ replicate (Z.to_nat decpt - length ds) 48 ++ [46; 48].

Definition sign_prefix (neg : bool) : str := if neg then [45] else [].

(** [float.__repr__]. *)
Definition float_repr (x : float) : str :=
  match x with
  | FNaN => py "nan"
  | FInf neg => sign_prefix neg ++ py "inf"
  | FZero neg => sign_prefix neg ++ py "0.0"
  | FNum neg m e =>
      let '(ds, decpt) := repr_digits m e in
      sign_prefix neg ++ format_float_short ds decpt
  end.

(* ===================================================================== *)
(** * [json.loads]: the scanner of [_json] *)
(* ===================================================================== *)

(** [IS_WHITESPACE]: space, tab, line feed, carriage return. *)
Definition is_ws (c : Z) : bool :=
  (c =? 32) || (c =? 9) || (c =? 10) || (c =? 13).

Fixpoint skip_ws (s : str) : str :=
  match s with
  | c :: s' => if is_ws c then skip_ws s' else s
  | [] => []
  end.

(** The longest prefix of decimal digits, and what follows it. *)
Fixpoint span_digits (s : str) : str * str :=
  match s with
  | c :: s' =>
      if is_digit c then let '(ds, r) := span_digits s' in (c :: ds, r)
      else ([], s)
  | [] => ([], [])
  end.

Definition hexval (c : Z) : option Z :=
  if (48 <=? c) && (c <=? 57) then Some (c - 48)
  else if (97 <=? c) && (c <=? 102) then Some (c - 97 + 10)
  else if (65 <=? c) && (c <=? 70) then Some (c - 65 + 10)
  else None.

(** Four hexadecimal digits: [c <<= 4; c |= digit] for each. *)
Definition hex4 (h1 h2 h3 h4 : Z) : option Z :=
  foldl (λ acc h, c ← acc; v ← hexval h; Some (Z.lor (Z.shiftl c 4) v))
        (Some 0) [h1; h2; h3; h4].

Definition is_high_surrogate (c : Z) : bool := (0xD800 <=? c) && (c <=? 0xDBFF).
Definition is_low_surrogate (c : Z) : bool := (0xDC00 <=? c) && (c <=? 0xDFFF).

(** [Py_UNICODE_JOIN_SURROGATES]. *)
Definition join_surrogates (hi lo : Z) : Z :=
  0x10000 + Z.lor (Z.shiftl (Z.land hi 0x3FF) 10) (Z.land lo 0x3FF).

(** The character a one-letter escape stands for. *)
Definition unescape (c : Z) : option Z :=
  if c =? 34 then Some 34          (* quotation mark *)
  else if c =? 92 then Some 92     (* reverse solidus *)
  else if c =? 47 then Some 47     (* solidus *)
  else if c =? 98 then Some 8      (* b *)
  else if c =? 102 then Some 12    (* f *)
  else if c =? 110 then Some 10    (* n *)
  else if c =? 114 then Some 13    (* r *)
  else if c =? 116 then Some 9     (* t *)
  else None.

(** [scanstring_unicode] with [strict=1], entered after the opening
    quotation mark: the string and the text after its closing quotation
    mark.  A high surrogate escape directly followed by a low surrogate
    escape (and at least one more character) gives one character. *)
Fixpoint scanstring (s : str) : result (str * str) :=
  match s with
  | [] => Raise JSONDecodeError
  | c :: s1 =>
      if c =? 34 then Ok ([], s1)
      else if c =? 92 then
        match s1 with
        | [] => Raise JSONDecodeError
        | e :: s2 =>
            if e =? 117 then
              match s2 with
              | h1 :: h2 :: h3 :: h4 :: s3 =>
                  match hex4 h1 h2 h3 h4 with
                  | None => Raise JSONDecodeError
                  | Some u =>
                      match s3 with
                      | b :: u' :: l1 :: l2 :: l3 :: l4 :: ((_ :: _) as s4) =>
                          if is_high_surrogate u && (b =? 92) && (u' =? 117) then
                            match hex4 l1 l2 l3 l4 with
                            | None => Raise JSONDecodeError
                            | Some u2 =>
                                if is_low_surrogate u2 then
                                  '(r, rest) ← scanstring s4;
                                  Ok (join_surrogates u u2 :: r, rest)
                                else
                                  '(r, rest) ← scanstring s3;
                                  Ok (u :: r, rest)
                            end
                          else
                            '(r, rest) ← scanstring s3;
                            Ok (u :: r, rest)
                      | _ =>
                          '(r, rest) ← scanstring s3;
                          Ok (u :: r, rest)
                      end
                  end
              | _ => Raise JSONDecodeError
              end
            else
              match unescape e with
              | Some ch => '(r, rest) ← scanstring s2; Ok (ch :: r, rest)
              | None => Raise JSONDecodeError
              end
        end
      else if c <=? 31 then Raise JSONDecodeError
      else '(r, rest) ← scanstring s1; Ok (c :: r, rest)
  end.

(** [s] without its prefix [p], when it has that prefix. *)
Fixpoint strip_prefix (p s : str) : option str :=
  match p, s with
  | [], _ => Some s
  | a :: p', b :: s' => if a =? b then strip_prefix p' s' else None
  | _ :: _, [] => None
  end.

(** The parts of [_match_number_unicode].  An optional minus sign. *)
Definition number_sign (s : str) : bool * str :=
  match s with
  | c :: s' => if c =? 45 then (true, s') else (false, s)
  | [] => (false, s)
  end.

(** The integer digits: a non-zero digit and the digits after it, or a
    lone [0]. *)
Definition number_int (s : str) : option (str * str) :=
  match s with
  | c :: s' =>
      if (49 <=? c) && (c <=? 57) then
        let '(ds, r) := span_digits s' in Some (c :: ds, r)
      else if c =? 48 then Some ([c], s')
      else None
  | [] => None
  end.

(** The fraction digits, read when a full stop and a digit follow. *)
Definition number_frac (s : str) : str * str :=
  match s with
  | c :: d :: s' =>
      if (c =? 46) && is_digit d then
        let '(ds, r) := span_digits s' in (d :: ds, r)
      else ([], s)
  | _ => ([], s)
  end.

(** The sign of an exponent, read when a character follows it. *)
Definition exponent_sign (s : str) : bool * str :=
  match s with
  | g :: ((_ :: _) as r) =>
      if g =? 45 then (true, r)
      else if g =? 43 then (false, r)
      else (false, s)
  | _ => (false, s)
  end.

(** The exponent, read when [e] or [E], an optional sign and a digit
    follow; otherwise nothing is read. *)
Definition number_exp (s : str) : option Z * str :=
  match s with
  | c :: s' =>
      if (c =? 101) || (c =? 69) then
        let '(eneg, s'') := exponent_sign s' in
        match span_digits s'' with
        | ([], _) => (None, s)
        | (eds, r) =>
            (Some (if eneg then - digits_val eds else digits_val eds), r)
        end
      else (None, s)
  | [] => (None, s)
  end.

(** The value of a literal: a [float] when it has a fraction or an
    exponent, an [int] otherwise.  (CPython's [int] refuses a literal of
    more than 4300 digits with [ValueError]; here an integer of any
    length is read.) *)
Definition number_value (neg : bool) (ids fds : str) (exp : option Z) : value :=
  match fds, exp with
  | [], None => VInt (if neg then - digits_val ids else digits_val ids)
  | _, _ =>
      VFloat (float_of_dec neg (digits_val (ids ++ fds))
                (default 0 exp - Z.of_nat (length fds)))
  end.

(** [_match_number_unicode]; [None] stands for [StopIteration]. *)
Definition match_number (s : str) : option (value * str) :=
  let '(neg, s1) := number_sign s in
  '(ids, s2) ← number_int s1;
  let '(fds, s3) := number_frac s2 in
  let '(exp, s4) := number_exp s3 in
  Some (number_value neg ids fds exp, s4).

(** The three constants outside the JSON grammar that the scanner hands to
    the [parse_constant] hook. *)
Inductive constant := NaN | Infinity | NegInfinity.

(** The default hook, [_CONSTANTS.__getitem__]. *)
Definition default_constant (c : constant) : result value :=
  Ok (VFloat (match c with
              | NaN => FNaN
              | Infinity => FInf false
              | NegInfinity => FInf true
              end)).

(** A hook that refuses the constants, leaving the grammar of RFC 8259. *)
Definition reject_constant (c : constant) : result value :=
  Raise JSONDecodeError.

Definition starts_with_bom (s : str) : bool :=
  match s with
  | c :: _ => c =? 0xFEFF
  | [] => false
  end.

Section scanner.
Variable parse_constant : constant → result value.

(** The scalars of [scan_once_unicode]: [null], [true], [false], the
    three constants, and numbers. *)
Definition scan_scalar (s : str) : result (value * str) :=
  match strip_prefix (py "null") s with
  | Some r => Ok (VNone, r)
  | None =>
  match strip_prefix (py "true") s with
  | Some r => Ok (VBool true, r)
  | None =>
  match strip_prefix (py "false") s with
  | Some r => Ok (VBool false, r)
  | None =>
  match strip_prefix (py "NaN") s with
  | Some r => v ← parse_constant NaN; Ok (v, r)
  | None =>
  match strip_prefix (py "Infinity") s with
  | Some r => v ← parse_constant Infinity; Ok (v, r)
  | None =>
  match strip_prefix (py "-Infinity") s with
  | Some r => v ← parse_constant NegInfinity; Ok (v, r)
  | None =>
  match match_number s with
  | Some vr => Ok vr
  | None => Raise JSONDecodeError
  end end end end end end end.

(** [scan_once_unicode], [_parse_object_unicode] (from the first
    character of a key, with the pairs read so far in [acc]) and
    [_parse_array_unicode] (from the first character of an element, with
    the elements read so far, last first, in [acc]).  [fuel] bounds the
    number of calls still allowed; running out of it is
    [RecursionError]. *)
Fixpoint scan_once (fuel : nat) (s : str) : result (value * str) :=
  match fuel with
  | O => Raise RecursionError
  | S fuel' =>
      match s with
      | [] => Raise JSONDecodeError
      | c :: s1 =>
          if c =? 34 then
            '(r, rest) ← scanstring s1; Ok (VStr r, rest)
          else if c =? 123 then
            match skip_ws s1 with
            | c' :: s2 =>
                if c' =? 125 then Ok (VDict [], s2)
                else parse_object fuel' [] (c' :: s2)
            | [] => Raise JSONDecodeError
            end
          else if c =? 91 then
            match skip_ws s1 with
            | c' :: s2 =>
                if c' =? 93 then Ok (VList [], s2)
                else parse_array fuel' [] (c' :: s2)
            | [] => Raise JSONDecodeError
            end
          else scan_scalar s
      end
  end
with parse_object (fuel : nat) (acc : dict) (s : str) : result (value * str) :=
  match fuel with
  | O => Raise RecursionError
  | S fuel' =>
      match s with
      | [] => Raise JSONDecodeError
      | c :: s1 =>
          if c =? 34 then
            '(key, s2) ← scanstring s1;
            match skip_ws s2 with
            | [] => Raise JSONDecodeError
            | c2 :: s3 =>
                if c2 =? 58 then
                  '(val, s4) ← scan_once fuel' (skip_ws s3);
                  let acc' := dict_set acc key val in
                  match skip_ws s4 with
                  | [] => Raise JSONDecodeError
                  | c4 :: s5 =>
                      if c4 =? 125 then Ok (VDict acc', s5)
                      else if c4 =? 44 then parse_object fuel' acc' (skip_ws s5)
                      else Raise JSONDecodeError
                  end
                else Raise JSONDecodeError
            end
          else Raise JSONDecodeError
      end
  end
with parse_array (fuel : nat) (acc : list value) (s : str) : result (value * str) :=
  match fuel with
  | O => Raise RecursionError
  | S fuel' =>
      '(val, s1) ← scan_once fuel' s;
      let acc' := val :: acc in
      match skip_ws s1 with
      | [] => Raise JSONDecodeError
      | c :: s2 =>
          if c =? 93 then Ok (VList (reverse acc'), s2)
          else if c =? 44 then parse_array fuel' acc' (skip_ws s2)
          else Raise JSONDecodeError
      end
  end.

(** [JSONDecoder.decode] behind [json.loads]: no byte order mark, one
    value between optional whitespace, nothing after it.  Two calls of
    the scanner in a row read at least one character, so twice the
    length of the text is fuel enough ([scan_once_shorter]): the
    decoder here never raises [RecursionError], where CPython does for
    text nested beyond the recursion limit of the interpreter. *)
Definition decode (s : str) : result value :=
  if starts_with_bom s then Raise JSONDecodeError
  else
    '(obj, rest) ← scan_once (S (2 * length s)) (skip_ws s);
    match skip_ws rest with
    | [] => Ok obj
    | _ :: _ => Raise JSONDecodeError
    end.
End scanner.

(** [json.loads(s)]. *)
Definition loads (s : str) : result value := decode default_constant s.

(** The texts the grammar of RFC 8259 derives. *)
Definition valid_json (s : str) : Prop := ∃ v, decode reject_constant s = Ok v.

(* ===================================================================== *)
(** * [json.dumps]: the encoder of [_json] *)
(* ===================================================================== *)

(** [S_CHAR]: the characters written as they are. *)
Definition S_CHAR (c : Z) : bool :=
  (32 <=? c) && (c <=? 126) && negb (c =? 92) && negb (c =? 34).

Definition hexdigit (n : Z) : Z :=
  nth (Z.to_nat n) (py "0123456789abcdef") 48.

(** A [\uXXXX] escape of a 16-bit code unit. *)
Definition u_escape (c : Z) : str :=
  [92; 117;
   hexdigit (Z.land (Z.shiftr c 12) 0xf);
   hexdigit (Z.land (Z.shiftr c 8) 0xf);
   hexdigit (Z.land (Z.shiftr c 4) 0xf);
   hexdigit (Z.land c 0xf)].

(** [ascii_escape_unichar]: the short escapes, a surrogate pair of escapes
    for a character beyond the basic plane, one escape for the rest. *)
Definition ascii_escape_unichar (c : Z) : str :=
  if c =? 92 then [92; 92]
  else if c =? 34 then [92; 34]
  else if c =? 8 then [92; 98]
  else if c =? 12 then [92; 102]
  else if c =? 10 then [92; 110]
  else if c =? 13 then [92; 114]
  else if c =? 9 then [92; 116]
  else if 0x10000 <=? c then
    let v := c - 0x10000 in
    u_escape (Z.lor 0xd800 (Z.land (Z.shiftr v 10) 0x3ff))
    ++ u_escape (Z.lor 0xdc00 (Z.land v 0x3ff))
  else u_escape c.

Definition encode_char (c : Z) : str :=
  if S_CHAR c then [c] else ascii_escape_unichar c.

(** [encode_basestring_ascii] ([ensure_ascii] is on by default). *)
Definition encode_basestring_ascii (s : str) : str :=
  34 :: concat (encode_char <$> s) ++ [34].

(** [encoder_encode_float] ([allow_nan] is on by default). *)
Definition encode_float (x : float) : str :=
  match x with
  | FNaN => py "NaN"
  | FInf false => py "Infinity"
  | FInf true => py "-Infinity"
  | _ => float_repr x
  end.

(** [encoder_listencode_obj] with the default separators [', '] and
    [': ']. *)
Fixpoint encode (v : value) : str :=
  match v with
  | VNone => py "null"
  | VBool true => py "true"
  | VBool false => py "false"
  | VInt n => int_repr n
  | VFloat x => encode_float x
  | VStr s => encode_basestring_ascii s
  | VList items =>
      let fix encode_items (l : list value) : str :=
        match l with
        | [] => []
        | [x] => encode x
        | x :: l' => encode x ++ py ", " ++ encode_items l'
        end in
      91 :: encode_items items ++ [93]
  | VDict d =>
      let fix encode_pairs (l : dict) : str :=
        match l with
        | [] => []
        | [(k, x)] => encode_basestring_ascii k ++ py ": " ++ encode x
        | (k, x) :: l' =>
            encode_basestring_ascii k ++ py ": " ++ encode x ++ py ", "
            ++ encode_pairs l'
        end in
      123 :: encode_pairs d ++ [125]
  end.

(** [json.dumps(data)]. *)
Definition dumps (data : value) : str := encode data.

(* ===================================================================== *)
(** * The process *)
(* ===================================================================== *)

(** What the process does to its surroundings, in order. *)
Inductive event :=
| EvRead (path : string)
| EvTruncate (path : string)
| EvWrite (path : string) (s : str)
| EvPrint (s : str).

(** The surroundings of the process: the files of the working directory,
    the environment variables, what was sent to standard output so far,
    and the events so far. *)
Record world := World {
  files : gmap string str;
  environ : gmap string str;
  stdout : str;
  trace : list event;
}.

(** A computation that reads and changes the world and may raise. *)
Definition M (A : Type) : Type := world → result A * world.

#[export] Instance M_ret : MRet M := λ A a w, (Ok a, w).
#[export] Instance M_bind : MBind M :=
  λ A B f m w,
    match m w with
    | (Ok a, w') => f a w'
    | (Raise e, w') => (Raise e, w')
    end.

Definition lift {A} (r : result A) : M A := λ w, (r, w).

Definition log (ev : event) (w : world) : world :=
  World (files w) (environ w) (stdout w) (trace w ++ [ev]).

(** [with open(path, 'r') as file: file.read()]. *)
Definition read_file (path : string) : M str :=
  λ w, match files w !! path with
       | Some s => (Ok s, log (EvRead path) w)
       | None => (Raise FileNotFoundError, w)
       end.

(** [open(path, 'w')]: the file is created or emptied. *)
Definition open_w (path : string) : M unit :=
  λ w, (Ok (), log (EvTruncate path)
                 (World (<[path := []]> (files w)) (environ w) (stdout w) (trace w))).

(** [file.write(s)] on a file open for writing: [s] goes after what the
    file holds. *)
Definition file_write (path : string) (s : str) : M unit :=
  λ w, (Ok (), log (EvWrite path s)
                 (World (<[path := default [] (files w !! path) ++ s]> (files w))
                        (environ w) (stdout w) (trace w))).

(** [print(s)]: [s] and a line feed go to standard output. *)
Definition print (s : str) : M unit :=
  λ w, (Ok (), log (EvPrint s)
                 (World (files w) (environ w) (stdout w ++ s ++ [10]) (trace w))).

(** The script, statement by statement. *)
Definition data_formatter : M unit :=
  json_data ← read_file "atit.json";
  data ← lift (loads json_data);
  data ← lift (reindex data);
  let updated_json_data := dumps data in
  open_w "atit.json";;
  file_write "atit.json" updated_json_data;;
  print updated_json_data.

(** The world the script leaves behind when it ends normally with the
    serialized text [out]. *)
Definition written (w : world) (out : str) : world :=
  World (<["atit.json" := out]> (files w)) (environ w)
        (stdout w ++ out ++ [10])
        (trace w ++ [EvRead "atit.json"; EvTruncate "atit.json";
                     EvWrite "atit.json" out; EvPrint out]).

(** A world with [atit.json] holding [s] and nothing else. *)
Definition initial (s : str) : world := World {["atit.json" := s]} ∅ [] [].

(** The values of [portfolio] on which the loop raises: those that cannot
    be iterated, and those that yield an item that is not a dictionary. *)
Definition rejected_portfolio (pf : value) : Prop :=
  match pf with
  | VNone | VBool _ | VInt _ | VFloat _ => True
  | VStr s => s ≠ []
  | VDict f => f ≠ []
  | VList items => ¬ Forall is_dict items
  end.

(** What follows a value in the output of the encoder: a comma, a closing
    bracket or a closing brace, or the end of the text. *)
Definition is_delim (c : Z) : Prop := c = 44 ∨ c = 93 ∨ c = 125.

Definition terminated (rest : str) : Prop :=
  match rest with
  | [] => True
  | c :: _ => is_delim c
  end.

Arguments float_of_dec : simpl never.
Arguments round_ratio : simpl never.
Arguments digits_of : simpl never.
Arguments digits_val : simpl never.
Arguments exponent : simpl never.
Arguments float_repr : simpl never.
Arguments repr_digits : simpl never.

(** A text that starts like a number: a digit, or a minus sign and a
    digit. *)
Definition number_start (s : str) : Prop :=
  match s with
  | c :: s' =>
      is_digit c = true ∨
      (c = 45 ∧ match s' with c' :: _ => is_digit c' = true | [] => False end)
  | [] => False
  end.

(** The code points of text decoded with the strict error handler: in
    range and no surrogates. *)
Definition is_surrogate (c : Z) : bool := (0xD800 <=? c) && (c <=? 0xDFFF).

Definition wf_text (s : str) : Prop :=
  Forall (λ c, 0 ≤ c < 0x110000 ∧ is_surrogate c = false) s.

(** The strings the scanner returns for such text: code points in range,
    and no high surrogate directly before a low surrogate (the scanner
    joins such a pair of escapes into one character). *)
Fixpoint wf_str (s : str) : Prop :=
  match s with
  | [] => True
  | c :: s' =>
      0 ≤ c < 0x110000 ∧
      (is_high_surrogate c = true →
       match s' with c' :: _ => is_low_surrogate c' = false | [] => True end) ∧
      wf_str s'
  end.

(** A text that does not go on with the escape of a low surrogate: where
    an escape and one more character follow, the escape is well formed
    and is not a low surrogate. *)
Definition no_low_escape (s : str) : Prop :=
  ∀ l1 l2 l3 l4 c s',
    s = 92 :: 117 :: l1 :: l2 :: l3 :: l4 :: c :: s' →
    ∃ u, hex4 l1 l2 l3 l4 = Some u ∧ is_low_surrogate u = false.

(** The elements of a list and the members of a dictionary as [encode]
    writes them, between the brackets. *)
Fixpoint encode_items (l : list value) : str :=
  match l with
  | [] => []
  | [x] => encode x
  | x :: l' => encode x ++ py ", " ++ encode_items l'
  end.

Fixpoint encode_pairs (l : dict) : str :=
  match l with
  | [] => []
  | [(k, x)] => encode_basestring_ascii k ++ py ": " ++ encode x
  | (k, x) :: l' =>
      encode_basestring_ascii k ++ py ": " ++ encode x ++ py ", "
      ++ encode_pairs l'
  end.

(** The documents [json.loads] returns for text without surrogates:
    canonical doubles, well-formed strings and keys, no key twice. *)
Fixpoint wf_value (v : value) : Prop :=
  match v with
  | VFloat x => canonical x
  | VStr s => wf_str s
  | VList items =>
      (fix all (l : list value) : Prop :=
         match l with
         | [] => True
         | x :: l' => wf_value x ∧ all l'
         end) items
  | VDict d =>
      NoDup (keys d) ∧
      (fix all (l : dict) : Prop :=
         match l with
         | [] => True
         | (k, x) :: l' => (wf_str k ∧ wf_value x) ∧ all l'
         end) d
  | _ => True
  end.

(** With fuel [n] or more the scanner reads an encoded [v] back. *)
Definition reads_back (v : value) (n : nat) : Prop :=
  ∀ fuel rest, (n ≤ fuel)%nat → terminated rest →
    scan_once default_constant fuel (encode v ++ rest) = Ok (v, rest).

(* ===================================================================== *)
(** * Predicates on the output *)
(* ===================================================================== *)

(** The printable characters of ASCII, the space among them. *)
Definition printable (c : Z) : Prop := 32 ≤ c ≤ 126.

(** The documents without [nan], [inf] and [-inf]: those whose
    serialization has no [NaN], [Infinity] or [-Infinity]. *)
Definition finite_float (x : float) : Prop :=
  match x with
  | FNaN | FInf _ => False
  | _ => True
  end.

Fixpoint finite_value (v : value) : Prop :=
  match v with
  | VFloat x => finite_float x
  | VList items =>
      (fix all (l : list value) : Prop :=
         match l with
         | [] => True
         | x :: l' => finite_value x ∧ all l'
         end) items
  | VDict d =>
      (fix all (l : dict) : Prop :=
         match l with
         | [] => True
         | (k, x) :: l' => finite_value x ∧ all l'
         end) d
  | _ => True
  end.

(** With fuel [n] or more the scanner with the hook [pc] reads an encoded
    [v] back. *)
Definition reads_back_with (pc : constant → result value) (v : value) (n : nat) : Prop :=
  ∀ fuel rest, (n ≤ fuel)%nat → terminated rest →
    scan_once pc fuel (encode v ++ rest) = Ok (v, rest).

(** A world with [atit.json] holding [s], another file, an environment
    variable and something on standard output already. *)
Definition busy (s : str) : world :=
  World {["atit.json" := s; "notes.txt" := py "kept"]}
        {["HOME" := py "/root"]} (py "before") [].

(* ===================================================================== *)
(** * Dictionaries *)
(* ===================================================================== *)

Section dict_facts.
Implicit Types (d : dict) (k : str) (v : value).

Lemma dict_get_set_eq d k v : dict_get (dict_set d k v) k = Some v.
Proof.
  induction d as [|[k' v'] d IH]; simpl.
  - by rewrite decide_True.
  - destruct (decide (k' = k)) as [->|Hne]; simpl.
    + by rewrite decide_True.
    + by rewrite decide_False.
Qed.

Lemma dict_get_set_ne d k k' v :
  k ≠ k' → dict_get (dict_set d k v) k' = dict_get d k'.
Proof.
  intros Hne. induction d as [|[k0 v0] d IH]; simpl.
  - by rewrite decide_False.
  - destruct (decide (k0 = k)) as [->|Hk]; simpl.
    + by rewrite !decide_False.
    + by rewrite IH.
Qed.

Lemma dict_set_set d k v v' :
  dict_set (dict_set d k v) k v' = dict_set d k v'.
Proof.
  induction d as [|[k0 v0] d IH]; simpl.
  - by rewrite decide_True.
  - destruct (decide (k0 = k)) as [->|Hk]; simpl.
    + by rewrite decide_True.
    + by rewrite decide_False, IH.
Qed.

Lemma dict_set_same d k v : dict_get d k = Some v → dict_set d k v = d.
Proof.
  induction d as [|[k0 v0] d IH]; simpl; [done|].
  destruct (decide (k0 = k)) as [->|Hk]; [congruence|].
  intros ?. by rewrite IH.
Qed.

Lemma keys_dict_set_present d k v :
  is_Some (dict_get d k) → keys (dict_set d k v) = keys d.
Proof.
  unfold keys. induction d as [|[k0 v0] d IH]; csimpl.
  - by intros [? ?].
  - destruct (decide (k0 = k)) as [->|Hk]; csimpl; [done|].
    intros ?. by rewrite IH.
Qed.

Lemma keys_dict_set_absent d k v :
  dict_get d k = None → keys (dict_set d k v) = keys d ++ [k].
Proof.
  unfold keys. induction d as [|[k0 v0] d IH]; csimpl; [done|].
  destruct (decide (k0 = k)) as [->|Hk]; csimpl; [done|].
  intros ?. by rewrite IH.
Qed.

Lemma dict_get_None d k : dict_get d k = None ↔ k ∉ keys d.
Proof.
  unfold keys. induction d as [|[k0 v0] d IH]; csimpl.
  - split; [intros _; apply not_elem_of_nil | done].
  - rewrite not_elem_of_cons. destruct (decide (k0 = k)) as [->|Hk].
    + split; [done | by intros [? _]].
    + rewrite IH. split; [by intros ?; split | by intros [_ ?]].
Qed.

Lemma dict_without_set d k v :
  dict_without k (dict_set d k v) = dict_without k d.
Proof.
  unfold dict_without. induction d as [|[k0 v0] d IH]; simpl.
  - by rewrite filter_cons_False by (simpl; auto).
  - destruct (decide (k0 = k)) as [->|Hk].
    + by rewrite !filter_cons_False by (simpl; auto).
    + by rewrite !filter_cons_True, IH by done.
Qed.

Lemma keys_NoDup_dict_set d k v : NoDup (keys d) → NoDup (keys (dict_set d k v)).
Proof.
  intros Hd. destruct (dict_get d k) as [v0|] eqn:Hk.
  - by rewrite keys_dict_set_present by eauto.
  - rewrite keys_dict_set_absent by done.
    apply NoDup_app. split_and!; [done| |apply NoDup_singleton].
    intros x Hx ->%list_elem_of_singleton. by apply dict_get_None in Hk.
Qed.
End dict_facts.

(* ===================================================================== *)
(** * The loop *)
(* ===================================================================== *)

Lemma bind_Ok {A B} (m : result A) (f : A → result B) b :
  m ≫= f = Ok b ↔ ∃ a, m = Ok a ∧ f a = Ok b.
Proof. destruct m; simpl; naive_solver. Qed.

Lemma bind_Raise {A B} (m : result A) (f : A → result B) e :
  m ≫= f = Raise e ↔ m = Raise e ∨ ∃ a, m = Ok a ∧ f a = Raise e.
Proof. destruct m; simpl; naive_solver. Qed.

Lemma setitem_Ok item k v item' :
  setitem item k v = Ok item' ↔ ∃ f, item = VDict f ∧ item' = VDict (dict_set f k v).
Proof. destruct item; simpl; naive_solver. Qed.

Lemma setitem_Raise item k v e :
  setitem item k v = Raise e ↔ e = TypeError ∧ ¬ is_dict item.
Proof. destruct item; simpl; naive_solver. Qed.

(** When the loop ends normally it has met dictionaries only, and has left
    at every position the dictionary it met there with its [id] set to the
    position. *)
Lemma reindex_from_Ok items : ∀ i items',
  reindex_from i items = Ok items' →
  length items' = length items ∧
  ∀ (j : nat) item, items !! j = Some item →
    ∃ f, item = VDict f ∧
         items' !! j = Some (VDict (dict_set f (py "id") (VInt (i + Z.of_nat j)))).
Proof.
  induction items as [|item items IH]; intros i items'; simpl.
  - intros [= <-]. split; [done|]. intros j item. by rewrite lookup_nil.
  - intros (it' & (f & -> & ->)%setitem_Ok & (rest' & Hrest & [= <-])%bind_Ok)%bind_Ok.
    destruct (IH _ _ Hrest) as [Hlen Hall]. split; [simpl; by rewrite Hlen|].
    intros [|j] item; simpl.
    + intros [= <-]. eexists. split; [done|]. by rewrite Z.add_0_r.
    + intros Hj. destruct (Hall _ _ Hj) as (g & -> & Hg). eexists. split; [done|].
      rewrite Hg. by replace (i + 1 + Z.of_nat j) with (i + Z.of_nat (S j)) by lia.
Qed.

(** The loop ends normally on dictionaries. *)
Lemma reindex_from_dicts items : ∀ i,
  Forall is_dict items → ∃ items', reindex_from i items = Ok items'.
Proof.
  induction items as [|item items IH]; intros i Hall; simpl; [by eexists|].
  apply Forall_cons in Hall as [Hd Hall]. destruct item; try done.
  destruct (IH (i + 1) Hall) as [rest' ->]. simpl. by eexists.
Qed.

(** The loop raises [TypeError], and nothing else, at the first item that
    is not a dictionary. *)
Lemma reindex_from_Raise items : ∀ i e,
  reindex_from i items = Raise e ↔ e = TypeError ∧ ¬ Forall is_dict items.
Proof.
  induction items as [|item items IH]; intros i e; simpl.
  - split; [done|]. intros [_ []]. constructor.
  - rewrite bind_Raise, setitem_Raise. split.
    + intros [[-> Hd]|(it' & (f & -> & ->)%setitem_Ok & Hr)].
      * split; [done|]. by intros [? _]%Forall_cons.
      * apply bind_Raise in Hr as [Hr|(? & _ & [=])].
        apply IH in Hr as [-> Hn]. split; [done|]. by intros [_ ?]%Forall_cons.
    + intros [-> Hn]. destruct (decide (is_dict item)) as [Hd|Hd]; [|by left].
      right. destruct item; try done. eexists. split; [done|].
      apply bind_Raise. left. apply IH. split; [done|].
      intros ?. apply Hn. by constructor.
Qed.

(** A second pass of the loop over its own result changes nothing. *)
Lemma reindex_from_idem items : ∀ i items',
  reindex_from i items = Ok items' → reindex_from i items' = Ok items'.
Proof.
  induction items as [|item items IH]; intros i items'; simpl.
  - by intros [= <-].
  - intros (it' & (f & -> & ->)%setitem_Ok & (rest' & Hrest & [= <-])%bind_Ok)%bind_Ok.
    simpl. rewrite (IH _ _ Hrest). simpl. by rewrite dict_set_set.
Qed.

(** The script's loop on a document whose [portfolio] is a list. *)
Lemma reindex_list d items items' :
  dict_get d (py "portfolio") = Some (VList items) →
  reindex_from 0 items = Ok items' →
  reindex (VDict d) = Ok (VDict (dict_set d (py "portfolio") (VList items'))).
Proof. intros Hp Hr. unfold reindex. simpl. rewrite Hp. simpl. by rewrite Hr. Qed.

Lemma reindex_idem data data' :
  reindex data = Ok data' → reindex data' = Ok data'.
Proof.
  unfold reindex.
  intros (pf & Hpf & (items & Hit & (items' & Hr & Hd)%bind_Ok)%bind_Ok)%bind_Ok.
  destruct data as [| | | | | |d]; try done. simpl in Hpf.
  destruct (dict_get d (py "portfolio")) as [v|] eqn:Hget; [|done].
  injection Hpf as ->.
  destruct pf as [| | | |s|l|f]; try done; simpl in Hit; injection Hit as <-.
  - injection Hd as <-. simpl. rewrite Hget. simpl. by rewrite Hr.
  - injection Hd as <-. simpl. rewrite dict_get_set_eq. simpl.
    rewrite (reindex_from_idem _ _ _ Hr). simpl. by rewrite dict_set_set.
  - injection Hd as <-. simpl. rewrite Hget. simpl. by rewrite Hr.
Qed.

(** C1.  On a document whose [portfolio] is a list of N dictionaries the
    loop ends normally, and afterwards the [portfolio] still has N elements
    and the element at every position [i] below N has [id] equal to [i]. *)
Theorem reindex_ids (d : dict) (items : list value) :
  dict_get d (py "portfolio") = Some (VList items) →
  Forall is_dict items →
  ∃ data' items',
    reindex (VDict d) = Ok data' ∧
    getitem data' (py "portfolio") = Ok (VList items') ∧
    length items' = length items ∧
    ∀ i : nat, (i < length items)%nat →
      ∃ item', items' !! i = Some item' ∧
               getitem item' (py "id") = Ok (VInt (Z.of_nat i)).
Proof.
  intros Hp Hall. destruct (reindex_from_dicts items 0 Hall) as [items' Hr].
  exists (VDict (dict_set d (py "portfolio") (VList items'))), items'.
  destruct (reindex_from_Ok _ _ _ Hr) as [Hlen Hitems].
  split_and!; [by eapply reindex_list| |done|].
  - simpl. by rewrite dict_get_set_eq.
  - intros i Hi. destruct (lookup_lt_is_Some_2 items i Hi) as [item Hitem].
    destruct (Hitems _ _ Hitem) as (f & -> & Hi'). eexists. split; [done|].
    simpl. by rewrite dict_get_set_eq.
Qed.

Lemma reindex_ids_witness :
  ∃ data' items',
    reindex (VDict [(py "portfolio", VList [VDict []; VDict [(py "id", VInt 7)]])])
      = Ok data' ∧
    getitem data' (py "portfolio") = Ok (VList items') ∧
    length items' = 2%nat ∧
    ∀ i : nat, (i < 2)%nat →
      ∃ item', items' !! i = Some item' ∧
               getitem item' (py "id") = Ok (VInt (Z.of_nat i)).
Proof.
  apply (reindex_ids [(py "portfolio", VList [VDict []; VDict [(py "id", VInt 7)]])]
           [VDict []; VDict [(py "id", VInt 7)]]).
  - reflexivity.
  - repeat constructor.
Defined.

(** C2.  On a document whose [portfolio] is a list of dictionaries the loop
    keeps the keys of the document and their order, every entry of the
    document other than [portfolio], the number and the order of the
    elements, and in every element the entries other than [id] with their
    order; the [id] of the element is set, overwriting a value it had. *)
Theorem reindex_frame (d : dict) (items : list value) :
  dict_get d (py "portfolio") = Some (VList items) →
  Forall is_dict items →
  ∃ d' items',
    reindex (VDict d) = Ok (VDict d') ∧
    dict_get d' (py "portfolio") = Some (VList items') ∧
    keys d' = keys d ∧
    dict_without (py "portfolio") d' = dict_without (py "portfolio") d ∧
    (∀ k, k ≠ py "portfolio" → dict_get d' k = dict_get d k) ∧
    length items' = length items ∧
    ∀ (i : nat) item, items !! i = Some item →
      ∃ f f', item = VDict f ∧ items' !! i = Some (VDict f') ∧
              dict_without (py "id") f' = dict_without (py "id") f ∧
              (∀ k, k ≠ py "id" → dict_get f' k = dict_get f k) ∧
              dict_get f' (py "id") = Some (VInt (Z.of_nat i)).
Proof.
  intros Hp Hall. destruct (reindex_from_dicts items 0 Hall) as [items' Hr].
  exists (dict_set d (py "portfolio") (VList items')), items'.
  destruct (reindex_from_Ok _ _ _ Hr) as [Hlen Hitems].
  split_and!; [by eapply reindex_list|apply dict_get_set_eq| | | |done|].
  - apply keys_dict_set_present. by rewrite Hp.
  - apply dict_without_set.
  - intros k Hk. by apply dict_get_set_ne.
  - intros i item Hitem. destruct (Hitems _ _ Hitem) as (f & -> & Hi').
    exists f, (dict_set f (py "id") (VInt (Z.of_nat i))).
    split_and!; [done|done|apply dict_without_set| |apply dict_get_set_eq].
    intros k Hk. by apply dict_get_set_ne.
Qed.

Lemma reindex_frame_witness :
  let d := [(py "a", VInt 1);
            (py "portfolio", VList [VDict [(py "id", VInt 9); (py "n", VNone)]]);
            (py "z", VBool true)] in
  let items := [VDict [(py "id", VInt 9); (py "n", VNone)]] in
  ∃ d' items',
    reindex (VDict d) = Ok (VDict d') ∧
    dict_get d' (py "portfolio") = Some (VList items') ∧
    keys d' = keys d ∧
    dict_without (py "portfolio") d' = dict_without (py "portfolio") d ∧
    (∀ k, k ≠ py "portfolio" → dict_get d' k = dict_get d k) ∧
    length items' = length items ∧
    ∀ (i : nat) item, items !! i = Some item →
      ∃ f f', item = VDict f ∧ items' !! i = Some (VDict f') ∧
              dict_without (py "id") f' = dict_without (py "id") f ∧
              (∀ k, k ≠ py "id" → dict_get f' k = dict_get f k) ∧
              dict_get f' (py "id") = Some (VInt (Z.of_nat i)).
Proof.
  intros d items. apply (reindex_frame d items).
  - reflexivity.
  - repeat constructor.
Defined.

(** C3.  On a document whose [portfolio] is a list of dictionaries the loop
    ends normally, and a second pass over its result ends normally with
    that same result. *)
Theorem reindex_idempotent (d : dict) (items : list value) :
  dict_get d (py "portfolio") = Some (VList items) →
  Forall is_dict items →
  ∃ data', reindex (VDict d) = Ok data' ∧ reindex data' = Ok data'.
Proof.
  intros Hp Hall. destruct (reindex_from_dicts items 0 Hall) as [items' Hr].
  eexists. split; [by eapply reindex_list|].
  eapply reindex_idem. by eapply reindex_list.
Qed.

Lemma reindex_idempotent_witness :
  ∃ data',
    reindex (VDict [(py "portfolio", VList [VDict [(py "name", VStr (py "A"))]])])
      = Ok data' ∧
    reindex data' = Ok data'.
Proof.
  apply (reindex_idempotent
           [(py "portfolio", VList [VDict [(py "name", VStr (py "A"))]])]
           [VDict [(py "name", VStr (py "A"))]]).
  - reflexivity.
  - repeat constructor.
Defined.

(* ===================================================================== *)
(** * The process *)
(* ===================================================================== *)

(** The script raises [FileNotFoundError] where there is no file. *)
Lemma data_formatter_no_file (w : world) :
  files w !! "atit.json" = None →
  data_formatter w = (Raise FileNotFoundError, w).
Proof. intros Hf. unfold data_formatter, mbind, M_bind, read_file. by rewrite Hf. Qed.

(** An exception of [json.loads] or of the loop ends the script after the
    file was read and before it is opened for writing. *)
Lemma data_formatter_loads_Raise (w : world) (s : str) (e : exn) :
  files w !! "atit.json" = Some s →
  loads s = Raise e →
  data_formatter w = (Raise e, log (EvRead "atit.json") w).
Proof.
  intros Hf Hl. unfold data_formatter, mbind, M_bind, read_file, lift.
  by rewrite Hf, Hl.
Qed.

Lemma data_formatter_reindex_Raise (w : world) (s : str) (data : value) (e : exn) :
  files w !! "atit.json" = Some s →
  loads s = Ok data →
  reindex data = Raise e →
  data_formatter w = (Raise e, log (EvRead "atit.json") w).
Proof.
  intros Hf Hl Hr. unfold data_formatter, mbind, M_bind, read_file, lift.
  by rewrite Hf, Hl, Hr.
Qed.

(** Otherwise the script ends normally: the file holds the serialized
    document and nothing else, and the same text and a line feed were sent
    to standard output. *)
Lemma data_formatter_Ok (w : world) (s : str) (data data' : value) :
  files w !! "atit.json" = Some s →
  loads s = Ok data →
  reindex data = Ok data' →
  data_formatter w = (Ok (), written w (dumps data')).
Proof.
  intros Hf Hl Hr.
  unfold data_formatter, mbind, M_bind, read_file, lift, open_w, file_write, print.
  rewrite Hf, Hl, Hr. unfold written, log. simpl.
  rewrite lookup_insert_eq, insert_insert_eq. simpl.
  by rewrite <- !app_assoc.
Qed.

(** What the loop does for each kind of [portfolio] value. *)
Lemma reindex_rejected (d : dict) (pf : value) :
  dict_get d (py "portfolio") = Some pf →
  rejected_portfolio pf →
  reindex (VDict d) = Raise TypeError.
Proof.
  intros Hp Hrej. unfold reindex. simpl. rewrite Hp. simpl.
  destruct pf as [| | | |s|items|f]; simpl in *; try done.
  - destruct s; [done|]. reflexivity.
  - destruct (reindex_from 0 items) as [items'|e] eqn:Hr; simpl.
    + destruct Hrej. clear Hp. revert Hr. generalize 0. revert items'.
      induction items as [|item items IH]; intros items' i; simpl; [constructor|].
      intros (it' & (g & -> & ->)%setitem_Ok & (rest' & Hrest & _)%bind_Ok)%bind_Ok.
      constructor; [done|]. eapply IH, Hrest.
    + by apply reindex_from_Raise in Hr as [-> _].
  - destruct f as [|[k v] f]; [done|]. reflexivity.
Qed.

Lemma reindex_empty (d : dict) (pf : value) :
  dict_get d (py "portfolio") = Some pf →
  pf = VList [] ∨ pf = VStr [] ∨ pf = VDict [] →
  reindex (VDict d) = Ok (VDict d).
Proof.
  intros Hp Hpf. unfold reindex. simpl. rewrite Hp. simpl.
  destruct Hpf as [->|[->| ->]]; simpl; [|done..].
  by rewrite dict_set_same.
Qed.

(** C4.  When the file holds a JSON object without the key [portfolio],
    the script ends with [KeyError] for that key; the file has only been
    read: the files, and so the content of [atit.json], are as before, and
    nothing was printed. *)
Theorem missing_portfolio_key (w : world) (s : str) (d : dict) :
  files w !! "atit.json" = Some s →
  loads s = Ok (VDict d) →
  py "portfolio" ∉ keys d →
  ∃ w', data_formatter w = (Raise (KeyError (py "portfolio")), w') ∧
        files w' = files w ∧
        stdout w' = stdout w ∧
        trace w' = trace w ++ [EvRead "atit.json"].
Proof.
  intros Hf Hl Hk. exists (log (EvRead "atit.json") w). split; [|done].
  eapply data_formatter_reindex_Raise; [done..|].
  unfold reindex. simpl. apply dict_get_None in Hk. by rewrite Hk.
Qed.

Lemma missing_portfolio_key_witness :
  ∃ w', data_formatter (initial (js "{'x': 1}"))
          = (Raise (KeyError (py "portfolio")), w') ∧
        files w' = files (initial (js "{'x': 1}")) ∧
        stdout w' = stdout (initial (js "{'x': 1}")) ∧
        trace w' = trace (initial (js "{'x': 1}")) ++ [EvRead "atit.json"].
Proof.
  apply (missing_portfolio_key (initial (js "{'x': 1}")) (js "{'x': 1}")
           [(py "x", VInt 1)]).
  - reflexivity.
  - vm_compute. reflexivity.
  - refine (bool_decide_unpack _ _). vm_compute. exact I.
Defined.

(** C6, as the script has it.  When the value of [portfolio] is a number,
    a boolean, [null], a string or an object that is not empty, or an array
    with an element that is not an object, the script ends with
    [TypeError]; the file has only been read and nothing was printed.  An
    empty string or an empty object yields no item: the loop body does not
    run and the script ends normally with the document as it was. *)
Theorem portfolio_type_error (w : world) (s : str) (d : dict) (pf : value) :
  files w !! "atit.json" = Some s →
  loads s = Ok (VDict d) →
  dict_get d (py "portfolio") = Some pf →
  (rejected_portfolio pf →
     ∃ w', data_formatter w = (Raise TypeError, w') ∧
           files w' = files w ∧
           stdout w' = stdout w ∧
           trace w' = trace w ++ [EvRead "atit.json"]) ∧
  (pf = VStr [] ∨ pf = VDict [] →
     data_formatter w = (Ok (), written w (dumps (VDict d)))).
Proof.
  intros Hf Hl Hp. split.
  - intros Hrej. exists (log (EvRead "atit.json") w). split; [|done].
    eapply data_formatter_reindex_Raise; [done..|]. by eapply reindex_rejected.
  - intros Hpf. eapply data_formatter_Ok; [done..|].
    eapply reindex_empty; [done|]. by right.
Qed.

Lemma portfolio_type_error_witness :
  let w := initial (js "{'portfolio': [{'a': 1}, 2]}") in
  (rejected_portfolio (VList [VDict [(py "a", VInt 1)]; VInt 2]) →
     ∃ w', data_formatter w = (Raise TypeError, w') ∧
           files w' = files w ∧
           stdout w' = stdout w ∧
           trace w' = trace w ++ [EvRead "atit.json"]) ∧
  (VList [VDict [(py "a", VInt 1)]; VInt 2] = VStr [] ∨
   VList [VDict [(py "a", VInt 1)]; VInt 2] = VDict [] →
     data_formatter w
     = (Ok (), written w (dumps (VDict [(py "portfolio",
                                          VList [VDict [(py "a", VInt 1)]; VInt 2])])))).
Proof.
  intros w.
  apply (portfolio_type_error w (js "{'portfolio': [{'a': 1}, 2]}")
           [(py "portfolio", VList [VDict [(py "a", VInt 1)]; VInt 2])]).
  - reflexivity.
  - vm_compute. reflexivity.
  - vm_compute. reflexivity.
Defined.

(** C6 as stated fails: the value of [portfolio] in [{"portfolio":{}}] is
    an object, not an array, and the script ends normally and rewrites
    the file. *)
Lemma empty_object_portfolio_accepted :
  let s := js "{'portfolio':{}}" in
  loads s = Ok (VDict [(py "portfolio", VDict [])]) ∧
  (data_formatter (initial s)).1 = Ok () ∧
  files (data_formatter (initial s)).2 !! "atit.json"
    = Some (js "{'portfolio': {}}") ∧
  js "{'portfolio': {}}" ≠ s.
Proof. vm_compute. by repeat split. Qed.

(** C8.  Whenever the script ends normally, the file holds the serialized
    document, standard output has received that same text followed by a
    line feed, and the file was emptied and written before the text was
    printed. *)
Theorem success_output (w w' : world) :
  data_formatter w = (Ok (), w') →
  ∃ s data data',
    files w !! "atit.json" = Some s ∧
    loads s = Ok data ∧
    reindex data = Ok data' ∧
    files w' !! "atit.json" = Some (dumps data') ∧
    stdout w' = stdout w ++ dumps data' ++ [10] ∧
    trace w' = trace w ++ [EvRead "atit.json"; EvTruncate "atit.json";
                           EvWrite "atit.json" (dumps data');
                           EvPrint (dumps data')].
Proof.
  intros Hrun.
  destruct (files w !! "atit.json") as [s|] eqn:Hf;
    [|by rewrite data_formatter_no_file in Hrun].
  destruct (loads s) as [data|e] eqn:Hl;
    [|by rewrite (data_formatter_loads_Raise _ _ _ Hf Hl) in Hrun].
  destruct (reindex data) as [data'|e] eqn:Hr;
    [|by rewrite (data_formatter_reindex_Raise _ _ _ _ Hf Hl Hr) in Hrun].
  rewrite (data_formatter_Ok _ _ _ _ Hf Hl Hr) in Hrun. injection Hrun as <-.
  exists s, data, data'. split_and!; try done.
  simpl. apply lookup_insert_eq.
Qed.

Lemma success_output_witness :
  ∃ s data data',
    files (initial (js "{'portfolio':[{}]}")) !! "atit.json" = Some s ∧
    loads s = Ok data ∧
    reindex data = Ok data' ∧
    files (written (initial (js "{'portfolio':[{}]}"))
                   (js "{'portfolio': [{'id': 0}]}")) !! "atit.json"
      = Some (dumps data') ∧
    stdout (written (initial (js "{'portfolio':[{}]}"))
                    (js "{'portfolio': [{'id': 0}]}"))
      = stdout (initial (js "{'portfolio':[{}]}")) ++ dumps data' ++ [10] ∧
    trace (written (initial (js "{'portfolio':[{}]}"))
                   (js "{'portfolio': [{'id': 0}]}"))
      = trace (initial (js "{'portfolio':[{}]}"))
        ++ [EvRead "atit.json"; EvTruncate "atit.json";
            EvWrite "atit.json" (dumps data'); EvPrint (dumps data')].
Proof.
  apply (success_output (initial (js "{'portfolio':[{}]}"))
           (written (initial (js "{'portfolio':[{}]}"))
                    (js "{'portfolio': [{'id': 0}]}"))).
  apply (data_formatter_Ok _ (js "{'portfolio':[{}]}")
           (VDict [(py "portfolio", VList [VDict []])])
           (VDict [(py "portfolio", VList [VDict [(py "id", VInt 0)]])])).
  - reflexivity.
  - vm_compute. reflexivity.
  - vm_compute. reflexivity.
Defined.



(* ===================================================================== *)
(** * The scanner reads forward and never runs out of fuel *)
(* ===================================================================== *)

Lemma skip_ws_length (s : str) : (length (skip_ws s) ≤ length s)%nat.
Proof. induction s as [|c s IH]; simpl; [done|]. destruct (is_ws c); simpl; lia. Qed.

Lemma span_digits_length (s ds r : str) :
  span_digits s = (ds, r) → (length r ≤ length s)%nat.
Proof.
  revert ds r. induction s as [|c s IH]; intros ds r; simpl.
  - intros [= <- <-]. done.
  - destruct (is_digit c).
    + destruct (span_digits s) as [ds' r'] eqn:Hs. intros [= <- <-].
      specialize (IH _ _ eq_refl). lia.
    + intros [= <- <-]. simpl. lia.
Qed.

Lemma strip_prefix_length (p s r : str) :
  strip_prefix p s = Some r → length s = (length p + length r)%nat.
Proof.
  revert s. induction p as [|a p IH]; intros [|b s]; simpl; try done.
  - by intros [= <-].
  - by intros [= <-].
  - destruct (a =? b); [|done]. intros ?%IH. lia.
Qed.

Lemma scanstring_shorter (s r rest : str) :
  scanstring s = Ok (r, rest) → (length rest < length s)%nat.
Proof.
  revert r rest. induction (well_founded_ltof _ (@length Z) s) as [s _ IH].
  unfold ltof in IH. intros r rest. destruct s as [|c s1]; simpl; [done|].
  repeat case_match; try done; subst;
    try (intros [= <- <-]; simpl; lia);
    intros ([r' rest'] & Hs & [= <- <-])%bind_Ok;
    (eapply IH in Hs; [|simpl; lia]); simpl in *; lia.
Qed.

Lemma number_sign_length (s : str) (neg : bool) (r : str) :
  number_sign s = (neg, r) → (length r ≤ length s)%nat.
Proof.
  destruct s as [|c s]; simpl; [by intros [= <- <-]|].
  destruct (c =? 45); intros [= <- <-]; simpl; lia.
Qed.

Lemma number_int_shorter (s ds r : str) :
  number_int s = Some (ds, r) → (length r < length s)%nat.
Proof.
  destruct s as [|c s]; simpl; [done|].
  destruct ((49 <=? c) && (c <=? 57)).
  - destruct (span_digits s) as [ds' r'] eqn:Hs. intros [= <- <-].
    apply span_digits_length in Hs. lia.
  - destruct (c =? 48); [|done]. intros [= <- <-]. lia.
Qed.

Lemma number_frac_length (s ds r : str) :
  number_frac s = (ds, r) → (length r ≤ length s)%nat.
Proof.
  destruct s as [|c [|d s]]; simpl; try by intros [= <- <-].
  destruct ((c =? 46) && is_digit d); [|by intros [= <- <-]].
  destruct (span_digits s) as [ds' r'] eqn:Hs. intros [= <- <-].
  apply span_digits_length in Hs. lia.
Qed.

Lemma exponent_sign_length (s : str) (neg : bool) (r : str) :
  exponent_sign s = (neg, r) → (length r ≤ length s)%nat.
Proof.
  destruct s as [|g [|c s]]; simpl; try by intros [= <- <-].
  destruct (g =? 45); [intros [= <- <-]; simpl; lia|].
  destruct (g =? 43); intros [= <- <-]; simpl; lia.
Qed.

Lemma number_exp_length (s : str) (e : option Z) (r : str) :
  number_exp s = (e, r) → (length r ≤ length s)%nat.
Proof.
  destruct s as [|c s]; simpl; [by intros [= <- <-]|].
  destruct ((c =? 101) || (c =? 69)); [|by intros [= <- <-]].
  destruct (exponent_sign s) as [eneg s''] eqn:Hsg.
  apply exponent_sign_length in Hsg.
  destruct (span_digits s'') as [[|d eds] r'] eqn:Hs; intros [= <- <-]; [done|].
  apply span_digits_length in Hs. simpl. lia.
Qed.

Lemma match_number_shorter (s : str) (v : value) (rest : str) :
  match_number s = Some (v, rest) → (length rest < length s)%nat.
Proof.
  unfold match_number.
  destruct (number_sign s) as [neg s1] eqn:H1.
  destruct (number_int s1) as [[ids s2]|] eqn:H2; simpl; [|done].
  destruct (number_frac s2) as [fds s3] eqn:H3.
  destruct (number_exp s3) as [exp s4] eqn:H4. intros [= <- <-].
  apply number_sign_length in H1. apply number_int_shorter in H2.
  apply number_frac_length in H3. apply number_exp_length in H4. lia.
Qed.

Ltac use_prefix H :=
  apply strip_prefix_length in H;
  match type of H with
  | _ = (length ?p + _)%nat =>
      let n := eval vm_compute in (length p) in
      change (length p) with n in H
  end.

Section scanner_facts.
Variable parse_constant : constant → result value.
Hypothesis parse_constant_fuel : ∀ c, parse_constant c ≠ Raise RecursionError.

Lemma scan_scalar_shorter (s : str) (v : value) (rest : str) :
  scan_scalar parse_constant s = Ok (v, rest) → (length rest < length s)%nat.
Proof.
  unfold scan_scalar.
  destruct (strip_prefix (py "null") s) eqn:E1;
    [intros [= <- <-]; use_prefix E1; lia|].
  destruct (strip_prefix (py "true") s) eqn:E2;
    [intros [= <- <-]; use_prefix E2; lia|].
  destruct (strip_prefix (py "false") s) eqn:E3;
    [intros [= <- <-]; use_prefix E3; lia|].
  destruct (strip_prefix (py "NaN") s) eqn:E4;
    [intros (? & _ & [= <- <-])%bind_Ok; use_prefix E4; lia|].
  destruct (strip_prefix (py "Infinity") s) eqn:E5;
    [intros (? & _ & [= <- <-])%bind_Ok; use_prefix E5; lia|].
  destruct (strip_prefix (py "-Infinity") s) eqn:E6;
    [intros (? & _ & [= <- <-])%bind_Ok; use_prefix E6; lia|].
  destruct (match_number s) as [[v' r']|] eqn:E7; [|done].
  intros [= <- <-]. by apply match_number_shorter in E7.
Qed.

Lemma scan_scalar_fuel (s : str) :
  scan_scalar parse_constant s ≠ Raise RecursionError.
Proof.
  unfold scan_scalar.
  destruct (strip_prefix (py "null") s); [done|].
  destruct (strip_prefix (py "true") s); [done|].
  destruct (strip_prefix (py "false") s); [done|].
  destruct (strip_prefix (py "NaN") s);
    [intros [H|(? & _ & [=])]%bind_Raise; by apply parse_constant_fuel in H|].
  destruct (strip_prefix (py "Infinity") s);
    [intros [H|(? & _ & [=])]%bind_Raise; by apply parse_constant_fuel in H|].
  destruct (strip_prefix (py "-Infinity") s);
    [intros [H|(? & _ & [=])]%bind_Raise; by apply parse_constant_fuel in H|].
  by destruct (match_number s) as [[v' r']|].
Qed.

Lemma scanstring_fuel (s : str) : scanstring s ≠ Raise RecursionError.
Proof.
  induction (well_founded_ltof _ (@length Z) s) as [s _ IH].
  unfold ltof in IH. destruct s as [|c s1]; simpl; [done|].
  repeat case_match; try done; subst;
    (intros [Hrec|([? ?] & _ & [=])]%bind_Raise; revert Hrec; apply IH; simpl; lia).
Qed.

(** With fuel for twice its length a text is scanned without running
    out of fuel, and what is left after a value is shorter.  The loops
    over the members of an object and the elements of an array are
    entered after their first character was seen. *)
Lemma scan_once_shorter (fuel : nat) :
  (∀ s, (2 * length s < fuel)%nat →
     scan_once parse_constant fuel s ≠ Raise RecursionError ∧
     ∀ v rest, scan_once parse_constant fuel s = Ok (v, rest) →
               (length rest < length s)%nat) ∧
  (∀ acc s, (2 * length s < fuel)%nat →
     parse_object parse_constant fuel acc s ≠ Raise RecursionError ∧
     ∀ v rest, parse_object parse_constant fuel acc s = Ok (v, rest) →
               (length rest < length s)%nat) ∧
  (∀ acc s, (2 * length s + 1 < fuel)%nat →
     parse_array parse_constant fuel acc s ≠ Raise RecursionError ∧
     ∀ v rest, parse_array parse_constant fuel acc s = Ok (v, rest) →
               (length rest < length s)%nat).
Proof.
  induction fuel as [|fuel (IHs & IHo & IHa)]; [split_and!; intros; lia|].
  split_and!.
  - intros [|c s1] Hlen; simpl; [done|].
    destruct (c =? 34).
    { split.
      - intros [H|([? ?] & _ & [=])]%bind_Raise. by apply scanstring_fuel in H.
      - intros v rest ([r rest'] & Hs%scanstring_shorter & [= <- <-])%bind_Ok. lia. }
    destruct (c =? 123).
    { pose proof (skip_ws_length s1) as Hws.
      destruct (skip_ws s1) as [|c' s2]; [done|]. simpl in *.
      destruct (c' =? 125); [split; [done|intros ?? [= <- <-]; lia]|].
      destruct (IHo [] (c' :: s2)) as [Hf Hsh]; [simpl in *; lia|].
      split; [done|]. intros v rest ?%Hsh. simpl in *. lia. }
    destruct (c =? 91).
    { pose proof (skip_ws_length s1) as Hws.
      destruct (skip_ws s1) as [|c' s2]; [done|]. simpl in *.
      destruct (c' =? 93); [split; [done|intros ?? [= <- <-]; lia]|].
      destruct (IHa [] (c' :: s2)) as [Hf Hsh]; [simpl in *; lia|].
      split; [done|]. intros v rest ?%Hsh. simpl in *. lia. }
    split; [apply scan_scalar_fuel|].
    intros v rest ?%scan_scalar_shorter. done.
  - intros acc [|c s1] Hlen; simpl; [done|].
    destruct (c =? 34); [|done].
    destruct (scanstring s1) as [[key s2]|e] eqn:Hkey; simpl;
      [|split; [intros [= ->]; by apply scanstring_fuel in Hkey|done]].
    apply scanstring_shorter in Hkey.
    pose proof (skip_ws_length s2) as Hws2.
    destruct (skip_ws s2) as [|c2 s3]; [done|]. simpl in *.
    destruct (c2 =? 58); [|done].
    pose proof (skip_ws_length s3) as Hws3.
    destruct (IHs (skip_ws s3)) as [Hf Hsh]; [lia|].
    destruct (scan_once parse_constant fuel (skip_ws s3)) as [[val s4]|e] eqn:Hval;
      simpl; [|split; [congruence|done]].
    specialize (Hsh _ _ eq_refl).
    pose proof (skip_ws_length s4) as Hws4.
    destruct (skip_ws s4) as [|c4 s5]; [done|]. simpl in *.
    destruct (c4 =? 125); [split; [done|intros ?? [= <- <-]; lia]|].
    destruct (c4 =? 44); [|done].
    pose proof (skip_ws_length s5) as Hws5.
    destruct (IHo (dict_set acc key val) (skip_ws s5)) as [Hf' Hsh']; [lia|].
    split; [done|]. intros v rest ?%Hsh'. lia.
  - intros acc s Hlen; simpl.
    destruct (IHs s) as [Hf Hsh]; [lia|].
    destruct (scan_once parse_constant fuel s) as [[val s1]|e] eqn:Hval;
      simpl; [|split; [congruence|done]].
    specialize (Hsh _ _ eq_refl).
    pose proof (skip_ws_length s1) as Hws1.
    destruct (skip_ws s1) as [|c s2]; [done|]. simpl in *.
    destruct (c =? 93); [split; [done|intros ?? [= <- <-]; lia]|].
    destruct (c =? 44); [|done].
    pose proof (skip_ws_length s2) as Hws2.
    destruct (IHa (val :: acc) (skip_ws s2)) as [Hf' Hsh']; [lia|].
    split; [done|]. intros v rest ?%Hsh'. lia.
Qed.

Lemma scanstring_Raise (s : str) (e : exn) :
  scanstring s = Raise e → e = JSONDecodeError.
Proof.
  revert e. induction (well_founded_ltof _ (@length Z) s) as [s _ IH].
  unfold ltof in IH. intros e. destruct s as [|c s1]; simpl; [by intros [= <-]|].
  repeat case_match; subst; try (by intros [= <-]);
    (intros [Hrec|([? ?] & _ & [=])]%bind_Raise; revert Hrec; apply IH; simpl; lia).
Qed.

Lemma scan_scalar_Raise (s : str) (e : exn) :
  scan_scalar parse_constant s = Raise e →
  e = JSONDecodeError ∨ ∃ c, parse_constant c = Raise e.
Proof.
  unfold scan_scalar.
  destruct (strip_prefix (py "null") s); [done|].
  destruct (strip_prefix (py "true") s); [done|].
  destruct (strip_prefix (py "false") s); [done|].
  destruct (strip_prefix (py "NaN") s);
    [intros [H|(? & _ & [=])]%bind_Raise; eauto|].
  destruct (strip_prefix (py "Infinity") s);
    [intros [H|(? & _ & [=])]%bind_Raise; eauto|].
  destruct (strip_prefix (py "-Infinity") s);
    [intros [H|(? & _ & [=])]%bind_Raise; eauto|].
  destruct (match_number s) as [[v' r']|]; [done|]. intros [= <-]. by left.
Qed.

(** The exceptions of the scanner: [JSONDecodeError], what the hook
    raises, and running out of fuel. *)
Lemma scan_once_Raise (fuel : nat) :
  (∀ s e, scan_once parse_constant fuel s = Raise e →
     e = JSONDecodeError ∨ e = RecursionError ∨ ∃ c, parse_constant c = Raise e) ∧
  (∀ acc s e, parse_object parse_constant fuel acc s = Raise e →
     e = JSONDecodeError ∨ e = RecursionError ∨ ∃ c, parse_constant c = Raise e) ∧
  (∀ acc s e, parse_array parse_constant fuel acc s = Raise e →
     e = JSONDecodeError ∨ e = RecursionError ∨ ∃ c, parse_constant c = Raise e).
Proof.
  induction fuel as [|fuel (IHs & IHo & IHa)];
    [split_and!; simpl; intros; simplify_eq; auto|].
  split_and!.
  - intros [|c s1] e; simpl; [intros [= <-]; auto|].
    destruct (c =? 34).
    { intros [H%scanstring_Raise|([? ?] & _ & [=])]%bind_Raise. auto. }
    destruct (c =? 123).
    { destruct (skip_ws s1) as [|c' s2]; [intros [= <-]; auto|].
      destruct (c' =? 125); [done|]. apply IHo. }
    destruct (c =? 91).
    { destruct (skip_ws s1) as [|c' s2]; [intros [= <-]; auto|].
      destruct (c' =? 93); [done|]. apply IHa. }
    intros [->|?]%scan_scalar_Raise; auto.
  - intros acc [|c s1] e; simpl; [intros [= <-]; auto|].
    destruct (c =? 34); [|intros [= <-]; auto].
    destruct (scanstring s1) as [[key s2]|e'] eqn:Hkey; simpl;
      [|intros [= <-]; apply scanstring_Raise in Hkey; auto].
    destruct (skip_ws s2) as [|c2 s3]; [intros [= <-]; auto|].
    destruct (c2 =? 58); [|intros [= <-]; auto].
    destruct (scan_once parse_constant fuel (skip_ws s3)) as [[val s4]|e'] eqn:Hval;
      simpl; [|intros [= <-]; by apply IHs in Hval].
    destruct (skip_ws s4) as [|c4 s5]; [intros [= <-]; auto|].
    destruct (c4 =? 125); [done|].
    destruct (c4 =? 44); [apply IHo|intros [= <-]; auto].
  - intros acc s e; simpl.
    destruct (scan_once parse_constant fuel s) as [[val s1]|e'] eqn:Hval;
      simpl; [|intros [= <-]; by apply IHs in Hval].
    destruct (skip_ws s1) as [|c s2]; [intros [= <-]; auto|].
    destruct (c =? 93); [done|].
    destruct (c =? 44); [apply IHa|intros [= <-]; auto].
Qed.

(** [decode] returns a value, raises [JSONDecodeError], or raises what the
    hook raised: the fuel it hands to the scanner is never used up. *)
Lemma decode_Raise (s : str) (e : exn) :
  decode parse_constant s = Raise e →
  e = JSONDecodeError ∨ ∃ c, parse_constant c = Raise e.
Proof.
  unfold decode. destruct (starts_with_bom s); [intros [= <-]; auto|].
  pose proof (skip_ws_length s) as Hws.
  destruct (proj1 (scan_once_shorter (S (2 * length s))) (skip_ws s)) as [Hf _];
    [lia|].
  destruct (scan_once parse_constant (S (2 * length s)) (skip_ws s))
    as [[obj rest]|e'] eqn:Hscan.
  - cbn [mbind result_bind]. destruct (skip_ws rest); [done|]. intros [= <-]. auto.
  - cbn [mbind result_bind]. intros [= <-].
    apply scan_once_Raise in Hscan as [?|[->|?]]; auto. done.
Qed.
End scanner_facts.

(** [json.loads] returns a value or raises [JSONDecodeError]. *)
Lemma loads_Raise (s : str) (e : exn) : loads s = Raise e → e = JSONDecodeError.
Proof.
  intros [?|[c Hc]]%decode_Raise; [done| |by intros []]. by destruct c.
Qed.







(* ===================================================================== *)
(** * Decimal digits *)
(* ===================================================================== *)

Lemma is_digit_spec (c : Z) : is_digit c = true ↔ 48 ≤ c ≤ 57.
Proof. unfold is_digit. rewrite andb_true_iff, !Z.leb_le. done. Qed.

Lemma digits_val_app (l1 l2 : str) :
  digits_val (l1 ++ l2) = digits_val l1 * 10 ^ Z.of_nat (length l2) + digits_val l2.
Proof.
  unfold digits_val. revert l1. induction l2 as [|c l2 IH] using rev_ind; intros l1.
  - rewrite app_nil_r. simpl. lia.
  - rewrite app_assoc, !foldl_snoc, IH, length_app. simpl.
    replace (Z.of_nat (length l2 + 1)) with (Z.of_nat (length l2) + 1) by lia.
    rewrite Z.pow_add_r by lia. lia.
Qed.

Lemma digits_val_cons (c : Z) (l : str) :
  digits_val (c :: l) = (c - 48) * 10 ^ Z.of_nat (length l) + digits_val l.
Proof.
  change (c :: l) with ([c] ++ l). rewrite digits_val_app.
  change (digits_val [c]) with (10 * 0 + (c - 48)). lia.
Qed.

Lemma digits_val_snoc (l : str) (c : Z) :
  digits_val (l ++ [c]) = 10 * digits_val l + (c - 48).
Proof.
  rewrite digits_val_app. change (digits_val [c]) with (10 * 0 + (c - 48)).
  change (Z.of_nat (length [c])) with 1. lia.
Qed.

Lemma digits_val_nonneg (l : str) : Forall (λ c, is_digit c = true) l → 0 ≤ digits_val l.
Proof.
  induction l as [|c l IH] using rev_ind; [done|].
  intros [Hl Hc%Forall_inv]%Forall_app. apply is_digit_spec in Hc.
  rewrite digits_val_snoc. specialize (IH Hl). lia.
Qed.

Lemma digits_val_replicate_0 (n : nat) : digits_val (replicate n 48) = 0.
Proof.
  induction n as [|n IH]; [done|].
  rewrite replicate_S, digits_val_cons, IH. lia.
Qed.

(** The digits of [n]: digit characters that denote [n], at least one,
    and the first is not [0] unless [n] is [0]. *)
Lemma digits_aux_spec (fuel : nat) : ∀ n acc,
  0 ≤ n < 2 ^ Z.of_nat fuel → fuel ≠ 0%nat →
  ∃ ds, digits_aux fuel n acc = ds ++ acc ∧
        Forall (λ c, is_digit c = true) ds ∧
        digits_val ds = n ∧
        (∃ d ds', ds = d :: ds' ∧ (0 < n → d ≠ 48)).
Proof.
  induction fuel as [|fuel IH]; intros n acc Hn Hfuel; [done|].
  - simpl. destruct (n <? 10) eqn:Hlt.
    + apply Z.ltb_lt in Hlt. exists [48 + n mod 10].
      rewrite Z.mod_small by lia. split_and!; [done| | |].
      * apply Forall_singleton, is_digit_spec. lia.
      * unfold digits_val. simpl. lia.
      * eexists _, _. split; [done|]. lia.
    + apply Z.ltb_ge in Hlt.
      destruct (IH (n / 10) ((48 + n mod 10) :: acc)) as (ds & Hds & Hall & Hval & d & ds' & -> & Hd).
      { split; [apply Z.div_pos; lia|]. apply Z.div_lt_upper_bound; [lia|].
        rewrite Nat2Z.inj_succ, Z.pow_succ_r in Hn by lia. lia. }
      { intros ->. simpl in Hn. lia. }
      exists ((d :: ds') ++ [48 + n mod 10]). split_and!.
      * by rewrite Hds, <- app_assoc.
      * apply Forall_app. split; [done|]. apply Forall_singleton, is_digit_spec.
        pose proof (Z.mod_pos_bound n 10). lia.
      * rewrite digits_val_snoc, Hval. pose proof (Z.div_mod n 10). lia.
      * eexists _, _. split; [done|]. intros _. apply Hd.
        apply Z.div_str_pos. lia.
Qed.

Lemma digits_of_spec (n : Z) :
  0 ≤ n →
  Forall (λ c, is_digit c = true) (digits_of n) ∧
  digits_val (digits_of n) = n ∧
  ∃ d ds', digits_of n = d :: ds' ∧ (0 < n → d ≠ 48).
Proof.
  intros Hn. unfold digits_of.
  destruct (digits_aux_spec (S (Z.to_nat (Z.log2 n))) n [])
    as (ds & Hds & Hall & Hval & Hhd).
  { split; [done|]. destruct (decide (n = 0)) as [->|]; [done|].
    rewrite Nat2Z.inj_succ, Z2Nat.id by apply Z.log2_nonneg.
    apply Z.log2_spec. lia. }
  { done. }
  rewrite Hds, app_nil_r. done.
Qed.

Lemma digits_of_digits (n : Z) : 0 ≤ n → Forall (λ c, is_digit c = true) (digits_of n).
Proof. intros. by apply digits_of_spec. Qed.

Lemma digits_val_of (n : Z) : 0 ≤ n → digits_val (digits_of n) = n.
Proof. intros. by apply digits_of_spec. Qed.

(** What follows a number in the output of the encoder: the end of the
    text, a comma, or a closing bracket or brace. *)
Lemma span_digits_app (ds rest : str) :
  Forall (λ c, is_digit c = true) ds →
  terminated rest →
  span_digits (ds ++ rest) = (ds, rest).
Proof.
  intros Hds Hrest. induction Hds as [|c ds Hc _ IH]; simpl.
  - destruct rest as [|c rest]; [done|]. simpl in *.
    destruct (is_digit c) eqn:Hc; [|done]. apply is_digit_spec in Hc.
    unfold is_delim in Hrest. lia.
  - by rewrite Hc, IH.
Qed.

(* ===================================================================== *)
(** * Rounding to binary64 *)
(* ===================================================================== *)

(** The rounding sees the value of the fraction only. *)
Lemma round_ratio_scale (c p q : Z) :
  0 < c → 0 < q → round_ratio (c * p) (c * q) = round_ratio p q.
Proof.
  intros Hc Hq. unfold round_ratio.
  replace (c * p * 2 ^ 1074) with (c * (p * 2 ^ 1074)) by lia.
  set (P := p * 2 ^ 1074).
  rewrite (Z.div_mul_cancel_l P q c) by lia.
  set (s := Z.max (Z.log2 (P / q) - 52) 0).
  assert (0 < 2 ^ s) as Hs by (apply Z.pow_pos_nonneg; lia).
  replace (c * q * 2 ^ s) with (c * (q * 2 ^ s)) by lia.
  set (b := q * 2 ^ s). assert (0 < b) as Hb by (unfold b; lia).
  rewrite (Z.div_mul_cancel_l P b c), (Z.mul_mod_distr_l P b c) by lia.
  replace (c * b <? 2 * (c * (P mod b))) with (b <? 2 * (P mod b)).
  2:{ apply eq_iff_eq_true. rewrite !Z.ltb_lt. nia. }
  replace (c * b =? 2 * (c * (P mod b))) with (b =? 2 * (P mod b)).
  2:{ apply eq_iff_eq_true. rewrite !Z.eqb_eq. nia. }
  done.
Qed.

(** A double is the rounding of its own value. *)
Lemma round_ratio_exact (p q m e : Z) :
  0 < q →
  canonical (FNum false m e) →
  p * 2 ^ 1074 = q * (m * 2 ^ (e + 1074)) →
  round_ratio p q = (m, e).
Proof.
  intros Hq Hcan HP. unfold round_ratio. cbv zeta. rewrite HP.
  assert (0 ≤ e + 1074 ∧ 0 < m) as [Hk Hm] by (simpl in Hcan; lia).
  set (k := e + 1074) in *.
  assert (0 < 2 ^ k) as H2k by (apply Z.pow_pos_nonneg; lia).
  replace (q * (m * 2 ^ k) / q) with (m * 2 ^ k)
    by (rewrite (Z.mul_comm q), Z.div_mul; lia).
  rewrite Z.log2_mul_pow2 by lia.
  assert (Z.max (k + Z.log2 m - 52) 0 = k) as ->.
  { destruct Hcan as [[Hn _]|[Hsub He]].
    - assert (Z.log2 m = 52) as ->
        by (apply Z.log2_unique; [lia|]; change (Z.succ 52) with 53; lia).
      lia.
    - assert (Z.log2 m < 52) by (apply Z.log2_lt_pow2; lia). lia. }
  replace (q * (m * 2 ^ k)) with (m * (q * 2 ^ k)) by lia.
  assert (0 < q * 2 ^ k) as Hb by lia.
  rewrite Z.div_mul, Z.mod_mul by lia.
  replace (q * 2 ^ k <? 2 * 0) with false by (symmetry; apply Z.ltb_ge; lia).
  replace (q * 2 ^ k =? 2 * 0) with false by (symmetry; apply Z.eqb_neq; lia).
  simpl orb. cbv iota.
  replace (m =? 2 ^ 53) with false.
  2:{ symmetry. apply Z.eqb_neq. simpl in Hcan. lia. }
  f_equal. lia.
Qed.

(** The rounding gives zero, a normal number or a subnormal number. *)
Lemma round_ratio_canonical (p q : Z) :
  0 ≤ p → 0 < q →
  ∃ m e, round_ratio p q = (m, e) ∧
         (m = 0 ∨ (2 ^ 52 ≤ m < 2 ^ 53 ∧ -1074 ≤ e) ∨ (0 < m < 2 ^ 52 ∧ e = -1074)).
Proof.
  intros Hp Hq. unfold round_ratio.
  set (P := p * 2 ^ 1074). assert (0 ≤ P) as HP.
  { unfold P. apply Z.mul_nonneg_nonneg; [done|]. apply Z.pow_nonneg. lia. }
  assert (0 ≤ P / q) as HQ by (apply Z.div_pos; lia).
  set (s := Z.max (Z.log2 (P / q) - 52) 0).
  assert (0 < 2 ^ s) as Hs by (apply Z.pow_pos_nonneg; lia).
  assert (P / (q * 2 ^ s) = P / q / 2 ^ s) as Hdiv by (rewrite Z.div_div; lia).
  set (b := q * 2 ^ s) in *. assert (0 < b) as Hb by (unfold b; lia).
  pose proof (Z.mod_pos_bound P b Hb) as Hr.
  assert (2 ^ 52 = 4503599627370496 ∧ 2 ^ 53 = 9007199254740992) as [E52 E53]
    by (split; reflexivity).
  assert ((s = 0 ∧ 0 ≤ P / b < 2 ^ 53) ∨ (0 < s ∧ 2 ^ 52 ≤ P / b < 2 ^ 53)) as Hm0.
  { destruct (decide (Z.log2 (P / q) - 52 ≤ 0)) as [Hle|Hgt].
    - left. assert (s = 0) as Hs0 by (unfold s; lia). split; [done|].
      rewrite Hdiv, Hs0, Z.pow_0_r, Z.div_1_r. split; [done|].
      destruct (decide (P / q = 0)) as [->|]; [lia|].
      apply Z.log2_lt_pow2; lia.
    - right. assert (s = Z.log2 (P / q) - 52) as Hs' by (unfold s; lia).
      split; [lia|]. rewrite Hdiv.
      assert (0 < P / q) as HQpos.
      { destruct (decide (P / q = 0)) as [Hz|]; [|lia].
        rewrite Hz in Hgt. simpl in Hgt. lia. }
      destruct (Z.log2_spec (P / q) HQpos) as [Hlo Hhi].
      replace (Z.log2 (P / q)) with (52 + s) in Hlo by lia.
      replace (Z.succ (Z.log2 (P / q))) with (53 + s) in Hhi by lia.
      rewrite Z.pow_add_r in Hlo, Hhi by lia. split.
      + apply Z.div_le_lower_bound; lia.
      + apply Z.div_lt_upper_bound; lia. }
  set (m0 := P / b) in *. set (r := P mod b) in *.
  set (m := if (b <? 2 * r) || (b =? 2 * r) && Z.odd m0 then m0 + 1 else m0).
  assert (m = m0 ∨ m = m0 + 1) as Hm by (unfold m; case_match; auto).
  destruct (m =? 2 ^ 53) eqn:Hmax.
  - eexists _, _. split; [done|]. right. left. lia.
  - apply Z.eqb_neq in Hmax. eexists _, _. split; [done|].
    destruct (decide (m = 0)); [by left|]. right.
    destruct Hm0 as [[-> Hb0]|[Hspos Hb0]].
    + destruct (decide (m < 2 ^ 52)); [right; lia|left; lia].
    + left. lia.
Qed.

(* ===================================================================== *)
(** * [float(numstr)] *)
(* ===================================================================== *)

Lemma pow10_pos (k : Z) : 0 ≤ k → 0 < 10 ^ k.
Proof. intros. apply Z.pow_pos_nonneg; lia. Qed.

(** Trailing zeros moved into the exponent do not change the double. *)
Lemma float_of_dec_scale (neg : bool) (d t j : Z) :
  0 ≤ j → float_of_dec neg (d * 10 ^ j) (t - j) = float_of_dec neg d t.
Proof.
  intros Hj. unfold float_of_dec.
  destruct (0 <=? t - j) eqn:H1; destruct (0 <=? t) eqn:H2;
    rewrite ?Z.leb_le, ?Z.leb_gt in H1, H2; try lia.
  - replace (d * 10 ^ j * 10 ^ (t - j)) with (d * 10 ^ t); [done|].
    replace t with (j + (t - j)) at 1 by lia. rewrite Z.pow_add_r by lia. lia.
  - rewrite <- (round_ratio_scale (10 ^ (j - t)) (d * 10 ^ t) 1)
      by (try apply pow10_pos; lia).
    replace (10 ^ (j - t) * (d * 10 ^ t)) with (d * 10 ^ j).
    2:{ replace j with ((j - t) + t) at 1 by lia. rewrite Z.pow_add_r by lia. lia. }
    replace (10 ^ (j - t) * 1) with (10 ^ (- (t - j))); [done|].
    rewrite Z.mul_1_r. f_equal. lia.
  - rewrite <- (round_ratio_scale (10 ^ j) d (10 ^ (- t)))
      by (apply pow10_pos; lia).
    replace (10 ^ j * d) with (d * 10 ^ j) by lia.
    replace (10 ^ j * 10 ^ (- t)) with (10 ^ (- (t - j))); [done|].
    rewrite <- Z.pow_add_r by lia. f_equal. lia.
Qed.

(** The sign goes through the rounding. *)
Lemma float_of_dec_sign (neg : bool) (d t m e : Z) :
  float_of_dec false d t = FNum false m e → float_of_dec neg d t = FNum neg m e.
Proof.
  unfold float_of_dec. destruct (if 0 <=? t then _ else _) as [p q].
  destruct (round_ratio p q) as [m' e'].
  destruct (m' =? 0); [done|]. destruct (971 <? e'); [done|]. by intros [= -> ->].
Qed.

(** The doubles [float(numstr)] returns are canonical. *)
Lemma float_of_dec_canonical (neg : bool) (d t : Z) :
  0 ≤ d → canonical (float_of_dec neg d t).
Proof.
  intros Hd. unfold float_of_dec.
  destruct (if 0 <=? t then _ else _) as [p q] eqn:Hpq.
  assert (0 ≤ p ∧ 0 < q) as [Hp Hq].
  { destruct (0 <=? t) eqn:Ht; injection Hpq as <- <-.
    - apply Z.leb_le in Ht. pose proof (pow10_pos t Ht). lia.
    - apply Z.leb_gt in Ht. pose proof (pow10_pos (- t)). lia. }
  destruct (round_ratio_canonical p q Hp Hq) as (m & e & -> & Hme).
  destruct (m =? 0) eqn:Hm0; [done|]. apply Z.eqb_neq in Hm0.
  destruct (971 <? e) eqn:He; [done|]. apply Z.ltb_ge in He.
  simpl. lia.
Qed.

(** The exact decimal expansion of a double reads back as the double. *)
Lemma float_of_dec_exact (neg : bool) (m e : Z) :
  canonical (FNum false m e) →
  float_of_dec neg (exact_decimal m e).1 (exact_decimal m e).2 = FNum neg m e.
Proof.
  intros Hcan. apply float_of_dec_sign.
  assert (0 < m ∧ -1074 ≤ e ≤ 971) as [Hm He] by (simpl in Hcan; lia).
  unfold exact_decimal, float_of_dec.
  destruct (0 <=? e) eqn:Hsgn; simpl fst; simpl snd.
  - apply Z.leb_le in Hsgn. change (0 <=? 0) with true. cbv iota.
    rewrite (round_ratio_exact _ 1 m e); [| lia | done |].
    + replace (m =? 0) with false by (symmetry; apply Z.eqb_neq; lia).
      by replace (971 <? e) with false by (symmetry; apply Z.ltb_ge; lia).
    + rewrite Z.pow_0_r, Z.pow_add_r by lia. lia.
  - rewrite Hsgn. apply Z.leb_gt in Hsgn.
    pose proof (pow10_pos (- e)).
    rewrite (round_ratio_exact _ (10 ^ (- e)) m e); [| lia | done |].
    + replace (m =? 0) with false by (symmetry; apply Z.eqb_neq; lia).
      by replace (971 <? e) with false by (symmetry; apply Z.ltb_ge; lia).
    + replace 10 with (5 * 2) at 1 by done. rewrite Z.pow_mul_l.
      replace 1074 with (- e + (e + 1074)) at 1 by lia.
      rewrite Z.pow_add_r by lia. lia.
Qed.

Lemma round_ratio_0 (q : Z) : 0 < q → round_ratio 0 q = (0, -1074).
Proof.
  intros Hq. unfold round_ratio. cbv zeta. rewrite Z.mul_0_l, Zdiv_0_l.
  change (Z.max (Z.log2 0 - 52) 0) with 0.
  rewrite Z.pow_0_r, Z.mul_1_r, Zdiv_0_l, Zmod_0_l.
  replace (q <? 2 * 0) with false by (symmetry; apply Z.ltb_ge; lia).
  by replace (q =? 2 * 0) with false by (symmetry; apply Z.eqb_neq; lia).
Qed.

Lemma float_of_dec_0 (neg : bool) (t : Z) : float_of_dec neg 0 t = FZero neg.
Proof.
  unfold float_of_dec. destruct (0 <=? t) eqn:Ht.
  - by rewrite Z.mul_0_l, round_ratio_0.
  - apply Z.leb_gt in Ht. by rewrite round_ratio_0 by (apply pow10_pos; lia).
Qed.

(** The decimal [shortest] finds is positive and rounds to the double. *)
Lemma shortest_rounds (m e : Z) (drop : nat) :
  canonical (FNum false m e) →
  let dt := shortest m e (exact_decimal m e).1 (exact_decimal m e).2 drop in
  0 < dt.1 ∧ float_of_dec false dt.1 dt.2 = FNum false m e.
Proof.
  intros Hcan. induction drop as [|drop IH]; cbn [shortest].
  - split; [|by apply float_of_dec_exact].
    assert (0 < m ∧ -1074 ≤ e ≤ 971) as [Hm He] by (simpl in Hcan; lia).
    unfold exact_decimal. destruct (0 <=? e) eqn:Hs; simpl;
      rewrite ?Z.leb_le, ?Z.leb_gt in Hs;
      apply Z.mul_pos_pos; try done; apply Z.pow_pos_nonneg; lia.
  - set (n := (exact_decimal m e).1) in *. set (t0 := (exact_decimal m e).2) in *.
    set (k := Z.of_nat (S drop)). set (cs := candidates n k).
    destruct (filter (λ d, rounds_to m e d (t0 + k)) cs) as [|d ds] eqn:Hf;
      [apply IH|]. simpl.
    assert (d ∈ filter (λ d, rounds_to m e d (t0 + k)) cs)
      as [Hr Hin]%list_elem_of_filter by (rewrite Hf; left).
    apply Is_true_true, bool_decide_eq_true in Hr. split; [|done].
    assert (0 ≤ d) as Hd0.
    { assert (0 ≤ n / 10 ^ k).
      { apply Z.div_pos; [|apply Z.pow_pos_nonneg; lia].
        unfold n, exact_decimal.
        assert (0 < m) by (simpl in Hcan; lia).
        destruct (0 <=? e); simpl; apply Z.mul_nonneg_nonneg; try lia;
          apply Z.pow_nonneg; lia. }
      unfold cs, candidates in Hin. revert Hin.
      repeat case_match; rewrite !elem_of_cons, elem_of_nil; lia. }
    destruct (decide (d = 0)) as [->|]; [|lia].
    by rewrite float_of_dec_0 in Hr.
Qed.

(* ===================================================================== *)
(** * [float.__repr__] read back by the scanner *)
(* ===================================================================== *)

Lemma strip_zeros_spec (l : str) : ∃ j, l = strip_zeros l ++ replicate j 48.
Proof.
  induction l as [|c l [j IH]]; [by exists 0%nat|]. simpl.
  destruct (strip_zeros l) as [|c' r] eqn:Hs.
  - simpl in IH. destruct (c =? 48) eqn:Hc.
    + apply Z.eqb_eq in Hc as ->. exists (S j). simpl. by rewrite IH.
    + exists j. simpl. by rewrite IH.
  - exists j. simpl. by rewrite IH at 1.
Qed.

Lemma strip_zeros_head (d : Z) (l : str) :
  d ≠ 48 → ∃ r, strip_zeros (d :: l) = d :: r.
Proof.
  intros Hd. simpl. destruct (strip_zeros l); [|by eexists].
  apply Z.eqb_neq in Hd as ->. by eexists.
Qed.

(** The digits [repr] prints: digit characters, the first not [0], that
    with the position of the decimal point denote a decimal rounding to
    the double. *)
Lemma repr_digits_spec (neg : bool) (m e : Z) :
  canonical (FNum false m e) →
  ∃ d1 ds',
    (repr_digits m e).1 = d1 :: ds' ∧ d1 ≠ 48 ∧
    Forall (λ c, is_digit c = true) (d1 :: ds') ∧
    float_of_dec neg (digits_val (d1 :: ds'))
      ((repr_digits m e).2 - Z.of_nat (length (d1 :: ds'))) = FNum neg m e.
Proof.
  intros Hcan. unfold repr_digits.
  destruct (exact_decimal m e) as [n t0] eqn:Hex.
  pose proof (shortest_rounds m e (length (digits_of n) - 1) Hcan) as Hsh.
  rewrite Hex in Hsh. simpl in Hsh.
  destruct (shortest m e n t0 (length (digits_of n) - 1)) as [d t].
  simpl in Hsh. destruct Hsh as [Hd Hrt]. simpl fst. simpl snd.
  destruct (digits_of_spec d) as (Hdig & Hval & d1 & ds0 & Hds & Hnz); [lia|].
  destruct (strip_zeros_spec (digits_of d)) as [j Hj].
  destruct (strip_zeros_head d1 ds0 (Hnz Hd)) as [r Hr].
  rewrite <- Hds in Hr. rewrite Hr in Hj. rewrite Hr.
  exists d1, r. split_and!; [done|by apply Hnz| |].
  - rewrite Hj in Hdig. by apply Forall_app in Hdig as [? _].
  - assert (length (digits_of d) = (length (d1 :: r) + j)%nat) as ->
      by (by rewrite Hj at 1; rewrite length_app, length_replicate).
    assert (d = digits_val (d1 :: r) * 10 ^ Z.of_nat j) as Hdv.
    { rewrite <- Hval, Hj, digits_val_app, digits_val_replicate_0, length_replicate.
      lia. }
    apply float_of_dec_sign.
    rewrite <- (float_of_dec_scale false _ _ (Z.of_nat j)) by lia.
    rewrite <- Hrt, <- Hdv. f_equal. lia.
Qed.

Lemma span_digits_stop (ds rest : str) :
  Forall (λ c, is_digit c = true) ds →
  (∀ c r, rest = c :: r → is_digit c = false) →
  span_digits (ds ++ rest) = (ds, rest).
Proof.
  intros Hds Hrest. induction Hds as [|c ds Hc _ IH]; simpl.
  - destruct rest as [|c rest]; [done|]. simpl. by rewrite (Hrest c rest).
  - by rewrite Hc, IH.
Qed.

Lemma terminated_stop (rest : str) :
  terminated rest → ∀ c r, rest = c :: r → is_digit c = false.
Proof.
  intros Ht c r ->. simpl in Ht. unfold is_delim in Ht.
  apply not_true_is_false. rewrite is_digit_spec. lia.
Qed.

Lemma number_sign_prefix (neg : bool) (c : Z) (s : str) :
  c ≠ 45 → number_sign (sign_prefix neg ++ c :: s) = (neg, c :: s).
Proof.
  intros Hc. destruct neg; simpl; [done|]. by apply Z.eqb_neq in Hc as ->.
Qed.

Lemma number_int_app (d1 : Z) (ds rest : str) :
  is_digit d1 = true → d1 ≠ 48 →
  Forall (λ c, is_digit c = true) ds →
  (∀ c r, rest = c :: r → is_digit c = false) →
  number_int (d1 :: ds ++ rest) = Some (d1 :: ds, rest).
Proof.
  intros Hd1%is_digit_spec Hnz Hds Hrest. simpl.
  replace ((49 <=? d1) && (d1 <=? 57)) with true.
  2:{ symmetry. apply andb_true_iff. rewrite !Z.leb_le. lia. }
  by rewrite span_digits_stop.
Qed.

Lemma number_frac_app (f1 : Z) (fds rest : str) :
  Forall (λ c, is_digit c = true) (f1 :: fds) →
  (∀ c r, rest = c :: r → is_digit c = false) →
  number_frac (46 :: f1 :: fds ++ rest) = (f1 :: fds, rest).
Proof.
  intros [Hf1 Hfds]%Forall_cons Hrest. simpl. rewrite Hf1. simpl.
  by rewrite span_digits_stop.
Qed.

Lemma number_frac_none (c : Z) (s : str) :
  c ≠ 46 → number_frac (c :: s) = ([], c :: s).
Proof.
  intros Hc. simpl. destruct s; [done|]. by apply Z.eqb_neq in Hc as ->.
Qed.

Lemma number_exp_none (rest : str) :
  terminated rest → number_exp rest = (None, rest).
Proof.
  destruct rest as [|c rest]; [done|]. simpl. unfold is_delim. intros Hc.
  replace ((c =? 101) || (c =? 69)) with false; [done|].
  symmetry. apply orb_false_iff. rewrite !Z.eqb_neq. lia.
Qed.

Lemma number_exp_app (x : Z) (rest : str) :
  terminated rest →
  number_exp (101 :: exponent x ++ rest) = (Some x, rest).
Proof.
  intros Hrest. unfold exponent.
  destruct (digits_of_spec (Z.abs x)) as (Hdig & Hval & d & ds' & Hds & _); [lia|].
  set (ds := if (length (digits_of (Z.abs x)) <? 2)%nat
             then 48 :: digits_of (Z.abs x) else digits_of (Z.abs x)).
  assert (Forall (λ c, is_digit c = true) ds ∧ digits_val ds = Z.abs x ∧
          ∃ c ds'', ds = c :: ds'') as (Hdig' & Hval' & c & ds'' & Hds').
  { unfold ds. destruct (_ <? _)%nat.
    - split_and!; [by constructor| |by eexists _, _].
      rewrite digits_val_cons, Hval. lia.
    - split_and!; [done..|]. rewrite Hds. by eexists _, _. }
  pose proof (terminated_stop rest Hrest) as Hstop.
  pose proof (span_digits_stop ds rest Hdig' Hstop) as Hspan.
  clearbody ds. subst ds.
  cbn [number_exp app]. change ((101 =? 101) || (101 =? 69)) with true. cbv iota.
  destruct (x <? 0) eqn:Hx.
  - cbn [exponent_sign app]. change (45 =? 45) with true. cbv iota.
    change (c :: ds'' ++ rest) with ((c :: ds'') ++ rest). rewrite Hspan, Hval'.
    apply Z.ltb_lt in Hx. do 2 f_equal. lia.
  - cbn [exponent_sign app].
    change (43 =? 45) with false. change (43 =? 43) with true. cbv iota.
    change (c :: ds'' ++ rest) with ((c :: ds'') ++ rest). rewrite Hspan, Hval'.
    apply Z.ltb_ge in Hx. do 2 f_equal. lia.
Qed.

Lemma match_number_parts (s : str) neg s1 ids s2 fds s3 exp rest :
  number_sign s = (neg, s1) →
  number_int s1 = Some (ids, s2) →
  number_frac s2 = (fds, s3) →
  number_exp s3 = (exp, rest) →
  match_number s = Some (number_value neg ids fds exp, rest).
Proof.
  intros H1 H2 H3 H4. unfold match_number. rewrite H1, H2. simpl.
  by rewrite H3, H4.
Qed.

Lemma digits_val_zeros_app (n : nat) (l : str) :
  digits_val (replicate n 48 ++ l) = digits_val l.
Proof. rewrite digits_val_app, digits_val_replicate_0. lia. Qed.

Lemma digit_not_minus (c : Z) : is_digit c = true → c ≠ 45.
Proof. intros ?%is_digit_spec. lia. Qed.

(** The scientific notation [d.ddde+XX] read back. *)
Lemma format_scientific (neg : bool) (d1 : Z) (ds' rest : str) (decpt : Z) :
  Forall (λ c, is_digit c = true) (d1 :: ds') →
  d1 ≠ 48 →
  terminated rest →
  match_number (sign_prefix neg
                ++ (d1 :: (match ds' with [] => [] | _ => 46 :: ds' end)
                    ++ 101 :: exponent (decpt - 1)) ++ rest)
  = Some (VFloat (float_of_dec neg (digits_val (d1 :: ds'))
                    (decpt - Z.of_nat (length (d1 :: ds')))), rest).
Proof.
  intros [Hd1 Hds']%Forall_cons Hnz Hrest.
  pose proof (number_exp_app (decpt - 1) rest Hrest) as Hexp.
  destruct ds' as [|f1 fds].
  - rewrite (match_number_parts _ neg (d1 :: 101 :: exponent (decpt - 1) ++ rest)
               [d1] (101 :: exponent (decpt - 1) ++ rest)
               [] (101 :: exponent (decpt - 1) ++ rest) (Some (decpt - 1)) rest).
    + unfold number_value. simpl. do 4 f_equal. lia.
    + simpl. rewrite <- ?app_assoc. simpl.
      by apply number_sign_prefix, digit_not_minus.
    + apply (number_int_app d1 [] (101 :: exponent (decpt - 1) ++ rest)); try done.
      by intros c r [= <- _].
    + by apply number_frac_none.
    + done.
  - rewrite (match_number_parts _ neg
               (d1 :: 46 :: f1 :: fds ++ 101 :: exponent (decpt - 1) ++ rest)
               [d1] (46 :: f1 :: fds ++ 101 :: exponent (decpt - 1) ++ rest)
               (f1 :: fds) (101 :: exponent (decpt - 1) ++ rest)
               (Some (decpt - 1)) rest).
    + unfold number_value. simpl. do 4 f_equal. lia.
    + simpl. rewrite <- ?app_assoc. simpl.
      by apply number_sign_prefix, digit_not_minus.
    + apply (number_int_app d1 []
               (46 :: f1 :: fds ++ 101 :: exponent (decpt - 1) ++ rest)); try done.
      by intros c r [= <- _].
    + apply (number_frac_app f1 fds (101 :: exponent (decpt - 1) ++ rest)); [done|].
      by intros c r [= <- _].
    + done.
Qed.

(** The fixed notation [0.000ddd] read back. *)
Lemma format_small (neg : bool) (d1 : Z) (ds' rest : str) (z : nat) :
  Forall (λ c, is_digit c = true) (d1 :: ds') →
  terminated rest →
  match_number (sign_prefix neg
                ++ ([48; 46] ++ replicate z 48 ++ d1 :: ds') ++ rest)
  = Some (VFloat (float_of_dec neg (digits_val (d1 :: ds'))
                    (- Z.of_nat z - Z.of_nat (length (d1 :: ds')))), rest).
Proof.
  intros Hds Hrest.
  assert (Forall (λ c, is_digit c = true) (replicate z 48 ++ d1 :: ds')) as HF.
  { apply Forall_app. split; [|done]. by apply Forall_replicate. }
  assert (length (replicate z 48 ++ d1 :: ds') = (z + length (d1 :: ds'))%nat) as HL
    by (by rewrite length_app, length_replicate).
  pose proof (digits_val_zeros_app z (d1 :: ds')) as HV.
  destruct (replicate z 48 ++ d1 :: ds') as [|f1 fds] eqn:HFeq.
  { by destruct z. }
  rewrite (match_number_parts _ neg (48 :: 46 :: f1 :: fds ++ rest)
             [48] (46 :: f1 :: fds ++ rest) (f1 :: fds) rest None rest).
  - unfold number_value. rewrite HL.
    change ([48] ++ f1 :: fds) with (48 :: f1 :: fds).
    rewrite digits_val_cons, HV, Z.sub_diag, Z.mul_0_l, Z.add_0_l, Nat2Z.inj_add.
    simpl default.
    by replace (0 - (Z.of_nat z + Z.of_nat (length (d1 :: ds'))))
      with (- Z.of_nat z - Z.of_nat (length (d1 :: ds'))) by lia.
  - simpl. by apply number_sign_prefix.
  - done.
  - apply number_frac_app; [done|]. by apply terminated_stop.
  - by apply number_exp_none.
Qed.

(** The fixed notation [ddd.ddd] read back. *)
Lemma format_split (neg : bool) (d1 : Z) (ds' rest : str) (k : nat) :
  Forall (λ c, is_digit c = true) (d1 :: ds') →
  d1 ≠ 48 →
  terminated rest →
  (0 < k < length (d1 :: ds'))%nat →
  match_number (sign_prefix neg
                ++ (take k (d1 :: ds') ++ 46 :: drop k (d1 :: ds')) ++ rest)
  = Some (VFloat (float_of_dec neg (digits_val (d1 :: ds'))
                    (Z.of_nat k - Z.of_nat (length (d1 :: ds')))), rest).
Proof.
  intros Hds Hnz Hrest Hk.
  pose proof (take_drop k (d1 :: ds')) as Htd.
  pose proof (length_drop (d1 :: ds') k) as Hld.
  assert (Forall (λ c, is_digit c = true) (take k (d1 :: ds')) ∧
          Forall (λ c, is_digit c = true) (drop k (d1 :: ds'))) as [Ht Hd]
    by (by rewrite <- Forall_app, Htd).
  destruct k as [|k]; [lia|]. rewrite firstn_cons in *.
  destruct (drop (S k) (d1 :: ds')) as [|f1 fds] eqn:Hdrop; [simpl in *; lia|].
  apply Forall_cons in Ht as [Hd1 Ht].
  rewrite (match_number_parts _ neg
             (d1 :: take k ds' ++ 46 :: f1 :: fds ++ rest)
             (d1 :: take k ds') (46 :: f1 :: fds ++ rest) (f1 :: fds) rest None rest).
  - unfold number_value. rewrite Htd. simpl default.
    replace (0 - Z.of_nat (length (f1 :: fds)))
      with (Z.of_nat (S k) - Z.of_nat (length (d1 :: ds'))); [done|].
    rewrite Hld. lia.
  - simpl. rewrite <- app_assoc. simpl.
    by apply number_sign_prefix, digit_not_minus.
  - apply (number_int_app d1 (take k ds') (46 :: f1 :: fds ++ rest)); try done.
    by intros c r [= <- _].
  - apply number_frac_app; [done|]. by apply terminated_stop.
  - by apply number_exp_none.
Qed.

(** The fixed notation [ddd000.0] read back. *)
Lemma format_integral (neg : bool) (d1 : Z) (ds' rest : str) (z : nat) :
  Forall (λ c, is_digit c = true) (d1 :: ds') →
  d1 ≠ 48 →
  terminated rest →
  match_number (sign_prefix neg
                ++ ((d1 :: ds') ++ replicate z 48 ++ [46; 48]) ++ rest)
  = Some (VFloat (float_of_dec neg (digits_val (d1 :: ds')) (Z.of_nat z)), rest).
Proof.
  intros Hds Hnz Hrest.
  apply Forall_cons in Hds as [Hd1 Hds].
  rewrite (match_number_parts _ neg
             (d1 :: (ds' ++ replicate z 48) ++ 46 :: 48 :: rest)
             (d1 :: ds' ++ replicate z 48) (46 :: 48 :: rest) [48] rest None rest).
  - unfold number_value. simpl default.
    rewrite <- (float_of_dec_scale neg (digits_val (d1 :: ds')) (Z.of_nat z)
                  (Z.of_nat z + 1)) by lia.
    replace (digits_val ((d1 :: ds' ++ replicate z 48) ++ [48]))
      with (digits_val (d1 :: ds') * 10 ^ (Z.of_nat z + 1)).
    2:{ change (d1 :: ds' ++ replicate z 48) with ((d1 :: ds') ++ replicate z 48).
        rewrite !digits_val_app, digits_val_replicate_0, length_replicate.
        change (digits_val [48]) with 0. change (Z.of_nat (length [48])) with 1.
        rewrite Z.pow_add_r by lia. lia. }
    by replace (0 - Z.of_nat (length [48])) with (Z.of_nat z - (Z.of_nat z + 1))
      by (simpl; lia).
  - simpl. rewrite <- !app_assoc. simpl.
    by apply number_sign_prefix, digit_not_minus.
  - apply (number_int_app d1 (ds' ++ replicate z 48) (46 :: 48 :: rest)); try done.
    + apply Forall_app. split; [done|]. by apply Forall_replicate.
    + by intros c r [= <- _].
  - apply (number_frac_app 48 [] rest); [by repeat constructor|].
    by apply terminated_stop.
  - by apply number_exp_none.
Qed.

(** What [format_float_short] writes for the digits of a decimal is read
    back as the double nearest to that decimal. *)
Lemma match_number_format (neg : bool) (d1 : Z) (ds' rest : str) (decpt : Z) :
  Forall (λ c, is_digit c = true) (d1 :: ds') →
  d1 ≠ 48 →
  terminated rest →
  match_number (sign_prefix neg ++ format_float_short (d1 :: ds') decpt ++ rest)
  = Some (VFloat (float_of_dec neg (digits_val (d1 :: ds'))
                    (decpt - Z.of_nat (length (d1 :: ds')))), rest).
Proof.
  intros Hds Hnz Hrest. unfold format_float_short.
  destruct ((decpt <=? -4) || (16 <? decpt)); [by apply format_scientific|].
  destruct (decpt <=? 0) eqn:H0.
  { apply Z.leb_le in H0. rewrite format_small by done.
    by replace (- Z.of_nat (Z.to_nat (- decpt)) - Z.of_nat (length (d1 :: ds')))
      with (decpt - Z.of_nat (length (d1 :: ds'))) by lia. }
  apply Z.leb_gt in H0.
  destruct (decpt <? Z.of_nat (length (d1 :: ds'))) eqn:H1.
  { apply Z.ltb_lt in H1. rewrite format_split by (try done; lia).
    by replace (Z.of_nat (Z.to_nat decpt)) with decpt by lia. }
  apply Z.ltb_ge in H1. rewrite format_integral by done.
  by replace (Z.of_nat (Z.to_nat decpt - length (d1 :: ds')))
    with (decpt - Z.of_nat (length (d1 :: ds'))) by lia.
Qed.

(* ===================================================================== *)
(** * Numbers written by the encoder and read by the scanner *)
(* ===================================================================== *)

Lemma format_float_short_head (d1 : Z) (ds' : str) (decpt : Z) :
  is_digit d1 = true →
  ∃ c s, format_float_short (d1 :: ds') decpt = c :: s ∧ is_digit c = true.
Proof.
  intros Hd1. unfold format_float_short.
  destruct ((decpt <=? -4) || (16 <? decpt)); [by eexists _, _|].
  destruct (decpt <=? 0) eqn:H0; [by eexists _, _|]. apply Z.leb_gt in H0.
  destruct (decpt <? Z.of_nat (length (d1 :: ds'))); [|by eexists _, _].
  destruct (Z.to_nat decpt) as [|k] eqn:Hk; [lia|]. by eexists _, _.
Qed.

Lemma number_start_sign (neg : bool) (c : Z) (s : str) :
  is_digit c = true → number_start (sign_prefix neg ++ c :: s).
Proof. intros Hc. destruct neg; simpl; auto. Qed.

Lemma int_repr_start (n : Z) (rest : str) : number_start (int_repr n ++ rest).
Proof.
  unfold int_repr. destruct (n <? 0) eqn:Hn.
  - apply Z.ltb_lt in Hn.
    destruct (digits_of_spec (- n)) as (Hdig & _ & d & ds' & Hds & _); [lia|].
    rewrite Hds in *. apply Forall_cons in Hdig as [Hd _]. simpl. auto.
  - apply Z.ltb_ge in Hn.
    destruct (digits_of_spec n) as (Hdig & _ & d & ds' & Hds & _); [lia|].
    rewrite Hds in *. apply Forall_cons in Hdig as [Hd _]. simpl. auto.
Qed.

(** [int.__repr__] read back. *)
Lemma match_number_int (n : Z) (rest : str) :
  terminated rest → match_number (int_repr n ++ rest) = Some (VInt n, rest).
Proof.
  intros Hrest. pose proof (terminated_stop rest Hrest) as Hstop.
  assert (∀ m, 0 ≤ m →
            number_int (digits_of m ++ rest) = Some (digits_of m, rest) ∧
            digits_val (digits_of m) = m ∧
            ∃ d ds', digits_of m = d :: ds' ∧ is_digit d = true) as Hint.
  { intros m Hm. destruct (digits_of_spec m Hm) as (Hdig & Hval & d & ds' & Hds & Hnz).
    split_and!; [|done|]; rewrite Hds in *; apply Forall_cons in Hdig as [Hd Hdig];
      [|by eexists _, _].
    destruct (decide (m = 0)) as [->|Hm0].
    - vm_compute in Hds. injection Hds as <- <-. done.
    - apply number_int_app; try done. apply Hnz. lia. }
  unfold int_repr. destruct (n <? 0) eqn:Hn.
  - apply Z.ltb_lt in Hn. destruct (Hint (- n)) as (Hi & Hv & d & ds' & Hds & Hd); [lia|].
    rewrite (match_number_parts _ true (digits_of (- n) ++ rest) (digits_of (- n))
               rest [] rest None rest); try done.
    + unfold number_value. rewrite Hv. do 3 f_equal. lia.
    + destruct rest; [done|]. apply number_frac_none.
      simpl in Hrest. unfold is_delim in Hrest. lia.
    + by apply number_exp_none.
  - apply Z.ltb_ge in Hn. destruct (Hint n) as (Hi & Hv & d & ds' & Hds & Hd); [lia|].
    rewrite (match_number_parts _ false (digits_of n ++ rest) (digits_of n)
               rest [] rest None rest); try done.
    + unfold number_value. by rewrite Hv.
    + rewrite Hds. simpl. apply digit_not_minus in Hd.
      by apply Z.eqb_neq in Hd as ->.
    + destruct rest; [done|]. apply number_frac_none.
      simpl in Hrest. unfold is_delim in Hrest. lia.
    + by apply number_exp_none.
Qed.

(** [float.__repr__] of a finite double starts like a number. *)
Lemma float_repr_start (x : float) (rest : str) :
  canonical x →
  match x with FNum _ _ _ | FZero _ => True | _ => False end →
  number_start (float_repr x ++ rest).
Proof.
  intros Hcan Hfin. destruct x as [| |neg|neg m e]; try done.
  - destruct neg; simpl; auto.
  - unfold float_repr.
    destruct (repr_digits_spec neg m e Hcan) as (d1 & ds' & Hds & Hnz & Hdig & Hrt).
    destruct (repr_digits m e) as [ds decpt]. cbn [fst snd] in Hds, Hrt. subst ds.
    rewrite <- app_assoc.
    destruct (format_float_short_head d1 ds' decpt) as (c & s & -> & Hc).
    { by apply Forall_cons in Hdig as [? _]. }
    by apply number_start_sign.
Qed.

(** [float.__repr__] of a finite double read back. *)
Lemma match_number_float (x : float) (rest : str) :
  canonical x →
  match x with FNum _ _ _ | FZero _ => True | _ => False end →
  terminated rest →
  match_number (float_repr x ++ rest) = Some (VFloat x, rest).
Proof.
  intros Hcan Hfin Hrest. destruct x as [| |neg|neg m e]; try done.
  - unfold float_repr. rewrite <- app_assoc.
    rewrite (match_number_parts _ neg (48 :: 46 :: 48 :: rest) [48]
               (46 :: 48 :: rest) [48] rest None rest).
    + unfold number_value. change (digits_val ([48] ++ [48])) with 0.
      by rewrite float_of_dec_0.
    + by apply number_sign_prefix.
    + done.
    + apply (number_frac_app 48 [] rest); [by repeat constructor|].
      by apply terminated_stop.
    + by apply number_exp_none.
  - unfold float_repr.
    destruct (repr_digits_spec neg m e Hcan) as (d1 & ds' & Hds & Hnz & Hdig & Hrt).
    destruct (repr_digits m e) as [ds decpt]. cbn [fst snd] in Hds, Hrt. subst ds.
    rewrite <- app_assoc. by rewrite match_number_format, Hrt.
Qed.

(** A number is not one of the words the scanner tries first. *)
Lemma scan_scalar_number (pc : constant → result value) (s : str) (r : value * str) :
  number_start s → match_number s = Some r → scan_scalar pc s = Ok r.
Proof.
  intros Hs Hm. unfold scan_scalar. rewrite Hm.
  destruct s as [|c s']; [done|]. simpl in Hs.
  assert (c ≠ 110 ∧ c ≠ 116 ∧ c ≠ 102 ∧ c ≠ 78 ∧ c ≠ 73) as (?&?&?&?&?)
    by (destruct Hs as [?%is_digit_spec|[-> _]]; lia).
  change (py "null") with [110; 117; 108; 108].
  change (py "true") with [116; 114; 117; 101].
  change (py "false") with [102; 97; 108; 115; 101].
  change (py "NaN") with [78; 97; 78].
  change (py "Infinity") with [73; 110; 102; 105; 110; 105; 116; 121].
  change (py "-Infinity") with [45; 73; 110; 102; 105; 110; 105; 116; 121].
  cbn [strip_prefix].
  replace (110 =? c) with false by (symmetry; apply Z.eqb_neq; lia).
  replace (116 =? c) with false by (symmetry; apply Z.eqb_neq; lia).
  replace (102 =? c) with false by (symmetry; apply Z.eqb_neq; lia).
  replace (78 =? c) with false by (symmetry; apply Z.eqb_neq; lia).
  replace (73 =? c) with false by (symmetry; apply Z.eqb_neq; lia).
  destruct (45 =? c) eqn:H45; [|done]. apply Z.eqb_eq in H45 as <-.
  destruct Hs as [?|[_ Hs]]; [done|]. destruct s' as [|c' s']; [done|].
  apply is_digit_spec in Hs.
  by replace (73 =? c') with false by (symmetry; apply Z.eqb_neq; lia).
Qed.

(* ===================================================================== *)
(** * Escapes: bits and hexadecimal digits *)
(* ===================================================================== *)

(** Bits set below a shifted number add up. *)
Lemma lor_add_pow2 (h b k : Z) :
  0 ≤ k → 0 ≤ b < 2 ^ k → Z.lor (h * 2 ^ k) b = h * 2 ^ k + b.
Proof.
  intros Hk Hb.
  assert (Z.land (h * 2 ^ k) b = 0) as Hland.
  { apply Z.bits_inj'. intros i Hi. rewrite Z.land_spec, Z.bits_0.
    destruct (Z.lt_ge_cases i k) as [Hlt|Hge].
    - by rewrite Z.mul_pow2_bits_low.
    - destruct (decide (b = 0)) as [->|]; [by rewrite Z.bits_0, andb_false_r|].
      rewrite (Z.bits_above_log2 b i), andb_false_r; [done|lia|].
      assert (Z.log2 b < k) by (apply Z.log2_lt_pow2; lia). lia. }
  by rewrite Z.add_nocarry_lxor, Z.lxor_lor.
Qed.

Lemma land_low (c : Z) (k : Z) (n : Z) :
  0 ≤ k → n = 2 ^ k - 1 → Z.land c n = c mod 2 ^ k.
Proof.
  intros Hk ->. rewrite <- Z.land_ones by done. f_equal.
  rewrite Z.ones_equiv. lia.
Qed.

Lemma hexval_hexdigit (n : Z) : 0 ≤ n < 16 → hexval (hexdigit n) = Some n.
Proof.
  intros Hn.
  assert (n = 0 ∨ n = 1 ∨ n = 2 ∨ n = 3 ∨ n = 4 ∨ n = 5 ∨ n = 6 ∨ n = 7 ∨
          n = 8 ∨ n = 9 ∨ n = 10 ∨ n = 11 ∨ n = 12 ∨ n = 13 ∨ n = 14 ∨ n = 15)
    as Hcases by lia.
  repeat (destruct Hcases as [->|Hcases]; [reflexivity|]). by subst.
Qed.

(** The four digits of an escape are read back as its code unit. *)
Lemma hex4_u_escape (c : Z) :
  0 ≤ c < 0x10000 →
  hex4 (hexdigit (Z.land (Z.shiftr c 12) 0xf)) (hexdigit (Z.land (Z.shiftr c 8) 0xf))
       (hexdigit (Z.land (Z.shiftr c 4) 0xf)) (hexdigit (Z.land c 0xf)) = Some c.
Proof.
  intros Hc. rewrite !(land_low _ 4 0xf), !Z.shiftr_div_pow2 by done.
  change (2 ^ 12) with 4096. change (2 ^ 8) with 256. change (2 ^ 4) with 16.
  replace (c / 4096) with (c / 16 / 16 / 16) by (by rewrite !Z.div_div by lia).
  replace (c / 256) with (c / 16 / 16) by (by rewrite !Z.div_div by lia).
  unfold hex4. cbn [foldl].
  rewrite !hexval_hexdigit by (apply Z.mod_pos_bound; lia).
  cbn [mbind option_bind]. rewrite !Z.shiftl_mul_pow2 by done.
  change (2 ^ 4) with 16. f_equal.
  rewrite Z.mul_0_l, Z.lor_0_l.
  rewrite (lor_add_pow2 _ _ 4) by (try apply Z.mod_pos_bound; lia).
  rewrite (lor_add_pow2 _ _ 4) by (try apply Z.mod_pos_bound; lia).
  rewrite (lor_add_pow2 _ _ 4) by (try apply Z.mod_pos_bound; lia).
  change (2 ^ 4) with 16.
  pose proof (Z.div_mod c 16). pose proof (Z.mod_pos_bound c 16).
  pose proof (Z.div_mod (c / 16) 16). pose proof (Z.mod_pos_bound (c / 16) 16).
  pose proof (Z.div_mod (c / 16 / 16) 16).
  pose proof (Z.mod_pos_bound (c / 16 / 16) 16).
  pose proof (Z.div_mod (c / 16 / 16 / 16) 16).
  pose proof (Z.mod_pos_bound (c / 16 / 16 / 16) 16).
  lia.
Qed.

(** The two code units written for a character beyond the basic plane:
    a high and a low surrogate that join into the character. *)
Lemma surrogate_pair (c : Z) :
  0x10000 ≤ c < 0x110000 →
  let hi := Z.lor 0xd800 (Z.land (Z.shiftr (c - 0x10000) 10) 0x3ff) in
  let lo := Z.lor 0xdc00 (Z.land (c - 0x10000) 0x3ff) in
  0xD800 ≤ hi ≤ 0xDBFF ∧ 0xDC00 ≤ lo ≤ 0xDFFF ∧ join_surrogates hi lo = c.
Proof.
  intros Hc. cbv zeta. set (v := c - 0x10000).
  rewrite !(land_low _ 10 0x3ff), Z.shiftr_div_pow2 by done.
  change (2 ^ 10) with 1024.
  change 0xd800 with (54 * 2 ^ 10). change 0xdc00 with (55 * 2 ^ 10).
  rewrite !(lor_add_pow2 _ _ 10) by (try apply Z.mod_pos_bound; lia).
  unfold join_surrogates.
  rewrite !(land_low _ 10 0x3ff), Z.shiftl_mul_pow2 by done.
  rewrite (lor_add_pow2 _ _ 10) by (try apply Z.mod_pos_bound; lia).
  change (2 ^ 10) with 1024.
  rewrite !(Z.add_comm (_ * 1024) (_ mod 1024)), !Z_mod_plus_full, !Z.mod_mod by done.
  pose proof (Z.div_mod v 1024). pose proof (Z.mod_pos_bound v 1024).
  pose proof (Z.div_mod (v / 1024) 1024).
  pose proof (Z.mod_pos_bound (v / 1024) 1024).
  unfold v in *. lia.
Qed.

(* ===================================================================== *)
(** * Strings written by the encoder and read by the scanner *)
(* ===================================================================== *)

(** A single escape, not joined with what follows. *)
Lemma scanstring_escape (h1 h2 h3 h4 u : Z) (s : str) :
  hex4 h1 h2 h3 h4 = Some u →
  (is_high_surrogate u = true → no_low_escape s) →
  scanstring (92 :: 117 :: h1 :: h2 :: h3 :: h4 :: s)
  = '(r, rest) ← scanstring s; Ok (u :: r, rest).
Proof.
  intros Hhex Hno. cbn [scanstring].
  change (92 =? 34) with false. change (92 =? 92) with true.
  change (117 =? 117) with true. cbv iota. rewrite Hhex.
  destruct s as [|b [|u' [|l1 [|l2 [|l3 [|l4 [|c s']]]]]]]; try done.
  destruct (is_high_surrogate u) eqn:Hhigh; [|done].
  destruct (b =? 92) eqn:Hb; [|done]. destruct (u' =? 117) eqn:Hu'; [|done].
  apply Z.eqb_eq in Hb as ->. apply Z.eqb_eq in Hu' as ->.
  destruct (Hno eq_refl _ _ _ _ _ _ eq_refl) as (u2 & -> & ->). done.
Qed.

(** A pair of escapes joined into one character. *)
Lemma scanstring_pair (h1 h2 h3 h4 l1 l2 l3 l4 hi lo c : Z) (s : str) :
  hex4 h1 h2 h3 h4 = Some hi → is_high_surrogate hi = true →
  hex4 l1 l2 l3 l4 = Some lo → is_low_surrogate lo = true →
  scanstring (92 :: 117 :: h1 :: h2 :: h3 :: h4
              :: 92 :: 117 :: l1 :: l2 :: l3 :: l4 :: c :: s)
  = '(r, rest) ← scanstring (c :: s); Ok (join_surrogates hi lo :: r, rest).
Proof.
  intros Hhi Hhigh Hlo Hlow. cbn [scanstring].
  change (92 =? 34) with false. change (92 =? 92) with true.
  change (117 =? 117) with true. cbv iota.
  rewrite Hhi, Hhigh, Hlo, Hlow. done.
Qed.

(** A one-letter escape. *)
Lemma scanstring_short (e ch : Z) (s : str) :
  e ≠ 117 → unescape e = Some ch →
  scanstring (92 :: e :: s) = '(r, rest) ← scanstring s; Ok (ch :: r, rest).
Proof.
  intros He Hun. cbn [scanstring].
  change (92 =? 34) with false. change (92 =? 92) with true. cbv iota.
  apply Z.eqb_neq in He as ->. by rewrite Hun.
Qed.

Lemma u_escape_hex (c : Z) :
  0 ≤ c < 0x10000 →
  ∃ h1 h2 h3 h4, u_escape c = [92; 117; h1; h2; h3; h4] ∧ hex4 h1 h2 h3 h4 = Some c.
Proof. intros Hc. eexists _, _, _, _. split; [done|]. by apply hex4_u_escape. Qed.

(** What the encoder writes for a character that is no low surrogate does
    not look like the escape of one. *)
Lemma encode_char_no_low (c : Z) (s : str) :
  0 ≤ c < 0x110000 → is_low_surrogate c = false →
  no_low_escape (encode_char c ++ s).
Proof.
  intros Hc Hlow l1 l2 l3 l4 c' s'. unfold encode_char.
  destruct (S_CHAR c) eqn:HS.
  { intros [= -> _]. by vm_compute in HS. }
  unfold ascii_escape_unichar.
  repeat (case_match; [by intros [= _ ?]|]).
  destruct (0x10000 <=? c) eqn:Hbig.
  - apply Z.leb_le in Hbig.
    destruct (surrogate_pair c) as (Hhi & _ & _); [lia|]. cbv zeta in Hhi.
    set (hi := Z.lor 0xd800 _) in *.
    destruct (u_escape_hex hi) as (h1 & h2 & h3 & h4 & -> & Hhex); [lia|].
    intros [= <- <- <- <- _]. exists hi. split; [done|].
    unfold is_low_surrogate. apply andb_false_iff. left. apply Z.leb_gt. lia.
  - apply Z.leb_gt in Hbig.
    destruct (u_escape_hex c) as (h1 & h2 & h3 & h4 & -> & Hhex); [lia|].
    intros [= <- <- <- <- _]. by exists c.
Qed.

Lemma scanstring_encode (s rest : str) :
  wf_str s →
  scanstring (concat (encode_char <$> s) ++ 34 :: rest) = Ok (s, rest) ∧
  (match s with c :: _ => is_low_surrogate c = false | [] => True end →
   no_low_escape (concat (encode_char <$> s) ++ 34 :: rest)).
Proof.
  induction s as [|c s IH]; intros Hwf.
  { split; [done|]. by intros _ ?????? [=]. }
  destruct Hwf as (Hc & Hnext & Hwf). destruct (IH Hwf) as [IHs IHno]. clear IH.
  rewrite fmap_cons, concat_cons, <- app_assoc.
  set (T := concat (encode_char <$> s) ++ 34 :: rest) in *.
  split; [|by apply encode_char_no_low].
  unfold encode_char. destruct (S_CHAR c) eqn:HS.
  { unfold S_CHAR in HS. apply andb_true_iff in HS as [[[H32 H126]%andb_true_iff
      H92%negb_true_iff]%andb_true_iff H34%negb_true_iff].
    apply Z.leb_le in H32. cbn [app scanstring]. rewrite H34, H92.
    replace (c <=? 31) with false by (symmetry; apply Z.leb_gt; lia).
    by rewrite IHs. }
  unfold ascii_escape_unichar.
  destruct (c =? 92) eqn:E92.
  { apply Z.eqb_eq in E92 as ->. cbn [app].
    erewrite scanstring_short; [by rewrite IHs|done|done]. }
  destruct (c =? 34) eqn:E34.
  { apply Z.eqb_eq in E34 as ->. cbn [app].
    erewrite scanstring_short; [by rewrite IHs|done|done]. }
  destruct (c =? 8) eqn:E8.
  { apply Z.eqb_eq in E8 as ->. cbn [app].
    erewrite scanstring_short; [by rewrite IHs|done|done]. }
  destruct (c =? 12) eqn:E12.
  { apply Z.eqb_eq in E12 as ->. cbn [app].
    erewrite scanstring_short; [by rewrite IHs|done|done]. }
  destruct (c =? 10) eqn:E10.
  { apply Z.eqb_eq in E10 as ->. cbn [app].
    erewrite scanstring_short; [by rewrite IHs|done|done]. }
  destruct (c =? 13) eqn:E13.
  { apply Z.eqb_eq in E13 as ->. cbn [app].
    erewrite scanstring_short; [by rewrite IHs|done|done]. }
  destruct (c =? 9) eqn:E9.
  { apply Z.eqb_eq in E9 as ->. cbn [app].
    erewrite scanstring_short; [by rewrite IHs|done|done]. }
  destruct (0x10000 <=? c) eqn:Hbig.
  - apply Z.leb_le in Hbig.
    destruct (surrogate_pair c) as (Hhi & Hlo & Hjoin); [lia|]. cbv zeta in *.
    set (hi := Z.lor 0xd800 _) in *. set (lo := Z.lor 0xdc00 _) in *.
    destruct (u_escape_hex hi) as (h1 & h2 & h3 & h4 & -> & Hhex); [lia|].
    destruct (u_escape_hex lo) as (l1 & l2 & l3 & l4 & -> & Hlex); [lia|].
    assert (∃ c7 T', T = c7 :: T') as (c7 & T' & HT).
    { unfold T. destruct (concat _); by eexists _, _. }
    rewrite HT in *. cbn [app].
    rewrite (scanstring_pair _ _ _ _ _ _ _ _ hi lo); try done.
    + by rewrite IHs, Hjoin.
    + unfold is_high_surrogate. apply andb_true_iff. rewrite !Z.leb_le. lia.
    + unfold is_low_surrogate. apply andb_true_iff. rewrite !Z.leb_le. lia.
  - apply Z.leb_gt in Hbig.
    destruct (u_escape_hex c) as (h1 & h2 & h3 & h4 & -> & Hhex); [lia|].
    cbn [app]. rewrite (scanstring_escape _ _ _ _ c); [by rewrite IHs|done|].
    intros Hhigh. apply IHno. specialize (Hnext Hhigh). by destruct s.
Qed.

(** [encode_basestring_ascii] read back by the scanner. *)
Lemma scanstring_encode_basestring (s rest : str) :
  wf_str s →
  ∃ body, encode_basestring_ascii s ++ rest = 34 :: body ∧
          scanstring body = Ok (s, rest).
Proof.
  intros Hwf. exists (concat (encode_char <$> s) ++ 34 :: rest). split.
  - unfold encode_basestring_ascii. simpl. by rewrite <- app_assoc.
  - by apply scanstring_encode.
Qed.

(* ===================================================================== *)
(** * Documents *)
(* ===================================================================== *)

(** Induction on documents, through lists and dictionaries. *)
Lemma value_ind' (P : value → Prop) :
  P VNone → (∀ b, P (VBool b)) → (∀ n, P (VInt n)) → (∀ x, P (VFloat x)) →
  (∀ s, P (VStr s)) →
  (∀ items, Forall P items → P (VList items)) →
  (∀ d, Forall (λ kv, P kv.2) d → P (VDict d)) →
  ∀ v, P v.
Proof.
  intros HN HB HI HF HS HL HD.
  fix IH 1. intros [|b|n|x|s|items|d].
  - exact HN.
  - apply HB.
  - apply HI.
  - apply HF.
  - apply HS.
  - apply HL. revert items. fix IHl 1. intros [|x items].
    + constructor.
    + constructor; [apply IH|apply IHl].
  - apply HD. revert d. fix IHl 1. intros [|[k x] d].
    + constructor.
    + constructor; [apply IH|apply IHl].
Qed.

Lemma wf_value_list (items : list value) :
  wf_value (VList items) ↔ Forall wf_value items.
Proof.
  induction items as [|x items IH]; simpl; [by split; [constructor|]|].
  rewrite Forall_cons. simpl in IH. by rewrite IH.
Qed.

Lemma wf_value_dict (d : dict) :
  wf_value (VDict d) ↔
  NoDup (keys d) ∧ Forall (λ kv, wf_str kv.1 ∧ wf_value kv.2) d.
Proof.
  simpl. apply and_iff_compat_l.
  induction d as [|[k x] d IH]; simpl; [by split; [constructor|]|].
  rewrite Forall_cons. simpl. by rewrite IH.
Qed.

Lemma encode_list (items : list value) :
  encode (VList items) = 91 :: encode_items items ++ [93].
Proof. reflexivity. Qed.

Lemma encode_dict (d : dict) :
  encode (VDict d) = 123 :: encode_pairs d ++ [125].
Proof. reflexivity. Qed.

(** A second pass of the loop and the assignment keep documents
    well formed. *)
Lemma dict_set_wf (d : dict) (k : str) (v : value) :
  wf_str k → wf_value v → wf_value (VDict d) → wf_value (VDict (dict_set d k v)).
Proof.
  rewrite !wf_value_dict. intros Hk Hv [Hnd Hall]. split.
  - by apply keys_NoDup_dict_set.
  - clear Hnd. induction Hall as [|[k' v'] d Hkv Hall IH]; simpl.
    + by repeat constructor.
    + destruct (decide (k' = k)) as [->|]; constructor;
        first [done | by destruct Hkv].
Qed.

Lemma reindex_from_wf (items : list value) : ∀ i items',
  Forall wf_value items → reindex_from i items = Ok items' → Forall wf_value items'.
Proof.
  induction items as [|item items IH]; intros i items' Hwf; simpl.
  - by intros [= <-].
  - apply Forall_cons in Hwf as [Hitem Hitems].
    intros (it' & (f & -> & ->)%setitem_Ok & (rest' & Hrest & [= <-])%bind_Ok)%bind_Ok.
    constructor; [|by eapply IH]. by apply dict_set_wf.
Qed.

Lemma reindex_wf (data data' : value) :
  wf_value data → reindex data = Ok data' → wf_value data'.
Proof.
  unfold reindex. intros Hwf
    (pf & Hpf & (items & Hit & (items' & Hr & Hd)%bind_Ok)%bind_Ok)%bind_Ok.
  destruct data as [| | | | | |d]; try done. cbn [getitem] in Hpf.
  destruct (dict_get d (py "portfolio")) as [v|] eqn:Hget; [|done].
  injection Hpf as ->.
  destruct pf as [| | | |s|l|f]; try done; simpl in Hit; injection Hit as <-;
    injection Hd as <-; try done.
  assert (wf_value (VList l)) as Hl.
  { apply wf_value_dict in Hwf as [_ Hall]. clear Hr.
    induction Hall as [|[k x] d [_ Hx] _ IH]; [done|]. simpl in Hget.
    destruct (decide (k = py "portfolio")); [by injection Hget as ->|by apply IH]. }
  apply dict_set_wf; [done| |done].
  eapply wf_value_list, reindex_from_wf, Hr. by apply wf_value_list.
Qed.

(* ===================================================================== *)
(** * More fuel does not change what the scanner returns *)
(* ===================================================================== *)

Lemma scan_once_mono (pc : constant → result value) (fuel : nat) :
  (∀ fuel' s, (fuel ≤ fuel')%nat →
     scan_once pc fuel s ≠ Raise RecursionError →
     scan_once pc fuel' s = scan_once pc fuel s) ∧
  (∀ fuel' acc s, (fuel ≤ fuel')%nat →
     parse_object pc fuel acc s ≠ Raise RecursionError →
     parse_object pc fuel' acc s = parse_object pc fuel acc s) ∧
  (∀ fuel' acc s, (fuel ≤ fuel')%nat →
     parse_array pc fuel acc s ≠ Raise RecursionError →
     parse_array pc fuel' acc s = parse_array pc fuel acc s).
Proof.
  induction fuel as [|fuel (IHs & IHo & IHa)]; [by split_and!|].
  split_and!.
  - intros [|fuel'] [|c s1] Hle; try lia; simpl; [done|].
    destruct (c =? 34); [done|].
    destruct (c =? 123).
    { destruct (skip_ws s1) as [|c' s2]; [done|].
      destruct (c' =? 125); [done|]. apply IHo. lia. }
    destruct (c =? 91); [|done].
    destruct (skip_ws s1) as [|c' s2]; [done|].
    destruct (c' =? 93); [done|]. apply IHa. lia.
  - intros [|fuel'] acc [|c s1] Hle; try lia; simpl; [done|].
    destruct (c =? 34); [|done].
    destruct (scanstring s1) as [[key s2]|e']; simpl; [|done].
    destruct (skip_ws s2) as [|c2 s3]; [done|].
    destruct (c2 =? 58); [|done].
    destruct (scan_once pc fuel (skip_ws s3)) as [[val s4]|e'] eqn:Hval; simpl.
    + rewrite (IHs fuel' (skip_ws s3)), Hval by (rewrite ?Hval; (lia || done)).
      simpl. destruct (skip_ws s4) as [|c4 s5]; [done|].
      destruct (c4 =? 125); [done|].
      destruct (c4 =? 44); [|done]. apply IHo. lia.
    + intros Hne. rewrite (IHs fuel' (skip_ws s3)), Hval; [done|lia|].
      rewrite Hval. congruence.
  - intros [|fuel'] acc s Hle; try lia; simpl.
    destruct (scan_once pc fuel s) as [[val s1]|e'] eqn:Hval; simpl.
    + rewrite (IHs fuel' s), Hval by (rewrite ?Hval; (lia || done)).
      simpl. destruct (skip_ws s1) as [|c s2]; [done|].
      destruct (c =? 93); [done|].
      destruct (c =? 44); [|done]. apply IHa. lia.
    + intros Hne. rewrite (IHs fuel' s), Hval; [done|lia|].
      rewrite Hval. congruence.
Qed.

(* ===================================================================== *)
(** * What the encoder writes is read back by the scanner *)
(* ===================================================================== *)

Lemma skip_ws_head (c : Z) (s : str) : is_ws c = false → skip_ws (c :: s) = c :: s.
Proof. intros Hc. simpl. by rewrite Hc. Qed.

Lemma skip_ws_space (c : Z) (s : str) :
  is_ws c = false → skip_ws (32 :: c :: s) = c :: s.
Proof. intros Hc. simpl. by rewrite Hc. Qed.

Lemma number_start_head (s : str) :
  number_start s →
  ∃ c s', s = c :: s' ∧ (48 ≤ c ≤ 57 ∨ c = 45).
Proof.
  destruct s as [|c s']; [done|]. simpl.
  intros [?%is_digit_spec|[-> _]]; eauto.
Qed.

Lemma scan_once_number (pc : constant → result value) (fuel : nat)
    (s : str) (r : value * str) :
  number_start s → match_number s = Some r → scan_once pc (S fuel) s = Ok r.
Proof.
  intros Hs Hm. destruct (number_start_head s Hs) as (c & s' & -> & Hc).
  cbn [scan_once].
  replace (c =? 34) with false by (symmetry; apply Z.eqb_neq; lia).
  replace (c =? 123) with false by (symmetry; apply Z.eqb_neq; lia).
  replace (c =? 91) with false by (symmetry; apply Z.eqb_neq; lia).
  by apply scan_scalar_number.
Qed.

(** The first character of an encoded document is no whitespace and
    closes no array and no object. *)
Lemma encode_head (v : value) (rest : str) :
  wf_value v →
  ∃ c s, encode v ++ rest = c :: s ∧ is_ws c = false ∧ c ≠ 93 ∧ c ≠ 125 ∧ c < 128.
Proof.
  intros Hwf.
  assert (∀ s, number_start s →
            ∃ c s', s = c :: s' ∧ is_ws c = false ∧ c ≠ 93 ∧ c ≠ 125 ∧ c < 128)
    as Hnum.
  { intros s (c & s' & -> & Hc)%number_start_head. exists c, s'.
    split_and!; [done| |lia..]. unfold is_ws.
    repeat (apply orb_false_iff; split); apply Z.eqb_neq; lia. }
  destruct v as [|[]|n|x|s|items|d]; try by eexists _, _.
  - apply Hnum, int_repr_start.
  - destruct x as [|[]|neg|neg m e]; try by eexists _, _.
    + by apply Hnum, float_repr_start.
    + by apply Hnum, float_repr_start.
Qed.

Lemma dict_set_fresh (d : dict) (k : str) (v : value) :
  k ∉ keys d → dict_set d k v = d ++ [(k, v)].
Proof.
  unfold keys. induction d as [|[k' v'] d IH]; csimpl; [done|].
  rewrite not_elem_of_cons. intros [Hne Hnotin].
  rewrite decide_False by done. by rewrite IH.
Qed.

Lemma encode_items_head (x : value) (l : list value) (rest : str) :
  ∃ rest', encode_items (x :: l) ++ rest = encode x ++ rest'.
Proof.
  destruct l as [|y l]; [by eexists|].
  eexists. cbn [encode_items]. by rewrite <- app_assoc.
Qed.

Lemma encode_items_cons (x y : value) (l : list value) :
  encode_items (x :: y :: l) = encode x ++ 44 :: 32 :: encode_items (y :: l).
Proof. reflexivity. Qed.

Lemma encode_pairs_cons (k : str) (x : value) (kv : str * value) (l : dict) :
  encode_pairs ((k, x) :: kv :: l)
  = encode_basestring_ascii k ++ py ": " ++ encode x
    ++ 44 :: 32 :: encode_pairs (kv :: l).
Proof. by destruct kv. Qed.

Lemma reads_back_mono (v : value) (n n' : nat) :
  (n ≤ n')%nat → reads_back v n → reads_back v n'.
Proof. intros Hle Hv fuel rest Hfuel. apply Hv. lia. Qed.

Lemma reads_back_bound (P : value → Prop) (l : list value) :
  Forall (λ x, P x → ∃ n, reads_back x n) l → Forall P l →
  ∃ n, Forall (λ x, reads_back x n) l.
Proof.
  induction 1 as [|x l Hx _ IH]; intros Hwf; [by exists 0%nat|].
  apply Forall_cons in Hwf as [Hpx Hpl].
  destruct (Hx Hpx) as [n1 H1]. destruct (IH Hpl) as [n2 H2].
  exists (n1 `max` n2)%nat. constructor.
  - eapply reads_back_mono, H1. lia.
  - eapply Forall_impl; [done|]. intros y Hy. eapply reads_back_mono, Hy. lia.
Qed.

(** The elements of an array, from the first to the closing bracket. *)
Lemma parse_array_items (n : nat) (items : list value) :
  items ≠ [] →
  Forall wf_value items →
  Forall (λ x, reads_back x n) items →
  ∀ fuel acc rest, (n + length items ≤ fuel)%nat →
    parse_array default_constant fuel acc (encode_items items ++ 93 :: rest)
    = Ok (VList (reverse acc ++ items), rest).
Proof.
  intros Hne Hwf Hall. induction Hall as [|x l Hx Hl IH]; [done|].
  apply Forall_cons in Hwf as [Hwx Hwl].
  intros [|fuel] acc rest Hfuel; [simpl in Hfuel; lia|]. cbn [parse_array].
  destruct l as [|y l].
  - cbn [encode_items]. rewrite (Hx fuel (93 :: rest)); [|simpl in *; lia|].
    2:{ simpl. unfold is_delim. auto. }
    cbn [mbind result_bind]. rewrite skip_ws_head by done.
    change (93 =? 93) with true. cbv iota. by rewrite reverse_cons.
  - rewrite encode_items_cons, <- app_assoc, <- !app_comm_cons.
    rewrite (Hx fuel); [|simpl in *; lia|].
    2:{ simpl. unfold is_delim. auto. }
    cbn [mbind result_bind]. rewrite skip_ws_head by done.
    change (44 =? 93) with false. change (44 =? 44) with true. cbv iota.
    destruct (encode_items_head y l (93 :: rest)) as [rest' Hhead].
    destruct (encode_head y rest') as (c & s & Hc & Hws & _);
      [by apply Forall_cons in Hwl as [? _]|].
    rewrite Hhead, Hc, skip_ws_space, <- Hc, <- Hhead by done.
    rewrite IH; [|done|done|simpl in *; lia].
    by rewrite reverse_cons, <- app_assoc.
Qed.

Lemma encode_pairs_head (k : str) (x : value) (l : dict) (rest : str) :
  ∃ rest', encode_pairs ((k, x) :: l) ++ rest = 34 :: rest'.
Proof.
  destruct l as [|[k' y] l]; eexists; cbn [encode_pairs];
    unfold encode_basestring_ascii; by rewrite <- !app_assoc.
Qed.

(** The members of an object, from the first key to the closing brace. *)
Lemma parse_object_pairs (n : nat) (d : dict) :
  d ≠ [] →
  Forall (λ kv, wf_str kv.1 ∧ wf_value kv.2) d →
  Forall (λ kv, reads_back kv.2 n) d →
  ∀ fuel acc rest, (n + length d ≤ fuel)%nat →
    NoDup (keys (acc ++ d)) →
    parse_object default_constant fuel acc (encode_pairs d ++ 125 :: rest)
    = Ok (VDict (acc ++ d), rest).
Proof.
  intros Hne Hwf Hall. induction Hall as [|[k x] l Hx Hl IH]; [done|].
  apply Forall_cons in Hwf as [[Hwk Hwx] Hwl]. simpl in Hwk, Hwx, Hx.
  intros [|fuel] acc rest Hfuel Hnd; [simpl in Hfuel; lia|].
  assert (k ∉ keys acc) as Hfresh.
  { unfold keys in *. rewrite fmap_app in Hnd. apply NoDup_app in Hnd as (_ & Hd & _).
    intros Hin. apply (Hd _ Hin). csimpl. left. }
  assert (∀ tail,
    parse_object default_constant (S fuel) acc
      (encode_basestring_ascii k ++ py ": " ++ encode x ++ tail)
    = '(val, s4) ← scan_once default_constant fuel (encode x ++ tail);
      match skip_ws s4 with
      | [] => Raise JSONDecodeError
      | c4 :: s5 =>
          if c4 =? 125 then Ok (VDict (dict_set acc k val), s5)
          else if c4 =? 44
               then parse_object default_constant fuel (dict_set acc k val) (skip_ws s5)
               else Raise JSONDecodeError
      end) as Hstep.
  { intros tail.
    destruct (scanstring_encode_basestring k (py ": " ++ encode x ++ tail) Hwk)
      as (body & -> & Hbody).
    cbn [parse_object]. change (34 =? 34) with true. cbv iota. rewrite Hbody.
    cbn [mbind result_bind].
    change (py ": " ++ encode x ++ tail) with (58 :: 32 :: (encode x ++ tail)).
    rewrite skip_ws_head by done. change (58 =? 58) with true. cbv iota.
    destruct (encode_head x tail Hwx) as (c & s & Hc & Hws & _).
    by rewrite Hc, skip_ws_space, <- Hc by done. }
  destruct l as [|[k' y] l].
  - cbn [encode_pairs]. rewrite <- !app_assoc, Hstep.
    rewrite (Hx fuel (125 :: rest)); [|simpl in *; lia|].
    2:{ simpl. unfold is_delim. auto. }
    cbn [mbind result_bind]. rewrite skip_ws_head by done.
    change (125 =? 125) with true. cbv iota. by rewrite dict_set_fresh.
  - rewrite encode_pairs_cons, <- !app_assoc, Hstep, <- !app_comm_cons.
    rewrite (Hx fuel); [|simpl in *; lia|].
    2:{ simpl. unfold is_delim. auto. }
    cbn [mbind result_bind]. rewrite skip_ws_head by done.
    change (44 =? 125) with false. change (44 =? 44) with true. cbv iota.
    destruct (encode_pairs_head k' y l (125 :: rest)) as [rest' Hhead].
    rewrite Hhead, skip_ws_space, <- Hhead by done.
    rewrite dict_set_fresh by done.
    rewrite IH; [|done|done|simpl in *; lia|].
    + by rewrite <- app_assoc.
    + by rewrite <- app_assoc.
Qed.

(** Every well-formed document is read back once the fuel suffices. *)
Lemma encode_reads_back (v : value) : wf_value v → ∃ n, reads_back v n.
Proof.
  induction v as [|b|n|x|s|items IH|d IH] using value_ind'; intros Hwf.
  - exists 1%nat. intros [|fuel] rest Hfuel Hrest; [lia|]. reflexivity.
  - exists 1%nat. intros [|fuel] rest Hfuel Hrest; [lia|]. by destruct b.
  - exists 1%nat. intros [|fuel] rest Hfuel Hrest; [lia|].
    apply scan_once_number; [apply int_repr_start|by apply match_number_int].
  - exists 1%nat. intros [|fuel] rest Hfuel Hrest; [lia|].
    destruct x as [|[]|neg|neg m e]; try reflexivity.
    + apply scan_once_number; [by apply float_repr_start|by apply match_number_float].
    + apply scan_once_number; [by apply float_repr_start|by apply match_number_float].
  - exists 1%nat. intros [|fuel] rest Hfuel Hrest; [lia|].
    destruct (scanstring_encode_basestring s rest Hwf) as (body & Hb & Hbody).
    cbn [encode]. rewrite Hb. cbn [scan_once]. change (34 =? 34) with true.
    cbv iota. by rewrite Hbody.
  - apply wf_value_list in Hwf.
    destruct (reads_back_bound wf_value items IH Hwf) as [n Hn].
    exists (S (n + length items)). intros [|fuel] rest Hfuel Hrest; [lia|].
    rewrite encode_list, <- app_comm_cons, <- app_assoc. cbn [scan_once app].
    change (91 =? 34) with false. change (91 =? 123) with false.
    change (91 =? 91) with true. cbv iota.
    destruct items as [|x l]; [reflexivity|].
    destruct (encode_items_head x l (93 :: rest)) as [rest' Hhead].
    destruct (encode_head x rest') as (c & s & Hc & Hws & H93 & _);
      [by apply Forall_cons in Hwf as [? _]|].
    rewrite Hhead, Hc, skip_ws_head by done.
    apply Z.eqb_neq in H93 as ->. rewrite <- Hc, <- Hhead.
    rewrite (parse_array_items n); [done|done|done|done|lia].
  - apply wf_value_dict in Hwf as [Hnd Hwf].
    assert (∃ n, Forall (λ kv, reads_back kv.2 n) d) as [n Hn].
    { destruct (reads_back_bound wf_value (d.*2)) as [n Hn].
      - apply Forall_fmap. eapply Forall_impl; [exact IH|]. by intros [k x].
      - apply Forall_fmap. eapply Forall_impl; [exact Hwf|]. by intros [k x] [_ ?].
      - exists n. by apply Forall_fmap in Hn. }
    exists (S (n + length d)). intros [|fuel] rest Hfuel Hrest; [lia|].
    rewrite encode_dict, <- app_comm_cons, <- app_assoc. cbn [scan_once app].
    change (123 =? 34) with false. change (123 =? 123) with true. cbv iota.
    destruct d as [|[k x] l]; [reflexivity|].
    destruct (encode_pairs_head k x l (125 :: rest)) as [rest' Hhead].
    rewrite Hhead, skip_ws_head by done.
    change (34 =? 125) with false. cbv iota. rewrite <- Hhead.
    rewrite (parse_object_pairs n); [done|done|done|done|lia|done].
Qed.

(** [json.loads(json.dumps(v))] is [v] for every well-formed document. *)
Lemma loads_dumps (v : value) : wf_value v → loads (dumps v) = Ok v.
Proof.
  intros Hwf. destruct (encode_reads_back v Hwf) as [n Hn].
  destruct (encode_head v [] Hwf) as (c & s & Hc & Hws & _ & _ & H128).
  rewrite app_nil_r in Hc. unfold loads, decode, dumps. rewrite Hc.
  cbn [starts_with_bom].
  replace (c =? 0xFEFF) with false by (symmetry; apply Z.eqb_neq; lia).
  rewrite skip_ws_head by done. rewrite <- Hc.
  set (F := S (2 * length (encode v))).
  destruct (proj1 (scan_once_shorter default_constant (λ c, ltac:(by destruct c)) F)
              (encode v)) as [Hfuel _]; [unfold F; lia|].
  rewrite <- (proj1 (scan_once_mono default_constant F) (F `max` n)%nat)
    by (done || lia).
  specialize (Hn (F `max` n)%nat [] ltac:(lia) I). rewrite app_nil_r in Hn.
  by rewrite Hn.
Qed.

(* ===================================================================== *)
(** * What the scanner returns is well formed *)
(* ===================================================================== *)

(** The ways [scanstring] reads the next character of a string. *)
Lemma scanstring_inv (s r rest : str) :
  scanstring s = Ok (r, rest) →
  (s = 34 :: rest ∧ r = []) ∨
  (∃ c s1 r0, s = c :: s1 ∧ c ≠ 34 ∧ c ≠ 92 ∧ 31 < c ∧
              scanstring s1 = Ok (r0, rest) ∧ r = c :: r0) ∨
  (∃ e ch s2 r0, s = 92 :: e :: s2 ∧ unescape e = Some ch ∧
                 scanstring s2 = Ok (r0, rest) ∧ r = ch :: r0) ∨
  (∃ h1 h2 h3 h4 u s3 r0,
     s = 92 :: 117 :: h1 :: h2 :: h3 :: h4 :: s3 ∧ hex4 h1 h2 h3 h4 = Some u ∧
     (is_high_surrogate u = true → no_low_escape s3) ∧
     scanstring s3 = Ok (r0, rest) ∧ r = u :: r0) ∨
  (∃ h1 h2 h3 h4 l1 l2 l3 l4 hi lo s4 r0,
     s = 92 :: 117 :: h1 :: h2 :: h3 :: h4 :: 92 :: 117 :: l1 :: l2 :: l3 :: l4 :: s4 ∧
     hex4 h1 h2 h3 h4 = Some hi ∧ is_high_surrogate hi = true ∧
     hex4 l1 l2 l3 l4 = Some lo ∧ is_low_surrogate lo = true ∧
     scanstring s4 = Ok (r0, rest) ∧ r = join_surrogates hi lo :: r0).
Proof.
  destruct s as [|c s1]; [done|]. cbn [scanstring].
  destruct (c =? 34) eqn:H34.
  { apply Z.eqb_eq in H34 as ->. intros [= <- <-]. by left. }
  apply Z.eqb_neq in H34.
  destruct (c =? 92) eqn:H92.
  2:{ apply Z.eqb_neq in H92. destruct (c <=? 31) eqn:H31; [done|].
      apply Z.leb_gt in H31.
      intros ([r0 rest0] & Hs & [= <- <-])%bind_Ok.
      right. left. by eexists _, _, _. }
  apply Z.eqb_eq in H92 as ->. destruct s1 as [|e s2]; [done|].
  destruct (e =? 117) eqn:H117.
  2:{ destruct (unescape e) as [ch|] eqn:Hun; [|done].
      intros ([r0 rest0] & Hs & [= <- <-])%bind_Ok.
      right. right. left. by eexists _, _, _, _. }
  apply Z.eqb_eq in H117 as ->.
  destruct s2 as [|h1 [|h2 [|h3 [|h4 s3]]]]; try done.
  destruct (hex4 h1 h2 h3 h4) as [u|] eqn:Hhex; [|done].
  destruct s3 as [|b [|u' [|l1 [|l2 [|l3 [|l4 [|c7 s5]]]]]]];
    try (intros ([r0 rest0] & Hs & [= <- <-])%bind_Ok;
         do 3 right; left; eexists _, _, _, _, _, _, _;
         split_and!; [done|done| |done|done];
         by intros _ ?????? [=]).
  destruct (is_high_surrogate u) eqn:Hhigh; cbn [andb].
  2:{ intros ([r0 rest0] & Hs & [= <- <-])%bind_Ok.
      do 3 right; left; eexists _, _, _, _, _, _, _.
      split_and!; [done|done|intros ?; congruence|done|done]. }
  destruct (b =? 92) eqn:Hb; cbn [andb].
  2:{ intros ([r0 rest0] & Hs & [= <- <-])%bind_Ok.
      do 3 right; left; eexists _, _, _, _, _, _, _.
      split_and!; [done|done| |done|done].
      intros _ ?????? [= -> _]. done. }
  destruct (u' =? 117) eqn:Hu'.
  2:{ intros ([r0 rest0] & Hs & [= <- <-])%bind_Ok.
      do 3 right; left; eexists _, _, _, _, _, _, _.
      split_and!; [done|done| |done|done].
      intros _ ?????? [= _ -> _]. done. }
  apply Z.eqb_eq in Hb as ->. apply Z.eqb_eq in Hu' as ->.
  destruct (hex4 l1 l2 l3 l4) as [u2|] eqn:Hlex; [|done].
  destruct (is_low_surrogate u2) eqn:Hlow.
  - intros ([r0 rest0] & Hs & [= <- <-])%bind_Ok.
    do 4 right. eexists _, _, _, _, _, _, _, _, _, _, _, _. by split_and!.
  - intros ([r0 rest0] & Hs & [= <- <-])%bind_Ok.
    do 3 right; left; eexists _, _, _, _, _, _, _.
    split_and!; [done|done| |done|done].
    intros _ ?????? [= <- <- <- <- _ _]. by exists u2.
Qed.

Lemma hexval_range (c v : Z) : hexval c = Some v → 0 ≤ v < 16.
Proof.
  unfold hexval. repeat case_match; intros [= <-];
    repeat match goal with
           | H : _ && _ = true |- _ => apply andb_true_iff in H as [? ?]
           | H : (_ <=? _) = true |- _ => apply Z.leb_le in H
           end; lia.
Qed.

Lemma hex4_range (h1 h2 h3 h4 u : Z) : hex4 h1 h2 h3 h4 = Some u → 0 ≤ u < 0x10000.
Proof.
  unfold hex4. cbn [foldl].
  destruct (hexval h1) as [v1|] eqn:E1; [|done].
  destruct (hexval h2) as [v2|] eqn:E2; [|done].
  destruct (hexval h3) as [v3|] eqn:E3; [|done].
  destruct (hexval h4) as [v4|] eqn:E4; [|done].
  apply hexval_range in E1, E2, E3, E4. cbn [mbind option_bind].
  rewrite !Z.shiftl_mul_pow2 by done. rewrite Z.mul_0_l, Z.lor_0_l.
  rewrite !(lor_add_pow2 _ _ 4) by (done || lia).
  change (2 ^ 4) with 16. intros [= <-]. lia.
Qed.

Lemma join_surrogates_range (hi lo : Z) :
  0x10000 ≤ join_surrogates hi lo < 0x110000.
Proof.
  unfold join_surrogates.
  rewrite !(land_low _ 10 0x3FF), Z.shiftl_mul_pow2 by done.
  rewrite (lor_add_pow2 _ _ 10) by (try apply Z.mod_pos_bound; lia).
  change (2 ^ 10) with 1024.
  pose proof (Z.mod_pos_bound hi 1024). pose proof (Z.mod_pos_bound lo 1024). lia.
Qed.

Lemma unescape_range (e ch : Z) : unescape e = Some ch → 0 ≤ ch < 128.
Proof. unfold unescape. repeat case_match; intros [= <-]; lia. Qed.

Lemma wf_text_suffix (r s : str) : r `suffix_of` s → wf_text s → wf_text r.
Proof. intros [k ->]. unfold wf_text. rewrite Forall_app. by intros [_ ?]. Qed.

Lemma surrogate_bounds (c : Z) :
  (is_high_surrogate c = true ↔ 0xD800 ≤ c ≤ 0xDBFF) ∧
  (is_low_surrogate c = true ↔ 0xDC00 ≤ c ≤ 0xDFFF) ∧
  (is_surrogate c = false ↔ c < 0xD800 ∨ 0xDFFF < c).
Proof.
  unfold is_high_surrogate, is_low_surrogate, is_surrogate.
  rewrite !andb_true_iff, andb_false_iff, !Z.leb_le, !Z.leb_gt. lia.
Qed.

(** The strings [scanstring] returns for text without surrogates are well
    formed; a low surrogate at their head stems from an escape. *)
Lemma scanstring_wf (s : str) : ∀ r rest,
  wf_text s → scanstring s = Ok (r, rest) →
  wf_str r ∧ rest `suffix_of` s ∧
  ∀ c r', r = c :: r' → is_low_surrogate c = true →
    ∃ l1 l2 l3 l4 c7 s5,
      s = 92 :: 117 :: l1 :: l2 :: l3 :: l4 :: c7 :: s5 ∧ hex4 l1 l2 l3 l4 = Some c.
Proof.
  induction (well_founded_ltof _ (@length Z) s) as [s _ IH].
  unfold ltof in IH. intros r rest Hwf Hscan.
  apply scanstring_inv in Hscan
    as [[-> ->]
       |[(c & s1 & r0 & -> & H34 & H92 & H31 & Hs & ->)
        |[(e & ch & s2 & r0 & -> & Hun & Hs & ->)
         |[(h1 & h2 & h3 & h4 & u & s3 & r0 & -> & Hhex & Hno & Hs & ->)
          |(h1 & h2 & h3 & h4 & l1 & l2 & l3 & l4 & hi & lo & s4 & r0 & -> & Hhi
            & Hhigh & Hlo & Hlow & Hs & ->)]]]].
  - split; [exact I|]. split; [by apply suffix_cons_r|]. by intros ?? [=].
  - apply Forall_cons in Hwf as [[Hc Hsur] Hwf1].
    destruct (IH s1 ltac:(simpl; lia) _ _ Hwf1 Hs) as (Hr0 & Hsuf & _).
    apply surrogate_bounds in Hsur.
    split_and!; [|by apply suffix_cons_r|].
    + split; [done|]. split; [|done].
      intros Hh%surrogate_bounds. lia.
    + intros ?? [= <- <-] Hl%surrogate_bounds. lia.
  - assert (wf_text s2) as Hwf2 by (by do 2 apply Forall_cons in Hwf as [_ Hwf]).
    destruct (IH s2 ltac:(simpl; lia) _ _ Hwf2 Hs) as (Hr0 & Hsuf & _).
    apply unescape_range in Hun.
    split_and!; [|by do 2 apply suffix_cons_r|].
    + split; [lia|]. split; [|done]. intros Hh%surrogate_bounds. lia.
    + intros ?? [= <- <-] Hl%surrogate_bounds. lia.
  - assert (wf_text s3) as Hwf3 by (by do 6 apply Forall_cons in Hwf as [_ Hwf]).
    destruct (IH s3 ltac:(simpl; lia) _ _ Hwf3 Hs) as (Hr0 & Hsuf & Hhead).
    pose proof (hex4_range _ _ _ _ _ Hhex) as Hu.
    split_and!; [|by do 6 apply suffix_cons_r|].
    + split; [lia|]. split; [|done]. intros Hh. specialize (Hno Hh).
      destruct r0 as [|c' r0]; [done|].
      destruct (is_low_surrogate c') eqn:Hlow; [|done].
      destruct (Hhead _ _ eq_refl Hlow) as (m1 & m2 & m3 & m4 & c7 & s5 & -> & Hm).
      destruct (Hno _ _ _ _ _ _ eq_refl) as (u' & Hu' & Hnl). congruence.
    + intros ?? [= <- <-] _. destruct s3 as [|c7 s5]; [done|].
      by eexists _, _, _, _, _, _.
  - assert (wf_text s4) as Hwf4 by (by do 12 apply Forall_cons in Hwf as [_ Hwf]).
    destruct (IH s4 ltac:(simpl; lia) _ _ Hwf4 Hs) as (Hr0 & Hsuf & _).
    pose proof (join_surrogates_range hi lo) as Hj.
    split_and!; [|by do 12 apply suffix_cons_r|].
    + split; [lia|]. split; [|done]. intros Hh%surrogate_bounds. lia.
    + intros ?? [= <- <-] Hl%surrogate_bounds. lia.
Qed.

Lemma skip_ws_suffix (s : str) : skip_ws s `suffix_of` s.
Proof.
  induction s as [|c s IH]; simpl; [done|].
  destruct (is_ws c); [by apply suffix_cons_r|done].
Qed.

Lemma span_digits_spec (s ds r : str) :
  span_digits s = (ds, r) → s = ds ++ r ∧ Forall (λ c, is_digit c = true) ds.
Proof.
  revert ds r. induction s as [|c s IH]; intros ds r; simpl.
  - intros [= <- <-]. by split.
  - destruct (is_digit c) eqn:Hc; [|intros [= <- <-]; by split].
    destruct (span_digits s) as [ds' r'] eqn:Hs. intros [= <- <-].
    destruct (IH _ _ eq_refl) as [-> Hds]. split; [done|by constructor].
Qed.

Lemma number_int_spec (s ids r : str) :
  number_int s = Some (ids, r) →
  s = ids ++ r ∧ Forall (λ c, is_digit c = true) ids.
Proof.
  destruct s as [|c s]; simpl; [done|].
  destruct ((49 <=? c) && (c <=? 57)) eqn:Hc.
  - destruct (span_digits s) as [ds' r'] eqn:Hs. intros [= <- <-].
    apply span_digits_spec in Hs as [-> Hds]. split; [done|]. constructor; [|done].
    apply andb_true_iff in Hc as [?%Z.leb_le ?%Z.leb_le]. apply is_digit_spec. lia.
  - destruct (c =? 48) eqn:H0; [|done]. apply Z.eqb_eq in H0 as ->.
    intros [= <- <-]. split; [done|]. by repeat constructor.
Qed.

Lemma number_frac_spec (s fds r : str) :
  number_frac s = (fds, r) →
  r `suffix_of` s ∧ Forall (λ c, is_digit c = true) fds.
Proof.
  destruct s as [|c [|d s]]; simpl; try (intros [= <- <-]; by split).
  destruct ((c =? 46) && is_digit d) eqn:Hc; [|intros [= <- <-]; by split].
  destruct (span_digits s) as [ds' r'] eqn:Hs. intros [= <- <-].
  apply span_digits_spec in Hs as [-> Hds]. split.
  - do 2 apply suffix_cons_r. by apply suffix_app_r.
  - constructor; [|done]. by apply andb_true_iff in Hc as [_ ?].
Qed.

Lemma number_exp_suffix (s : str) (e : option Z) (r : str) :
  number_exp s = (e, r) → r `suffix_of` s.
Proof.
  destruct s as [|c s]; simpl; [by intros [= <- <-]|].
  destruct ((c =? 101) || (c =? 69)); [|by intros [= <- <-]].
  destruct (exponent_sign s) as [eneg s''] eqn:Hsg.
  assert (s'' `suffix_of` s) as Hsuf.
  { revert Hsg. destruct s as [|g [|c' s]]; simpl; try by intros [= <- <-].
    destruct (g =? 45); [intros [= <- <-]; by apply suffix_cons_r|].
    destruct (g =? 43); intros [= <- <-]; [by apply suffix_cons_r|done]. }
  destruct (span_digits s'') as [[|d eds] r'] eqn:Hs; intros [= <- <-]; [done|].
  apply span_digits_spec in Hs as [-> _]. apply suffix_cons_r.
  etrans; [|exact Hsuf]. by apply suffix_app_r.
Qed.

(** The numbers the scanner returns are well formed. *)
Lemma match_number_wf (s : str) (v : value) (rest : str) :
  match_number s = Some (v, rest) → wf_value v ∧ rest `suffix_of` s.
Proof.
  unfold match_number.
  destruct (number_sign s) as [neg s1] eqn:H1.
  destruct (number_int s1) as [[ids s2]|] eqn:H2; simpl; [|done].
  destruct (number_frac s2) as [fds s3] eqn:H3.
  destruct (number_exp s3) as [exp s4] eqn:H4. intros [= <- <-].
  apply number_int_spec in H2 as [-> Hids].
  apply number_frac_spec in H3 as [Hsuf3 Hfds].
  apply number_exp_suffix in H4. split.
  - unfold number_value. destruct fds, exp; try done;
      apply float_of_dec_canonical, digits_val_nonneg;
      (apply Forall_app; by split).
  - etrans; [exact H4|]. etrans; [exact Hsuf3|].
    etrans; [by apply suffix_app_r|].
    revert H1. destruct s as [|c s]; simpl; [by intros [= _ <-]|].
    destruct (c =? 45); intros [= _ <-]; [by apply suffix_cons_r|done].
Qed.

Lemma strip_prefix_suffix (p s r : str) : strip_prefix p s = Some r → r `suffix_of` s.
Proof.
  revert s. induction p as [|a p IH]; intros [|b s]; simpl; try done.
  - by intros [= <-].
  - by intros [= <-].
  - destruct (a =? b); [|done]. intros ?%IH. by apply suffix_cons_r.
Qed.

Lemma scan_scalar_wf (s : str) (v : value) (rest : str) :
  scan_scalar default_constant s = Ok (v, rest) → wf_value v ∧ rest `suffix_of` s.
Proof.
  unfold scan_scalar.
  destruct (strip_prefix (py "null") s) eqn:E1;
    [intros [= <- <-]; split; [done|by eapply strip_prefix_suffix]|].
  destruct (strip_prefix (py "true") s) eqn:E2;
    [intros [= <- <-]; split; [done|by eapply strip_prefix_suffix]|].
  destruct (strip_prefix (py "false") s) eqn:E3;
    [intros [= <- <-]; split; [done|by eapply strip_prefix_suffix]|].
  destruct (strip_prefix (py "NaN") s) eqn:E4;
    [intros [= <- <-]; split; [done|by eapply strip_prefix_suffix]|].
  destruct (strip_prefix (py "Infinity") s) eqn:E5;
    [intros [= <- <-]; split; [done|by eapply strip_prefix_suffix]|].
  destruct (strip_prefix (py "-Infinity") s) eqn:E6;
    [intros [= <- <-]; split; [done|by eapply strip_prefix_suffix]|].
  destruct (match_number s) as [[v' r']|] eqn:E7; [|done].
  intros [= <- <-]. by apply match_number_wf.
Qed.

(** The documents the scanner returns for text without surrogates are
    well formed. *)
Lemma scan_once_wf (fuel : nat) :
  (∀ s v rest, wf_text s → scan_once default_constant fuel s = Ok (v, rest) →
     wf_value v ∧ rest `suffix_of` s) ∧
  (∀ acc s v rest, wf_text s → wf_value (VDict acc) →
     parse_object default_constant fuel acc s = Ok (v, rest) →
     wf_value v ∧ rest `suffix_of` s) ∧
  (∀ acc s v rest, wf_text s → Forall wf_value acc →
     parse_array default_constant fuel acc s = Ok (v, rest) →
     wf_value v ∧ rest `suffix_of` s).
Proof.
  induction fuel as [|fuel (IHs & IHo & IHa)]; [by split_and!|].
  split_and!.
  - intros [|c s1] v rest Hwf; simpl; [done|].
    assert (wf_text s1) as Hwf1 by (by apply Forall_cons in Hwf as [_ ?]).
    destruct (c =? 34).
    { intros ([r rest'] & Hs & [= <- <-])%bind_Ok.
      destruct (scanstring_wf s1 _ _ Hwf1 Hs) as (Hr & Hsuf & _).
      split; [done|by apply suffix_cons_r]. }
    destruct (c =? 123).
    { pose proof (skip_ws_suffix s1) as Hws.
      destruct (skip_ws s1) as [|c' s2]; [done|].
      destruct (c' =? 125).
      - intros [= <- <-]. split; [by apply wf_value_dict; split; constructor|].
        apply suffix_cons_r. etrans; [|exact Hws]. by apply suffix_cons_r.
      - intros Hp. apply IHo in Hp as [Hv Hsuf];
          [|by eapply wf_text_suffix|by apply wf_value_dict; split; constructor].
        split; [done|]. apply suffix_cons_r. by etrans. }
    destruct (c =? 91).
    { pose proof (skip_ws_suffix s1) as Hws.
      destruct (skip_ws s1) as [|c' s2]; [done|].
      destruct (c' =? 93).
      - intros [= <- <-]. split; [done|].
        apply suffix_cons_r. etrans; [|exact Hws]. by apply suffix_cons_r.
      - intros Hp. apply IHa in Hp as [Hv Hsuf];
          [|by eapply wf_text_suffix|done].
        split; [done|]. apply suffix_cons_r. by etrans. }
    apply scan_scalar_wf.
  - intros acc [|c s1] v rest Hwf Hacc; simpl; [done|].
    assert (wf_text s1) as Hwf1 by (by apply Forall_cons in Hwf as [_ ?]).
    destruct (c =? 34); [|done].
    destruct (scanstring s1) as [[key s2]|e'] eqn:Hkey; simpl; [|done].
    destruct (scanstring_wf s1 _ _ Hwf1 Hkey) as (Hk & Hsuf2 & _).
    pose proof (skip_ws_suffix s2) as Hws2.
    destruct (skip_ws s2) as [|c2 s3]; [done|].
    destruct (c2 =? 58); [|done].
    assert (s3 `suffix_of` s1) as Hsuf3.
    { etrans; [|exact Hsuf2]. etrans; [|exact Hws2]. by apply suffix_cons_r. }
    pose proof (skip_ws_suffix s3) as Hws3.
    destruct (scan_once default_constant fuel (skip_ws s3)) as [[val s4]|e'] eqn:Hval;
      simpl; [|done].
    apply IHs in Hval as [Hv Hsuf4];
      [|eapply wf_text_suffix; [|exact Hwf1]; by etrans].
    assert (s4 `suffix_of` s1) as Hsuf4' by (etrans; [done|]; by etrans).
    pose proof (skip_ws_suffix s4) as Hws4.
    destruct (skip_ws s4) as [|c4 s5]; [done|].
    assert (s5 `suffix_of` s1) as Hsuf5.
    { etrans; [|exact Hsuf4']. etrans; [|exact Hws4]. by apply suffix_cons_r. }
    assert (wf_value (VDict (dict_set acc key val))) as Hacc' by (by apply dict_set_wf).
    destruct (c4 =? 125).
    { intros [= <- <-]. split; [done|by apply suffix_cons_r]. }
    destruct (c4 =? 44); [|done].
    intros Hp. apply IHo in Hp as [Hv' Hsuf']; [| |done].
    + split; [done|]. apply suffix_cons_r. etrans; [done|].
      etrans; [apply skip_ws_suffix|done].
    + eapply wf_text_suffix; [|exact Hwf1]. etrans; [apply skip_ws_suffix|done].
  - intros acc s v rest Hwf Hacc; simpl.
    destruct (scan_once default_constant fuel s) as [[val s1]|e'] eqn:Hval;
      simpl; [|done].
    apply IHs in Hval as [Hv Hsuf1]; [|done].
    pose proof (skip_ws_suffix s1) as Hws1.
    destruct (skip_ws s1) as [|c s2]; [done|].
    assert (s2 `suffix_of` s) as Hsuf2.
    { etrans; [|exact Hsuf1]. etrans; [|exact Hws1]. by apply suffix_cons_r. }
    destruct (c =? 93).
    { intros [= <- <-]. split; [|done]. apply wf_value_list.
      rewrite reverse_cons. apply Forall_app. split; [by apply Forall_reverse|].
      by constructor. }
    destruct (c =? 44); [|done].
    intros Hp. apply IHa in Hp as [Hv' Hsuf']; [| |by constructor].
    + split; [done|]. etrans; [done|]. etrans; [apply skip_ws_suffix|done].
    + eapply wf_text_suffix; [|exact Hwf]. etrans; [apply skip_ws_suffix|done].
Qed.

(** [json.loads] returns well-formed documents. *)
Lemma loads_wf (s : str) (v : value) : wf_text s → loads s = Ok v → wf_value v.
Proof.
  intros Hwf. unfold loads, decode. destruct (starts_with_bom s); [done|].
  destruct (scan_once default_constant (S (2 * length s)) (skip_ws s))
    as [[obj rest]|e] eqn:Hscan; [|done].
  cbn [mbind result_bind]. destruct (skip_ws rest); [|done]. intros [= <-].
  eapply (proj1 (scan_once_wf _)), Hscan.
  eapply wf_text_suffix; [apply skip_ws_suffix|done].
Qed.

(** C7.  A document loaded from text without surrogates and passed through
    the loop is read back from its serialization as it is. *)
Theorem round_trip (s : str) (data data' : value) :
  wf_text s →
  loads s = Ok data →
  reindex data = Ok data' →
  loads (dumps data') = Ok data'.
Proof.
  intros Hwf Hl Hr. apply loads_dumps.
  eapply reindex_wf, Hr. by eapply loads_wf.
Qed.

Lemma round_trip_witness :
  loads (dumps (VDict [(py "portfolio",
                        VList [VDict [(py "name", VStr (py "caf" ++ [233])); (py "id", VInt 0)];
                               VDict [(py "id", VInt 1); (py "w", VFloat (FNum false 5629499534213120 (-51)))]])]))
  = Ok (VDict [(py "portfolio",
                VList [VDict [(py "name", VStr (py "caf" ++ [233])); (py "id", VInt 0)];
                       VDict [(py "id", VInt 1); (py "w", VFloat (FNum false 5629499534213120 (-51)))]])]).
Proof.
  apply (round_trip
           (js "{'portfolio': [{'name': 'caf\u00e9'}, {'id': 7, 'w': 2.5}]}")
           (VDict [(py "portfolio",
                    VList [VDict [(py "name", VStr (py "caf" ++ [233]))];
                           VDict [(py "id", VInt 7); (py "w", VFloat (FNum false 5629499534213120 (-51)))]])])).
  - unfold wf_text.
    match goal with |- Forall _ ?s => let s' := eval vm_compute in s in change s with s' end.
    repeat (constructor; [split; [lia|reflexivity]|]). constructor.
  - vm_compute. reflexivity.
  - vm_compute. reflexivity.
Defined.

(** C9.  When the file holds a JSON object whose [portfolio] is the empty
    array, the loop leaves the document as it is, and the script ends
    normally: the file holds the serialized document, that text and a
    line feed have been printed, and the text in the file is read back as
    the document that was loaded. *)
Theorem empty_portfolio (w : world) (s : str) (d : dict) :
  files w !! "atit.json" = Some s →
  loads s = Ok (VDict d) →
  dict_get d (py "portfolio") = Some (VList []) →
  reindex (VDict d) = Ok (VDict d) ∧
  ∃ w', data_formatter w = (Ok (), w') ∧
        files w' !! "atit.json" = Some (dumps (VDict d)) ∧
        stdout w' = stdout w ++ dumps (VDict d) ++ [10] ∧
        (wf_text s → loads (dumps (VDict d)) = Ok (VDict d)).
Proof.
  intros Hf Hl Hp.
  assert (reindex (VDict d) = Ok (VDict d)) as Hr
    by (eapply reindex_empty; [done|by left]).
  split; [done|]. exists (written w (dumps (VDict d))).
  split_and!; [by eapply data_formatter_Ok| |done|].
  - simpl. apply lookup_insert_eq.
  - intros Hwf. apply loads_dumps. by eapply loads_wf.
Qed.

Lemma empty_portfolio_witness :
  reindex (VDict [(py "a", VInt 1); (py "portfolio", VList [])])
  = Ok (VDict [(py "a", VInt 1); (py "portfolio", VList [])]) ∧
  ∃ w', data_formatter (initial (js "{'a':1,'portfolio':[ ]}")) = (Ok (), w') ∧
        files w' !! "atit.json" = Some (js "{'a': 1, 'portfolio': []}") ∧
        stdout w' = js "{'a': 1, 'portfolio': []}" ++ [10] ∧
        loads (js "{'a': 1, 'portfolio': []}")
        = Ok (VDict [(py "a", VInt 1); (py "portfolio", VList [])]).
Proof.
  destruct (empty_portfolio (initial (js "{'a':1,'portfolio':[ ]}"))
              (js "{'a':1,'portfolio':[ ]}")
              [(py "a", VInt 1); (py "portfolio", VList [])])
    as (Hr & w' & Hrun & Hfile & Hout & Hback).
  - reflexivity.
  - vm_compute. reflexivity.
  - vm_compute. reflexivity.
  - split; [exact Hr|]. exists w'. split_and!; [exact Hrun|exact Hfile|exact Hout|].
    apply Hback. unfold wf_text.
    match goal with |- Forall _ ?s => let s' := eval vm_compute in s in change s with s' end.
    repeat (constructor; [split; [lia|reflexivity]|]). constructor.
Defined.

(* ===================================================================== *)
(** * The outcomes of the script *)
(* ===================================================================== *)

(** The exceptions of the loop: [KeyError] for the key [portfolio], and
    [TypeError]. *)
Lemma reindex_Raise (data : value) (e : exn) :
  reindex data = Raise e → e = KeyError (py "portfolio") ∨ e = TypeError.
Proof.
  unfold reindex. intros [Hg|(pf & Hg & Hr)]%bind_Raise.
  - destruct data as [| | | | | |d]; simpl in Hg; try (injection Hg as <-; by right).
    destruct (dict_get d (py "portfolio")); [done|]. injection Hg as <-. by left.
  - apply bind_Raise in Hr as [Hi|(items & Hi & Hr)].
    + destruct pf; simpl in Hi; try done; injection Hi as <-; by right.
    + apply bind_Raise in Hr as [Hr|(items' & _ & Hr)].
      * apply reindex_from_Raise in Hr as [-> _]. by right.
      * by destruct data, pf.
Qed.

(** The script in four cases. *)
Lemma data_formatter_cases (w : world) :
  (files w !! "atit.json" = None ∧
   data_formatter w = (Raise FileNotFoundError, w)) ∨
  (∃ s, files w !! "atit.json" = Some s ∧ loads s = Raise JSONDecodeError ∧
        data_formatter w = (Raise JSONDecodeError, log (EvRead "atit.json") w)) ∨
  (∃ s data e, files w !! "atit.json" = Some s ∧ loads s = Ok data ∧
        reindex data = Raise e ∧
        (e = KeyError (py "portfolio") ∨ e = TypeError) ∧
        data_formatter w = (Raise e, log (EvRead "atit.json") w)) ∨
  (∃ s data data', files w !! "atit.json" = Some s ∧ loads s = Ok data ∧
        reindex data = Ok data' ∧
        data_formatter w = (Ok (), written w (dumps data'))).
Proof.
  destruct (files w !! "atit.json") as [s|] eqn:Hf;
    [|left; split; [done|by apply data_formatter_no_file]].
  right. destruct (loads s) as [data|e] eqn:Hl.
  - right. destruct (reindex data) as [data'|e] eqn:Hr.
    + right. exists s, data, data'. split_and!; try done.
      by apply data_formatter_Ok with s data.
    + left. exists s, data, e. split_and!; try done.
      * by apply reindex_Raise with data.
      * by apply data_formatter_reindex_Raise with s data.
  - left. exists s. pose proof (loads_Raise _ _ Hl) as ->. split_and!; try done.
    by apply data_formatter_loads_Raise with s.
Qed.

(** X1.  The script raises [FileNotFoundError] exactly when there is no
    file [atit.json], and then it has done nothing at all: no file was
    created, nothing was printed. *)
Theorem file_not_found_iff (w w' : world) :
  data_formatter w = (Raise FileNotFoundError, w') ↔
  files w !! "atit.json" = None ∧ w' = w.
Proof.
  split.
  - intros Hrun.
    destruct (data_formatter_cases w)
      as [[Hf Hw]|[(s & Hf & Hl & Hw)|[(s & data & e & Hf & Hl & Hr & He & Hw)
                                      |(s & data & data' & Hf & Hl & Hr & Hw)]]];
      rewrite Hw in Hrun; try done.
    + by injection Hrun as <-.
    + injection Hrun as -> _. by destruct He.
  - intros [Hf ->]. by apply data_formatter_no_file.
Qed.

(** X2.  However the script fails, it has written nothing: the files, the
    environment and standard output are as before, and the file has at
    most been read. *)
Theorem failure_writes_nothing (w w' : world) (e : exn) :
  data_formatter w = (Raise e, w') →
  files w' = files w ∧ environ w' = environ w ∧ stdout w' = stdout w ∧
  (trace w' = trace w ∨ trace w' = trace w ++ [EvRead "atit.json"]).
Proof.
  intros Hrun.
  destruct (data_formatter_cases w)
    as [[Hf Hw]|[(s & Hf & Hl & Hw)|[(s & data & e' & Hf & Hl & Hr & He & Hw)
                                    |(s & data & data' & Hf & Hl & Hr & Hw)]]];
    rewrite Hw in Hrun; try done; injection Hrun as _ <-; split_and!; auto.
Qed.

Lemma failure_writes_nothing_witness :
  files (log (EvRead "atit.json") (busy (js "[1, 2]"))) = files (busy (js "[1, 2]")) ∧
  environ (log (EvRead "atit.json") (busy (js "[1, 2]"))) = environ (busy (js "[1, 2]")) ∧
  stdout (log (EvRead "atit.json") (busy (js "[1, 2]"))) = stdout (busy (js "[1, 2]")) ∧
  (trace (log (EvRead "atit.json") (busy (js "[1, 2]"))) = trace (busy (js "[1, 2]")) ∨
   trace (log (EvRead "atit.json") (busy (js "[1, 2]")))
   = trace (busy (js "[1, 2]")) ++ [EvRead "atit.json"]).
Proof.
  apply (failure_writes_nothing (busy (js "[1, 2]"))
           (log (EvRead "atit.json") (busy (js "[1, 2]"))) TypeError).
  apply data_formatter_reindex_Raise with (js "[1, 2]") (VList [VInt 1; VInt 2]).
  - reflexivity.
  - vm_compute. reflexivity.
  - reflexivity.
Defined.

(** X3.  Whatever the outcome, the script touches no file but
    [atit.json], creates no file, deletes none, and leaves the
    environment alone. *)
Theorem other_files_untouched (w w' : world) (r : result unit) :
  data_formatter w = (r, w') →
  environ w' = environ w ∧
  (∀ p, p ≠ "atit.json" → files w' !! p = files w !! p) ∧
  (∀ p, is_Some (files w' !! p) ↔ is_Some (files w !! p)).
Proof.
  intros Hrun.
  destruct (data_formatter_cases w)
    as [[Hf Hw]|[(s & Hf & Hl & Hw)|[(s & data & e' & Hf & Hl & Hr & He & Hw)
                                    |(s & data & data' & Hf & Hl & Hr & Hw)]]];
    rewrite Hw in Hrun; injection Hrun as _ <-; try by split_and!.
  split_and!; [done| |]; simpl.
  - intros p Hp. by rewrite lookup_insert_ne.
  - intros p. destruct (decide (p = "atit.json")) as [->|Hp].
    + rewrite lookup_insert_eq, Hf. by split.
    + by rewrite lookup_insert_ne.
Qed.

Lemma other_files_untouched_witness :
  environ (written (busy (js "{'portfolio': [{}]}"))
                   (js "{'portfolio': [{'id': 0}]}"))
  = environ (busy (js "{'portfolio': [{}]}")) ∧
  (∀ p, p ≠ "atit.json" →
        files (written (busy (js "{'portfolio': [{}]}"))
                       (js "{'portfolio': [{'id': 0}]}")) !! p
        = files (busy (js "{'portfolio': [{}]}")) !! p) ∧
  (∀ p, is_Some (files (written (busy (js "{'portfolio': [{}]}"))
                                (js "{'portfolio': [{'id': 0}]}")) !! p)
        ↔ is_Some (files (busy (js "{'portfolio': [{}]}")) !! p)).
Proof.
  apply (other_files_untouched (busy (js "{'portfolio': [{}]}")) _ (Ok ())).
  apply (data_formatter_Ok _ (js "{'portfolio': [{}]}")
           (VDict [(py "portfolio", VList [VDict []])])
           (VDict [(py "portfolio", VList [VDict [(py "id", VInt 0)]])])).
  - reflexivity.
  - vm_compute. reflexivity.
  - reflexivity.
Defined.

(** X4.  When the document is not an object (an array, a string, a number,
    [true], [false] or [null]), the lookup of [portfolio] raises
    [TypeError]; the file has only been read. *)
Theorem top_level_not_object (w : world) (s : str) (data : value) :
  files w !! "atit.json" = Some s →
  loads s = Ok data →
  ¬ is_dict data →
  data_formatter w = (Raise TypeError, log (EvRead "atit.json") w).
Proof.
  intros Hf Hl Hd. apply data_formatter_reindex_Raise with s data; [done..|].
  by destruct data.
Qed.

Lemma top_level_not_object_witness :
  data_formatter (initial (js "[{'id': 5}]"))
  = (Raise TypeError, log (EvRead "atit.json") (initial (js "[{'id': 5}]"))).
Proof.
  apply (top_level_not_object _ (js "[{'id': 5}]")
           (VList [VDict [(py "id", VInt 5)]])).
  - reflexivity.
  - vm_compute. reflexivity.
  - simpl. tauto.
Defined.

(** What the loop does with a [portfolio] it does not reject. *)
Lemma reindex_accepted (d : dict) (pf : value) :
  dict_get d (py "portfolio") = Some pf →
  ¬ rejected_portfolio pf →
  ∃ data', reindex (VDict d) = Ok data'.
Proof.
  intros Hp Hrej. destruct pf as [| | | |s|items|f]; simpl in Hrej; try tauto.
  - destruct s; [|by destruct Hrej]. exists (VDict d). apply reindex_empty with (VStr []); auto.
  - destruct (decide (Forall is_dict items)) as [Hall|]; [|done].
    destruct (reindex_from_dicts items 0 Hall) as [items' Hr].
    eexists. by eapply reindex_list.
  - destruct f; [|by destruct Hrej]. exists (VDict d). apply reindex_empty with (VDict []); auto.
Qed.

(** X5.  The script ends normally exactly when the file exists, holds a
    text [json.loads] accepts, the document is an object with the key
    [portfolio], and the value under that key is an array of objects, an
    empty string or an empty object. *)
Theorem success_iff (w : world) :
  (∃ w', data_formatter w = (Ok (), w')) ↔
  ∃ s d pf, files w !! "atit.json" = Some s ∧ loads s = Ok (VDict d) ∧
            dict_get d (py "portfolio") = Some pf ∧ ¬ rejected_portfolio pf.
Proof.
  split.
  - intros [w' Hrun].
    destruct (data_formatter_cases w)
      as [[Hf Hw]|[(s & Hf & Hl & Hw)|[(s & data & e' & Hf & Hl & Hr & He & Hw)
                                      |(s & data & data' & Hf & Hl & Hr & Hw)]]];
      rewrite Hw in Hrun; try done.
    destruct data as [| | | | | |d]; try done.
    destruct (dict_get d (py "portfolio")) as [pf|] eqn:Hp;
      [|by unfold reindex in Hr; simpl in Hr; rewrite Hp in Hr].
    exists s, d, pf. split_and!; try done.
    intros Hrej. by rewrite (reindex_rejected d pf Hp Hrej) in Hr.
  - intros (s & d & pf & Hf & Hl & Hp & Hrej).
    destruct (reindex_accepted d pf Hp Hrej) as [data' Hr].
    eexists. by eapply data_formatter_Ok.
Qed.

(* ===================================================================== *)
(** * Running the script again *)
(* ===================================================================== *)

(** X6.  The file the script writes is a fixed point: run on a file
    holding text without surrogates, and then run again on what it wrote,
    the script ends normally the second time too, leaves every file as it
    is, and prints the content of the file once more. *)
Theorem second_run_same_file (w w1 : world) (s : str) :
  files w !! "atit.json" = Some s →
  wf_text s →
  data_formatter w = (Ok (), w1) →
  ∃ out w2,
    files w1 !! "atit.json" = Some out ∧
    data_formatter w1 = (Ok (), w2) ∧
    files w2 = files w1 ∧
    stdout w2 = stdout w1 ++ out ++ [10].
Proof.
  intros Hf Hwf Hrun.
  destruct (data_formatter_cases w)
    as [[Hf' Hw]|[(s' & Hf' & Hl & Hw)|[(s' & data & e' & Hf' & Hl & Hr & He & Hw)
                                       |(s' & data & data' & Hf' & Hl & Hr & Hw)]]];
    rewrite Hw in Hrun; try done.
  injection Hrun as <-. rewrite Hf in Hf'. injection Hf' as <-.
  assert (wf_value data') as Hwf'.
  { eapply reindex_wf, Hr. by eapply loads_wf. }
  exists (dumps data'), (written (written w (dumps data')) (dumps data')).
  split_and!.
  - simpl. apply lookup_insert_eq.
  - apply data_formatter_Ok with (dumps data') data'.
    + simpl. apply lookup_insert_eq.
    + by apply loads_dumps.
    + by eapply reindex_idem.
  - simpl. apply insert_insert_eq.
  - reflexivity.
Qed.

Lemma second_run_same_file_witness :
  ∃ out w2,
    files (written (busy (js "{'portfolio' : [ {'id': 4.50} ]}"))
                   (js "{'portfolio': [{'id': 0}]}")) !! "atit.json" = Some out ∧
    data_formatter (written (busy (js "{'portfolio' : [ {'id': 4.50} ]}"))
                            (js "{'portfolio': [{'id': 0}]}")) = (Ok (), w2) ∧
    files w2 = files (written (busy (js "{'portfolio' : [ {'id': 4.50} ]}"))
                              (js "{'portfolio': [{'id': 0}]}")) ∧
    stdout w2 = stdout (written (busy (js "{'portfolio' : [ {'id': 4.50} ]}"))
                                (js "{'portfolio': [{'id': 0}]}")) ++ out ++ [10].
Proof.
  apply (second_run_same_file (busy (js "{'portfolio' : [ {'id': 4.50} ]}")) _
           (js "{'portfolio' : [ {'id': 4.50} ]}")).
  - reflexivity.
  - unfold wf_text.
    match goal with |- Forall _ ?s => let s' := eval vm_compute in s in change s with s' end.
    repeat (constructor; [split; [lia|reflexivity]|]). constructor.
  - apply (data_formatter_Ok _ (js "{'portfolio' : [ {'id': 4.50} ]}")
             (VDict [(py "portfolio",
                      VList [VDict [(py "id", VFloat (FNum false 5066549580791808 (-50)))]])])
             (VDict [(py "portfolio", VList [VDict [(py "id", VInt 0)]])])).
    + reflexivity.
    + vm_compute. reflexivity.
    + reflexivity.
Defined.

(** X8.  Well-formed documents with the same serialization are the same
    document. *)
Theorem dumps_injective (v1 v2 : value) :
  wf_value v1 → wf_value v2 → dumps v1 = dumps v2 → v1 = v2.
Proof.
  intros H1 H2 Heq. apply loads_dumps in H1, H2. rewrite Heq in H1.
  rewrite H1 in H2. by injection H2.
Qed.

Lemma dumps_injective_witness :
  VList [VInt 1; VStr (py "a")] = VList [VInt 1; VStr (py "a")].
Proof.
  apply (dumps_injective (VList [VInt 1; VStr (py "a")])
                         (VList [VInt 1; VStr (py "a")])).
  - simpl. split_and!; try done; lia.
  - simpl. split_and!; try done; lia.
  - reflexivity.
Defined.

(* ===================================================================== *)
(** * Where the assignment puts the key *)
(* ===================================================================== *)

(** X9.  The assignment [item['id'] = i] leaves the keys of an item that
    has the key [id] in their order, and puts [id] after the other keys of
    an item that has not. *)
Theorem id_key_position (d : dict) (items : list value) :
  dict_get d (py "portfolio") = Some (VList items) →
  Forall is_dict items →
  ∃ d' items',
    reindex (VDict d) = Ok (VDict d') ∧
    dict_get d' (py "portfolio") = Some (VList items') ∧
    ∀ (i : nat) f, items !! i = Some (VDict f) →
      ∃ f', items' !! i = Some (VDict f') ∧
            keys f' = if decide (py "id" ∈ keys f) then keys f
                      else keys f ++ [py "id"].
Proof.
  intros Hp Hall. destruct (reindex_from_dicts items 0 Hall) as [items' Hr].
  exists (dict_set d (py "portfolio") (VList items')), items'.
  destruct (reindex_from_Ok _ _ _ Hr) as [Hlen Hitems].
  split_and!; [by eapply reindex_list|apply dict_get_set_eq|].
  intros i f Hitem. destruct (Hitems _ _ Hitem) as (f0 & [= <-] & Hi').
  eexists. split; [done|]. destruct (decide (py "id" ∈ keys f)) as [Hin|Hin].
  - apply keys_dict_set_present.
    destruct (dict_get f (py "id")) eqn:Hg; [done|]. by apply dict_get_None in Hg.
  - apply keys_dict_set_absent. by apply dict_get_None.
Qed.

Lemma id_key_position_witness :
  ∃ d' items',
    reindex (VDict [(py "portfolio",
                     VList [VDict [(py "id", VNone); (py "a", VInt 1)];
                            VDict [(py "a", VInt 2)]])]) = Ok (VDict d') ∧
    dict_get d' (py "portfolio") = Some (VList items') ∧
    ∀ (i : nat) f,
      [VDict [(py "id", VNone); (py "a", VInt 1)]; VDict [(py "a", VInt 2)]] !! i
      = Some (VDict f) →
      ∃ f', items' !! i = Some (VDict f') ∧
            keys f' = if decide (py "id" ∈ keys f) then keys f
                      else keys f ++ [py "id"].
Proof.
  apply (id_key_position
           [(py "portfolio",
             VList [VDict [(py "id", VNone); (py "a", VInt 1)];
                    VDict [(py "a", VInt 2)]])]).
  - reflexivity.
  - repeat constructor.
Defined.

(* ===================================================================== *)
(** * The characters of the output *)
(* ===================================================================== *)

Ltac printable_text :=
  match goal with
  | |- Forall _ ?s => let s' := eval vm_compute in s in change s with s'
  end;
  repeat (constructor; [unfold printable; lia|]); constructor.

Lemma hexdigit_printable (n : Z) : 0 ≤ n < 16 → printable (hexdigit n).
Proof.
  intros Hn. unfold printable.
  assert (n = 0 ∨ n = 1 ∨ n = 2 ∨ n = 3 ∨ n = 4 ∨ n = 5 ∨ n = 6 ∨ n = 7 ∨
          n = 8 ∨ n = 9 ∨ n = 10 ∨ n = 11 ∨ n = 12 ∨ n = 13 ∨ n = 14 ∨ n = 15)
    as Hcases by lia.
  repeat (destruct Hcases as [->|Hcases]; [vm_compute; split; discriminate|]).
  subst n. vm_compute. split; discriminate.
Qed.

Lemma land_0xf_bound (a : Z) : 0 ≤ Z.land a 0xf < 16.
Proof.
  change 0xf with (Z.ones 4). rewrite Z.land_ones by lia.
  apply Z.mod_pos_bound. lia.
Qed.

Lemma u_escape_printable (c : Z) : Forall printable (u_escape c).
Proof.
  unfold u_escape.
  repeat (constructor; [first [apply hexdigit_printable, land_0xf_bound
                              |unfold printable; lia]|]).
  constructor.
Qed.

Lemma encode_char_printable (c : Z) : Forall printable (encode_char c).
Proof.
  unfold encode_char. destruct (S_CHAR c) eqn:Hs.
  - unfold S_CHAR in Hs.
    apply andb_true_iff in Hs as [[[?%Z.leb_le ?%Z.leb_le]%andb_true_iff _]%andb_true_iff _].
    constructor; [done|constructor].
  - unfold ascii_escape_unichar.
    repeat (case_match; [repeat constructor; unfold printable; lia|]).
    case_match; [|apply u_escape_printable].
    apply Forall_app. split; apply u_escape_printable.
Qed.

Lemma encode_basestring_ascii_printable (s : str) :
  Forall printable (encode_basestring_ascii s).
Proof.
  unfold encode_basestring_ascii. constructor; [unfold printable; lia|].
  apply Forall_app. split; [|repeat constructor; unfold printable; lia].
  induction s as [|c s IH]; csimpl; [constructor|].
  apply Forall_app. split; [apply encode_char_printable|done].
Qed.

Lemma digits_aux_digits (fuel : nat) : ∀ n acc,
  Forall (λ c, is_digit c = true) acc →
  Forall (λ c, is_digit c = true) (digits_aux fuel n acc).
Proof.
  induction fuel as [|fuel IH]; intros n acc Hacc; simpl; [done|].
  assert (is_digit (48 + n mod 10) = true) as Hd.
  { apply is_digit_spec. pose proof (Z.mod_pos_bound n 10). lia. }
  destruct (n <? 10); [by constructor|]. apply IH. by constructor.
Qed.

Lemma digits_printable (ds : str) :
  Forall (λ c, is_digit c = true) ds → Forall printable ds.
Proof.
  intros Hds. eapply Forall_impl; [exact Hds|].
  intros c Hc%is_digit_spec. unfold printable. lia.
Qed.

Lemma digits_of_printable (n : Z) : Forall printable (digits_of n).
Proof. apply digits_printable, digits_aux_digits. constructor. Qed.

Lemma int_repr_printable (n : Z) : Forall printable (int_repr n).
Proof.
  unfold int_repr. destruct (n <? 0); [|apply digits_of_printable].
  constructor; [unfold printable; lia|apply digits_of_printable].
Qed.

Lemma strip_zeros_Forall (P : Z → Prop) (ds : str) :
  Forall P ds → Forall P (strip_zeros ds).
Proof.
  induction 1 as [|d ds Hd Hds IH]; simpl; [constructor|].
  destruct (strip_zeros ds) as [|r rs].
  - destruct (d =? 48); [constructor|by repeat constructor].
  - by constructor.
Qed.

Lemma exponent_printable (x : Z) : Forall printable (exponent x).
Proof.
  unfold exponent. constructor; [destruct (x <? 0); unfold printable; lia|].
  destruct (_ <? _)%nat; [constructor; [unfold printable; lia|]|];
    apply digits_of_printable.
Qed.

Lemma format_float_short_printable (ds : str) (decpt : Z) :
  Forall printable ds → Forall printable (format_float_short ds decpt).
Proof.
  intros Hds. unfold format_float_short.
  assert (printable 46 ∧ printable 48 ∧ printable 101) as (H46 & H48 & H101)
    by (unfold printable; lia).
  destruct (_ || _).
  - destruct ds as [|d1 rest]; [constructor|].
    apply Forall_cons in Hds as [Hd1 Hrest]. constructor; [done|].
    apply Forall_app. split.
    + destruct rest; [constructor|by constructor].
    + constructor; [done|apply exponent_printable].
  - destruct (decpt <=? 0).
    + repeat (apply Forall_app; split); [by repeat constructor| |done].
      by apply Forall_replicate.
    + destruct (_ <? _).
      * apply Forall_app. split; [by apply Forall_take|].
        constructor; [done|by apply Forall_drop].
      * repeat (apply Forall_app; split); [done| |by repeat constructor].
        by apply Forall_replicate.
Qed.

Lemma float_repr_printable (x : float) : Forall printable (float_repr x).
Proof.
  assert (printable 45) as H45 by (unfold printable; lia).
  assert (∀ neg, Forall printable (sign_prefix neg)) as Hsign
    by (intros []; by repeat constructor).
  destruct x as [|neg|neg|neg m e]; unfold float_repr.
  - printable_text.
  - apply Forall_app. split; [done|]. printable_text.
  - apply Forall_app. split; [done|]. printable_text.
  - unfold repr_digits. destruct (exact_decimal m e) as [n t0].
    destruct (shortest m e n t0 _) as [d t].
    apply Forall_app. split; [done|].
    apply format_float_short_printable, strip_zeros_Forall, digits_of_printable.
Qed.

Lemma encode_float_printable (x : float) : Forall printable (encode_float x).
Proof.
  destruct x as [|[]|neg|neg m e];
    try apply float_repr_printable; printable_text.
Qed.

Ltac printable_step :=
  first [ assumption
        | apply encode_basestring_ascii_printable
        | apply Forall_app; split
        | apply Forall_cons_2; [unfold printable; lia|]
        | apply Forall_nil_2
        | printable_text ].

(** Whatever the document holds, its serialization is printable ASCII
    ([ensure_ascii]). *)
Lemma encode_printable (v : value) : Forall printable (encode v).
Proof.
  assert (printable 44 ∧ printable 32 ∧ printable 58) as (H44 & H32 & H58)
    by (unfold printable; lia).
  induction v as [|b|n|x|s|items IH|d IH] using value_ind'.
  - printable_text.
  - destruct b; printable_text.
  - apply int_repr_printable.
  - apply encode_float_printable.
  - apply encode_basestring_ascii_printable.
  - rewrite encode_list. constructor; [unfold printable; lia|].
    apply Forall_app. split; [|printable_text].
    induction IH as [|x l Hx Hl IHl]; [constructor|].
    destruct l as [|y l]; [done|]. rewrite encode_items_cons.
    repeat printable_step.
  - rewrite encode_dict. constructor; [unfold printable; lia|].
    apply Forall_app. split; [|printable_text].
    induction IH as [|[k x] l Hx Hl IHl]; [constructor|].
    destruct l as [|[k' y] l].
    + cbn [encode_pairs]. repeat printable_step.
    + rewrite encode_pairs_cons. repeat printable_step.
Qed.

(** X7.  Whenever the script ends normally, the file holds printable
    ASCII only, whatever characters the input held, and standard output
    has received that text as one line. *)
Theorem output_printable (w w' : world) :
  data_formatter w = (Ok (), w') →
  ∃ out, files w' !! "atit.json" = Some out ∧
         Forall printable out ∧
         stdout w' = stdout w ++ out ++ [10].
Proof.
  intros Hrun.
  destruct (data_formatter_cases w)
    as [[Hf' Hw]|[(s' & Hf' & Hl & Hw)|[(s' & data & e' & Hf' & Hl & Hr & He & Hw)
                                       |(s' & data & data' & Hf' & Hl & Hr & Hw)]]];
    rewrite Hw in Hrun; try done.
  injection Hrun as <-. exists (dumps data'). split_and!.
  - simpl. apply lookup_insert_eq.
  - apply encode_printable.
  - reflexivity.
Qed.

Lemma output_printable_witness :
  ∃ out, files (written (initial (js "{'portfolio': [{'n': '" ++ [233] ++ js "'}]}"))
                        (js "{'portfolio': [{'n': '\u00e9', 'id': 0}]}"))
         !! "atit.json" = Some out ∧
         Forall printable out ∧
         stdout (written (initial (js "{'portfolio': [{'n': '" ++ [233] ++ js "'}]}"))
                         (js "{'portfolio': [{'n': '\u00e9', 'id': 0}]}"))
         = stdout (initial (js "{'portfolio': [{'n': '" ++ [233] ++ js "'}]}"))
           ++ out ++ [10].
Proof.
  apply (output_printable (initial (js "{'portfolio': [{'n': '" ++ [233] ++ js "'}]}"))).
  apply (data_formatter_Ok _ (js "{'portfolio': [{'n': '" ++ [233] ++ js "'}]}")
           (VDict [(py "portfolio", VList [VDict [(py "n", VStr [233])]])])
           (VDict [(py "portfolio",
                    VList [VDict [(py "n", VStr [233]); (py "id", VInt 0)]])])).
  - reflexivity.
  - vm_compute. reflexivity.
  - reflexivity.
Defined.

(* ===================================================================== *)
(** * Documents without [nan] and [inf]: the output is JSON *)
(* ===================================================================== *)

Lemma finite_value_list (items : list value) :
  finite_value (VList items) ↔ Forall finite_value items.
Proof.
  induction items as [|x items IH]; simpl; [by split; [constructor|]|].
  rewrite Forall_cons. simpl in IH. by rewrite IH.
Qed.

Lemma finite_value_dict (d : dict) :
  finite_value (VDict d) ↔ Forall (λ kv, finite_value kv.2) d.
Proof.
  induction d as [|[k x] d IH]; simpl; [by split; [constructor|]|].
  rewrite Forall_cons. simpl in *. by rewrite IH.
Qed.

Lemma dict_set_finite (d : dict) (k : str) (v : value) :
  finite_value (VDict d) → finite_value v → finite_value (VDict (dict_set d k v)).
Proof.
  rewrite !finite_value_dict. intros Hd Hv.
  induction Hd as [|[k0 v0] d H0 Hd IH]; simpl; [by repeat constructor|].
  destruct (decide (k0 = k)); by constructor.
Qed.

Lemma reindex_from_finite (items : list value) : ∀ i items',
  Forall finite_value items → reindex_from i items = Ok items' →
  Forall finite_value items'.
Proof.
  induction items as [|item items IH]; intros i items' Hall; simpl.
  - by intros [= <-].
  - apply Forall_cons in Hall as [Hitem Hall].
    intros (it' & (f & -> & ->)%setitem_Ok & (rest' & Hrest & [= <-])%bind_Ok)%bind_Ok.
    constructor; [by apply dict_set_finite|by eapply IH].
Qed.

(** The loop brings no [nan] and no [inf] into a document. *)
Lemma reindex_finite (data data' : value) :
  finite_value data → reindex data = Ok data' → finite_value data'.
Proof.
  intros Hfin. unfold reindex.
  intros (pf & Hpf & (items & Hit & (items' & Hr & Hd)%bind_Ok)%bind_Ok)%bind_Ok.
  destruct data as [| | | | | |d]; try done. simpl in Hpf.
  destruct (dict_get d (py "portfolio")) as [v|] eqn:Hget; [|done].
  injection Hpf as ->.
  destruct pf as [| | | |s|l|f]; try done; try by injection Hd as <-.
  injection Hd as <-. injection Hit as <-.
  apply dict_set_finite; [done|]. apply finite_value_list.
  eapply reindex_from_finite, Hr.
  apply finite_value_list. apply finite_value_dict in Hfin.
  clear -Hfin Hget. induction Hfin as [|[k0 v0] d H0 Hd IH]; simpl in *; [done|].
  destruct (decide (k0 = py "portfolio")); [by injection Hget as ->|by apply IH].
Qed.

Section any_hook.
Variable pc : constant → result value.

Lemma reads_back_with_mono (v : value) (n n' : nat) :
  (n ≤ n')%nat → reads_back_with pc v n → reads_back_with pc v n'.
Proof. intros Hle Hv fuel rest Hfuel. apply Hv. lia. Qed.

Lemma reads_back_with_bound (P : value → Prop) (l : list value) :
  Forall (λ x, P x → ∃ n, reads_back_with pc x n) l → Forall P l →
  ∃ n, Forall (λ x, reads_back_with pc x n) l.
Proof.
  induction 1 as [|x l Hx _ IH]; intros Hwf; [by exists 0%nat|].
  apply Forall_cons in Hwf as [Hpx Hpl].
  destruct (Hx Hpx) as [n1 H1]. destruct (IH Hpl) as [n2 H2].
  exists (n1 `max` n2)%nat. constructor.
  - eapply reads_back_with_mono, H1. lia.
  - eapply Forall_impl; [done|]. intros y Hy. eapply reads_back_with_mono, Hy. lia.
Qed.

(** The elements of an array, from the first to the closing bracket. *)
Lemma parse_array_items_with (n : nat) (items : list value) :
  items ≠ [] →
  Forall wf_value items →
  Forall (λ x, reads_back_with pc x n) items →
  ∀ fuel acc rest, (n + length items ≤ fuel)%nat →
    parse_array pc fuel acc (encode_items items ++ 93 :: rest)
    = Ok (VList (reverse acc ++ items), rest).
Proof.
  intros Hne Hwf Hall. induction Hall as [|x l Hx Hl IH]; [done|].
  apply Forall_cons in Hwf as [Hwx Hwl].
  intros [|fuel] acc rest Hfuel; [simpl in Hfuel; lia|]. cbn [parse_array].
  destruct l as [|y l].
  - cbn [encode_items]. rewrite (Hx fuel (93 :: rest)); [|simpl in *; lia|].
    2:{ simpl. unfold is_delim. auto. }
    cbn [mbind result_bind]. rewrite skip_ws_head by done.
    change (93 =? 93) with true. cbv iota. by rewrite reverse_cons.
  - rewrite encode_items_cons, <- app_assoc, <- !app_comm_cons.
    rewrite (Hx fuel); [|simpl in *; lia|].
    2:{ simpl. unfold is_delim. auto. }
    cbn [mbind result_bind]. rewrite skip_ws_head by done.
    change (44 =? 93) with false. change (44 =? 44) with true. cbv iota.
    destruct (encode_items_head y l (93 :: rest)) as [rest' Hhead].
    destruct (encode_head y rest') as (c & s & Hc & Hws & _);
      [by apply Forall_cons in Hwl as [? _]|].
    rewrite Hhead, Hc, skip_ws_space, <- Hc, <- Hhead by done.
    rewrite IH; [|done|done|simpl in *; lia].
    by rewrite reverse_cons, <- app_assoc.
Qed.

(** The members of an object, from the first key to the closing brace. *)
Lemma parse_object_pairs_with (n : nat) (d : dict) :
  d ≠ [] →
  Forall (λ kv, wf_str kv.1 ∧ wf_value kv.2) d →
  Forall (λ kv, reads_back_with pc kv.2 n) d →
  ∀ fuel acc rest, (n + length d ≤ fuel)%nat →
    NoDup (keys (acc ++ d)) →
    parse_object pc fuel acc (encode_pairs d ++ 125 :: rest)
    = Ok (VDict (acc ++ d), rest).
Proof.
  intros Hne Hwf Hall. induction Hall as [|[k x] l Hx Hl IH]; [done|].
  apply Forall_cons in Hwf as [[Hwk Hwx] Hwl]. simpl in Hwk, Hwx, Hx.
  intros [|fuel] acc rest Hfuel Hnd; [simpl in Hfuel; lia|].
  assert (k ∉ keys acc) as Hfresh.
  { unfold keys in *. rewrite fmap_app in Hnd. apply NoDup_app in Hnd as (_ & Hd & _).
    intros Hin. apply (Hd _ Hin). csimpl. left. }
  assert (∀ tail,
    parse_object pc (S fuel) acc
      (encode_basestring_ascii k ++ py ": " ++ encode x ++ tail)
    = '(val, s4) ← scan_once pc fuel (encode x ++ tail);
      match skip_ws s4 with
      | [] => Raise JSONDecodeError
      | c4 :: s5 =>
          if c4 =? 125 then Ok (VDict (dict_set acc k val), s5)
          else if c4 =? 44
               then parse_object pc fuel (dict_set acc k val) (skip_ws s5)
               else Raise JSONDecodeError
      end) as Hstep.
  { intros tail.
    destruct (scanstring_encode_basestring k (py ": " ++ encode x ++ tail) Hwk)
      as (body & -> & Hbody).
    cbn [parse_object]. change (34 =? 34) with true. cbv iota. rewrite Hbody.
    cbn [mbind result_bind].
    change (py ": " ++ encode x ++ tail) with (58 :: 32 :: (encode x ++ tail)).
    rewrite skip_ws_head by done. change (58 =? 58) with true. cbv iota.
    destruct (encode_head x tail Hwx) as (c & s & Hc & Hws & _).
    by rewrite Hc, skip_ws_space, <- Hc by done. }
  destruct l as [|[k' y] l].
  - cbn [encode_pairs]. rewrite <- !app_assoc, Hstep.
    rewrite (Hx fuel (125 :: rest)); [|simpl in *; lia|].
    2:{ simpl. unfold is_delim. auto. }
    cbn [mbind result_bind]. rewrite skip_ws_head by done.
    change (125 =? 125) with true. cbv iota. by rewrite dict_set_fresh.
  - rewrite encode_pairs_cons, <- !app_assoc, Hstep, <- !app_comm_cons.
    rewrite (Hx fuel); [|simpl in *; lia|].
    2:{ simpl. unfold is_delim. auto. }
    cbn [mbind result_bind]. rewrite skip_ws_head by done.
    change (44 =? 125) with false. change (44 =? 44) with true. cbv iota.
    destruct (encode_pairs_head k' y l (125 :: rest)) as [rest' Hhead].
    rewrite Hhead, skip_ws_space, <- Hhead by done.
    rewrite dict_set_fresh by done.
    rewrite IH; [|done|done|simpl in *; lia|].
    + by rewrite <- app_assoc.
    + by rewrite <- app_assoc.
Qed.

(** A well-formed document without [nan] and [inf] is read back whatever
    the hook: the scanner never calls it. *)
Lemma encode_reads_back_with (v : value) :
  wf_value v ∧ finite_value v → ∃ n, reads_back_with pc v n.
Proof.
  induction v as [|b|n|x|s|items IH|d IH] using value_ind'; intros [Hwf Hfin].
  - exists 1%nat. intros [|fuel] rest Hfuel Hrest; [lia|]. reflexivity.
  - exists 1%nat. intros [|fuel] rest Hfuel Hrest; [lia|]. by destruct b.
  - exists 1%nat. intros [|fuel] rest Hfuel Hrest; [lia|].
    apply scan_once_number; [apply int_repr_start|by apply match_number_int].
  - exists 1%nat. intros [|fuel] rest Hfuel Hrest; [lia|].
    destruct x as [|[]|neg|neg m e]; try done.
    + apply scan_once_number; [by apply float_repr_start|by apply match_number_float].
    + apply scan_once_number; [by apply float_repr_start|by apply match_number_float].
  - exists 1%nat. intros [|fuel] rest Hfuel Hrest; [lia|].
    destruct (scanstring_encode_basestring s rest Hwf) as (body & Hb & Hbody).
    cbn [encode]. rewrite Hb. cbn [scan_once]. change (34 =? 34) with true.
    cbv iota. by rewrite Hbody.
  - apply wf_value_list in Hwf. apply finite_value_list in Hfin.
    destruct (reads_back_with_bound (λ x, wf_value x ∧ finite_value x) items IH)
      as [n Hn]; [by apply Forall_and|].
    exists (S (n + length items)). intros [|fuel] rest Hfuel Hrest; [lia|].
    rewrite encode_list, <- app_comm_cons, <- app_assoc. cbn [scan_once app].
    change (91 =? 34) with false. change (91 =? 123) with false.
    change (91 =? 91) with true. cbv iota.
    destruct items as [|x l]; [reflexivity|].
    destruct (encode_items_head x l (93 :: rest)) as [rest' Hhead].
    destruct (encode_head x rest') as (c & s & Hc & Hws & H93 & _);
      [by apply Forall_cons in Hwf as [? _]|].
    rewrite Hhead, Hc, skip_ws_head by done.
    apply Z.eqb_neq in H93 as ->. rewrite <- Hc, <- Hhead.
    rewrite (parse_array_items_with n); [done|done|done|done|lia].
  - apply wf_value_dict in Hwf as [Hnd Hwf]. apply finite_value_dict in Hfin.
    assert (∃ n, Forall (λ kv, reads_back_with pc kv.2 n) d) as [n Hn].
    { destruct (reads_back_with_bound (λ x, wf_value x ∧ finite_value x) (d.*2))
        as [n Hn].
      - apply Forall_fmap. eapply Forall_impl; [exact IH|]. by intros [k x].
      - apply Forall_fmap, Forall_and. split; [|done].
        eapply Forall_impl; [exact Hwf|]. by intros [k x] [_ ?].
      - exists n. by apply Forall_fmap in Hn. }
    exists (S (n + length d)). intros [|fuel] rest Hfuel Hrest; [lia|].
    rewrite encode_dict, <- app_comm_cons, <- app_assoc. cbn [scan_once app].
    change (123 =? 34) with false. change (123 =? 123) with true. cbv iota.
    destruct d as [|[k x] l]; [reflexivity|].
    destruct (encode_pairs_head k x l (125 :: rest)) as [rest' Hhead].
    rewrite Hhead, skip_ws_head by done.
    change (34 =? 125) with false. cbv iota. rewrite <- Hhead.
    rewrite (parse_object_pairs_with n); [done|done|done|done|lia|done].
Qed.

Hypothesis pc_fuel : ∀ c, pc c ≠ Raise RecursionError.

Lemma decode_dumps (v : value) :
  wf_value v → finite_value v → decode pc (dumps v) = Ok v.
Proof.
  intros Hwf Hfin. destruct (encode_reads_back_with v (conj Hwf Hfin)) as [n Hn].
  destruct (encode_head v [] Hwf) as (c & s & Hc & Hws & _ & _ & H128).
  rewrite app_nil_r in Hc. unfold decode, dumps. rewrite Hc.
  cbn [starts_with_bom].
  replace (c =? 0xFEFF) with false by (symmetry; apply Z.eqb_neq; lia).
  rewrite skip_ws_head by done. rewrite <- Hc.
  set (F := S (2 * length (encode v))).
  destruct (proj1 (scan_once_shorter pc pc_fuel F) (encode v)) as [Hfuel _];
    [unfold F; lia|].
  rewrite <- (proj1 (scan_once_mono pc F) (F `max` n)%nat) by (done || lia).
  specialize (Hn (F `max` n)%nat [] ltac:(lia) I). rewrite app_nil_r in Hn.
  by rewrite Hn.
Qed.
End any_hook.

(** X10.  When the document read holds no [nan] and no [inf], the text
    the script writes is a text of the JSON grammar: a decoder that
    refuses [NaN], [Infinity] and [-Infinity] accepts it. *)
Theorem output_valid_json (w w' : world) (s : str) (data : value) :
  files w !! "atit.json" = Some s →
  wf_text s →
  loads s = Ok data →
  finite_value data →
  data_formatter w = (Ok (), w') →
  ∃ out, files w' !! "atit.json" = Some out ∧ valid_json out.
Proof.
  intros Hf Hwf Hl Hfin Hrun.
  destruct (data_formatter_cases w)
    as [[Hf' Hw]|[(s' & Hf' & Hl' & Hw)|[(s' & data0 & e' & Hf' & Hl' & Hr & He & Hw)
                                        |(s' & data0 & data' & Hf' & Hl' & Hr & Hw)]]];
    rewrite Hw in Hrun; try done.
  injection Hrun as <-. rewrite Hf in Hf'. injection Hf' as <-.
  rewrite Hl in Hl'. injection Hl' as <-.
  exists (dumps data'). split; [simpl; apply lookup_insert_eq|].
  exists data'. apply decode_dumps; [done| |by eapply reindex_finite].
  eapply reindex_wf, Hr. by eapply loads_wf.
Qed.

Lemma output_valid_json_witness :
  ∃ out, files (written (initial (js "{'portfolio': [{'x': 1.5}]}"))
                        (js "{'portfolio': [{'x': 1.5, 'id': 0}]}"))
         !! "atit.json" = Some out ∧ valid_json out.
Proof.
  apply (output_valid_json (initial (js "{'portfolio': [{'x': 1.5}]}")) _
           (js "{'portfolio': [{'x': 1.5}]}")
           (VDict [(py "portfolio",
                    VList [VDict [(py "x", VFloat (FNum false 6755399441055744 (-52)))]])])).
  - reflexivity.
  - unfold wf_text.
    match goal with |- Forall _ ?s => let s' := eval vm_compute in s in change s with s' end.
    repeat (constructor; [split; [lia|reflexivity]|]). constructor.
  - vm_compute. reflexivity.
  - simpl. tauto.
  - apply (data_formatter_Ok _ (js "{'portfolio': [{'x': 1.5}]}")
             (VDict [(py "portfolio",
                      VList [VDict [(py "x", VFloat (FNum false 6755399441055744 (-52)))]])])
             (VDict [(py "portfolio",
                      VList [VDict [(py "x", VFloat (FNum false 6755399441055744 (-52)));
                                    (py "id", VInt 0)]])])).
    + reflexivity.
    + vm_compute. reflexivity.
    + reflexivity.
Defined.

(* ===================================================================== *)
(** * Which exception, and when *)
(* ===================================================================== *)

Lemma rejected_portfolio_cases (pf : value) :
  rejected_portfolio pf ∨ ¬ rejected_portfolio pf.
Proof.
  destruct pf as [| | | |s|items|f]; simpl; auto.
  - destruct s; [right; tauto|by left].
  - destruct (decide (Forall is_dict items)); [right; tauto|by left].
  - destruct f; [right; tauto|by left].
Qed.

(** When the loop raises [KeyError] and when [TypeError]. *)
Lemma reindex_KeyError (data : value) (k : str) :
  reindex data = Raise (KeyError k) ↔
  k = py "portfolio" ∧ ∃ d, data = VDict d ∧ dict_get d (py "portfolio") = None.
Proof.
  split.
  - intros Hr. destruct data as [| | | | | |d]; try done.
    destruct (dict_get d (py "portfolio")) as [pf|] eqn:Hp.
    + destruct (rejected_portfolio_cases pf) as [Hrej|Hrej].
      * by rewrite (reindex_rejected d pf Hp Hrej) in Hr.
      * destruct (reindex_accepted d pf Hp Hrej) as [data' Hr']. by rewrite Hr' in Hr.
    + unfold reindex in Hr. simpl in Hr. rewrite Hp in Hr. injection Hr as <-. eauto.
  - intros (-> & d & -> & Hp). unfold reindex. simpl. by rewrite Hp.
Qed.

Lemma reindex_TypeError (data : value) :
  reindex data = Raise TypeError ↔
  ¬ is_dict data ∨
  ∃ d pf, data = VDict d ∧ dict_get d (py "portfolio") = Some pf ∧
          rejected_portfolio pf.
Proof.
  split.
  - intros Hr. destruct data as [| | | | | |d]; try (left; by intros []).
    right. destruct (dict_get d (py "portfolio")) as [pf|] eqn:Hp.
    + exists d, pf. split_and!; [done..|].
      destruct (rejected_portfolio_cases pf) as [Hrej|Hrej]; [done|].
      destruct (reindex_accepted d pf Hp Hrej) as [data' Hr']. by rewrite Hr' in Hr.
    + unfold reindex in Hr. simpl in Hr. by rewrite Hp in Hr.
  - intros [Hd|(d & pf & -> & Hp & Hrej)]; [by destruct data|].
    by apply reindex_rejected with pf.
Qed.

(** X11.  The script raises [KeyError] exactly when the document is an
    object without the key [portfolio]; the key reported is [portfolio],
    and the file has only been read. *)
Theorem key_error_iff (w w' : world) (k : str) :
  data_formatter w = (Raise (KeyError k), w') ↔
  k = py "portfolio" ∧ w' = log (EvRead "atit.json") w ∧
  ∃ s d, files w !! "atit.json" = Some s ∧ loads s = Ok (VDict d) ∧
         dict_get d (py "portfolio") = None.
Proof.
  split.
  - intros Hrun.
    destruct (data_formatter_cases w)
      as [[Hf Hw]|[(s & Hf & Hl & Hw)|[(s & data & e & Hf & Hl & Hr & He & Hw)
                                      |(s & data & data' & Hf & Hl & Hr & Hw)]]];
      rewrite Hw in Hrun; try done.
    injection Hrun as -> <-.
    apply reindex_KeyError in Hr as (-> & d & -> & Hp). split_and!; eauto.
  - intros (-> & -> & s & d & Hf & Hl & Hp).
    apply data_formatter_reindex_Raise with s (VDict d); [done..|].
    apply reindex_KeyError. eauto.
Qed.

(** X12.  The script raises [TypeError] exactly when the document is not
    an object, or is an object whose [portfolio] is a number, [true],
    [false], [null], a string or an object that is not empty, or an array
    with an element that is not an object. *)
Theorem type_error_iff (w w' : world) :
  data_formatter w = (Raise TypeError, w') ↔
  w' = log (EvRead "atit.json") w ∧
  ∃ s data, files w !! "atit.json" = Some s ∧ loads s = Ok data ∧
    (¬ is_dict data ∨
     ∃ d pf, data = VDict d ∧ dict_get d (py "portfolio") = Some pf ∧
             rejected_portfolio pf).
Proof.
  split.
  - intros Hrun.
    destruct (data_formatter_cases w)
      as [[Hf Hw]|[(s & Hf & Hl & Hw)|[(s & data & e & Hf & Hl & Hr & He & Hw)
                                      |(s & data & data' & Hf & Hl & Hr & Hw)]]];
      rewrite Hw in Hrun; try done.
    injection Hrun as -> <-. split; [done|]. exists s, data.
    split_and!; [done..|]. by apply reindex_TypeError.
  - intros (-> & s & data & Hf & Hl & Hcase).
    apply data_formatter_reindex_Raise with s data; [done..|].
    by apply reindex_TypeError.
Qed.

(* ===================================================================== *)
(** * Whitespace around the document *)
(* ===================================================================== *)

(** What the string scanner has read does not depend on what follows the
    closing quotation mark. *)
Lemma scanstring_plain (c : Z) (s : str) :
  c ≠ 34 → c ≠ 92 → 31 < c →
  scanstring (c :: s) = '(r, rest) ← scanstring s; Ok (c :: r, rest).
Proof.
  intros H34 H92 H31. cbn [scanstring].
  apply Z.eqb_neq in H34 as ->. apply Z.eqb_neq in H92 as ->.
  by replace (c <=? 31) with false by (symmetry; apply Z.leb_gt; lia).
Qed.

Lemma unescape_not_u (e ch : Z) : unescape e = Some ch → e ≠ 117.
Proof. by intros Hun ->. Qed.

Lemma scanstring_Ok_cons (s r rest : str) :
  scanstring s = Ok (r, rest) → ∃ c s', s = c :: s'.
Proof. destruct s; [done|eauto]. Qed.

Lemma no_low_escape_app (s r rest t : str) :
  scanstring s = Ok (r, rest) → no_low_escape s → no_low_escape (s ++ t).
Proof.
  intros Hs Hno l1 l2 l3 l4 c s' Heq.
  destruct (scanstring_inv _ _ _ Hs)
    as [[-> _]|[(c0 & s1 & r0 & -> & H34 & H92 & _)
       |[(e & ch & s2 & r0 & -> & Hun & _)
       |[(h1 & h2 & h3 & h4 & u & s3 & r0 & -> & _ & _ & Hs3 & _)
        |(h1 & h2 & h3 & h4 & k1 & k2 & k3 & k4 & hi & lo & s4 & r0 & -> & _)]]]].
  - done.
  - injection Heq as -> _. done.
  - injection Heq as -> _. by apply unescape_not_u in Hun.
  - destruct (scanstring_Ok_cons _ _ _ Hs3) as (c0 & s3' & ->).
    injection Heq as <- <- <- <- <- _. by eapply Hno.
  - injection Heq as <- <- <- <- <- _. by eapply Hno.
Qed.

Lemma scanstring_app (n : nat) : ∀ s r rest t,
  (length s < n)%nat →
  scanstring s = Ok (r, rest) → scanstring (s ++ t) = Ok (r, rest ++ t).
Proof.
  induction n as [|n IH]; intros s r rest t Hlen Hs; [lia|].
  destruct (scanstring_inv _ _ _ Hs)
    as [[-> ->]|[(c0 & s1 & r0 & -> & H34 & H92 & H31 & Hs1 & ->)
       |[(e & ch & s2 & r0 & -> & Hun & Hs2 & ->)
       |[(h1 & h2 & h3 & h4 & u & s3 & r0 & -> & Hhex & Hno & Hs3 & ->)
        |(h1 & h2 & h3 & h4 & l1 & l2 & l3 & l4 & hi & lo & s4 & r0
          & -> & Hhi & Hhigh & Hlo & Hlow & Hs4 & ->)]]]].
  - reflexivity.
  - rewrite <- app_comm_cons, scanstring_plain by done.
    rewrite (IH s1 r0 rest t); [done|simpl in Hlen; lia|done].
  - rewrite <- !app_comm_cons, (scanstring_short e ch)
      by (done || by eapply unescape_not_u).
    rewrite (IH s2 r0 rest t); [done|simpl in Hlen; lia|done].
  - rewrite <- !app_comm_cons, (scanstring_escape h1 h2 h3 h4 u); [|done|].
    + rewrite (IH s3 r0 rest t); [done|simpl in Hlen; lia|done].
    + intros Hhigh. by eapply no_low_escape_app, Hno.
  - destruct (scanstring_Ok_cons _ _ _ Hs4) as (c0 & s4' & ->).
    rewrite <- !app_comm_cons,
      (scanstring_pair h1 h2 h3 h4 l1 l2 l3 l4 hi lo c0) by done.
    rewrite app_comm_cons, (IH (c0 :: s4') r0 rest t); [done|simpl in *; lia|done].
Qed.

Lemma ws_not_digit (c : Z) : is_ws c = true → is_digit c = false.
Proof.
  unfold is_ws, is_digit. intros H.
  repeat (apply orb_true_iff in H as [H|H]); apply Z.eqb_eq in H as ->; done.
Qed.

Lemma skip_ws_ws (t : str) : Forall (λ c, is_ws c = true) t → skip_ws t = [].
Proof. induction 1 as [|c l Hc _ IH]; simpl; [done|by rewrite Hc]. Qed.

Lemma ws_cases (t : str) :
  Forall (λ c, is_ws c = true) t →
  t = [] ∨ ∃ c t', t = c :: t' ∧ is_ws c = true ∧ Forall (λ c, is_ws c = true) t'.
Proof. intros [|c l Hc Hl]; [by left|right; eauto]. Qed.

Section trailing_whitespace.
Variable t : str.
Hypothesis t_ws : Forall (λ c, is_ws c = true) t.

Lemma skip_ws_app (s : str) : skip_ws s ≠ [] → skip_ws (s ++ t) = skip_ws s ++ t.
Proof.
  induction s as [|c s IH]; simpl; [done|].
  destruct (is_ws c); [done|by intros _].
Qed.

Lemma skip_ws_all (s : str) : skip_ws s = [] → skip_ws (s ++ t) = [].
Proof.
  induction s as [|c s IH]; simpl.
  - intros _. by apply skip_ws_ws.
  - by destruct (is_ws c).
Qed.

Lemma span_digits_ws (s ds r : str) :
  span_digits s = (ds, r) → span_digits (s ++ t) = (ds, r ++ t).
Proof.
  revert ds r. induction s as [|c s IH]; intros ds r; simpl.
  - intros [= <- <-].
    destruct (ws_cases t t_ws) as [->|(c & l & -> & Hc & _)]; simpl; [done|].
    by rewrite (ws_not_digit c).
  - destruct (is_digit c); [|by intros [= <- <-]].
    destruct (span_digits s) as [ds' r'] eqn:Hs. intros [= <- <-].
    by rewrite (IH _ _ eq_refl).
Qed.

Lemma number_int_ws (s ids r : str) :
  number_int s = Some (ids, r) → number_int (s ++ t) = Some (ids, r ++ t).
Proof.
  destruct s as [|c s]; simpl; [done|].
  destruct ((49 <=? c) && (c <=? 57)).
  - destruct (span_digits s) as [ds' r'] eqn:Hs. intros [= <- <-].
    by rewrite (span_digits_ws _ _ _ Hs).
  - destruct (c =? 48); [|done]. by intros [= <- <-].
Qed.

Lemma number_frac_ws (s fds r : str) :
  number_frac s = (fds, r) → number_frac (s ++ t) = (fds, r ++ t).
Proof.
  destruct s as [|c [|d s]]; simpl.
  - intros [= <- <-].
    destruct (ws_cases t t_ws) as [->|(c & l & -> & Hc & Hl)]; [done|].
    destruct l as [|d l']; [done|]. simpl.
    replace (c =? 46) with false; [done|].
    symmetry. apply Z.eqb_neq. intros ->. done.
  - intros [= <- <-].
    destruct (ws_cases t t_ws) as [->|(d & l & -> & Hd & _)]; [done|]. simpl.
    by rewrite (ws_not_digit d), andb_false_r.
  - destruct ((c =? 46) && is_digit d); [|by intros [= <- <-]].
    destruct (span_digits s) as [ds' r'] eqn:Hs. intros [= <- <-].
    by rewrite (span_digits_ws _ _ _ Hs).
Qed.

Lemma exponent_sign_ws (s : str) (eneg : bool) (s' : str) :
  exponent_sign s = (eneg, s') →
  ∃ eneg' s'', exponent_sign (s ++ t) = (eneg', s'') ∧
    ((eneg' = eneg ∧ s'' = s' ++ t) ∨
     (span_digits s' = ([], s') ∧ span_digits s'' = ([], s''))).
Proof.
  destruct s as [|g [|c s]]; simpl.
  - intros [= <- <-].
    destruct (ws_cases t t_ws) as [->|(g & l & -> & Hg & Hl)]; [by eauto 6|].
    destruct l as [|c l']; simpl; [by eauto 6|].
    assert (g ≠ 45 ∧ g ≠ 43) as [H45 H43] by (split; by intros ->).
    apply Z.eqb_neq in H45 as ->. apply Z.eqb_neq in H43 as ->. by eauto 6.
  - intros [= <- <-].
    destruct (ws_cases t t_ws) as [->|(c & l & -> & Hc & _)]; simpl; [by eauto 6|].
    destruct (g =? 45) eqn:H45; [|destruct (g =? 43) eqn:H43].
    + apply Z.eqb_eq in H45 as ->. eexists _, _. split; [done|]. right.
      split; [done|]. simpl. by rewrite (ws_not_digit c).
    + apply Z.eqb_eq in H43 as ->. eexists _, _. split; [done|]. right.
      split; [done|]. simpl. by rewrite (ws_not_digit c).
    + by eauto 6.
  - destruct (g =? 45); [intros [= <- <-]; by eauto 6|].
    destruct (g =? 43); intros [= <- <-]; by eauto 6.
Qed.

Lemma number_exp_ws (s : str) (e : option Z) (r : str) :
  number_exp s = (e, r) → number_exp (s ++ t) = (e, r ++ t).
Proof.
  destruct s as [|c s]; simpl.
  - intros [= <- <-].
    destruct (ws_cases t t_ws) as [->|(c & l & -> & Hc & _)]; simpl; [done|].
    assert (c ≠ 101 ∧ c ≠ 69) as [H1 H2] by (split; by intros ->).
    apply Z.eqb_neq in H1 as ->. by apply Z.eqb_neq in H2 as ->.
  - destruct ((c =? 101) || (c =? 69)); [|by intros [= <- <-]].
    destruct (exponent_sign s) as [eneg s'] eqn:Hsg.
    destruct (exponent_sign_ws _ _ _ Hsg) as (eneg' & s'' & -> & [[-> ->]|[Hn Hn']]).
    + destruct (span_digits s') as [eds r'] eqn:Hs.
      rewrite (span_digits_ws _ _ _ Hs).
      destruct eds; by intros [= <- <-].
    + rewrite Hn, Hn'. by intros [= <- <-].
Qed.

Lemma match_number_ws (s : str) (v : value) (rest : str) :
  match_number s = Some (v, rest) → match_number (s ++ t) = Some (v, rest ++ t).
Proof.
  unfold match_number.
  destruct (number_sign s) as [neg s1] eqn:H1.
  destruct (number_int s1) as [[ids s2]|] eqn:H2; simpl; [|done].
  destruct (number_frac s2) as [fds s3] eqn:H3.
  destruct (number_exp s3) as [exp s4] eqn:H4. intros [= <- <-].
  assert (number_sign (s ++ t) = (neg, s1 ++ t)) as ->.
  { destruct s as [|c s]; simpl in *; [by injection H1 as <- <-|].
    destruct (c =? 45); by injection H1 as <- <-. }
  rewrite (number_int_ws _ _ _ H2). simpl.
  by rewrite (number_frac_ws _ _ _ H3), (number_exp_ws _ _ _ H4).
Qed.

Lemma strip_prefix_app (p s r : str) :
  strip_prefix p s = Some r → strip_prefix p (s ++ t) = Some (r ++ t).
Proof.
  revert s. induction p as [|a p IH]; intros [|b s]; simpl; try done.
  - by intros [= <-].
  - by intros [= <-].
  - destruct (a =? b); [apply IH|done].
Qed.

Lemma strip_prefix_None_ws (p s : str) :
  Forall (λ c, is_ws c = false) p →
  strip_prefix p s = None → strip_prefix p (s ++ t) = None.
Proof.
  intros Hp. revert s. induction Hp as [|a p Ha Hp IH]; intros [|b s]; simpl; try done.
  - intros _. destruct (ws_cases t t_ws) as [->|(c & l & -> & Hc & _)]; [done|].
    simpl. replace (a =? c) with false; [done|].
    symmetry. apply Z.eqb_neq. intros ->. by rewrite Ha in Hc.
  - destruct (a =? b); [apply IH|done].
Qed.

Section hook.
Variable pc : constant → result value.

Lemma scan_scalar_ws (s : str) (v : value) (rest : str) :
  scan_scalar pc s = Ok (v, rest) → scan_scalar pc (s ++ t) = Ok (v, rest ++ t).
Proof.
  assert (∀ p, Forall (λ c, is_ws c = false) (py p)
               → strip_prefix (py p) s = None → strip_prefix (py p) (s ++ t) = None)
    as Hnone by (intros p; apply strip_prefix_None_ws).
  unfold scan_scalar.
  destruct (strip_prefix (py "null") s) eqn:E1;
    [intros [= <- <-]; by rewrite (strip_prefix_app _ _ _ E1)|].
  rewrite (Hnone "null") by (done || by repeat constructor).
  destruct (strip_prefix (py "true") s) eqn:E2;
    [intros [= <- <-]; by rewrite (strip_prefix_app _ _ _ E2)|].
  rewrite (Hnone "true") by (done || by repeat constructor).
  destruct (strip_prefix (py "false") s) eqn:E3;
    [intros [= <- <-]; by rewrite (strip_prefix_app _ _ _ E3)|].
  rewrite (Hnone "false") by (done || by repeat constructor).
  destruct (strip_prefix (py "NaN") s) eqn:E4.
  { intros (v' & Hv & [= <- <-])%bind_Ok.
    by rewrite (strip_prefix_app _ _ _ E4), Hv. }
  rewrite (Hnone "NaN") by (done || by repeat constructor).
  destruct (strip_prefix (py "Infinity") s) eqn:E5.
  { intros (v' & Hv & [= <- <-])%bind_Ok.
    by rewrite (strip_prefix_app _ _ _ E5), Hv. }
  rewrite (Hnone "Infinity") by (done || by repeat constructor).
  destruct (strip_prefix (py "-Infinity") s) eqn:E6.
  { intros (v' & Hv & [= <- <-])%bind_Ok.
    by rewrite (strip_prefix_app _ _ _ E6), Hv. }
  rewrite (Hnone "-Infinity") by (done || by repeat constructor).
  destruct (match_number s) as [[v' r']|] eqn:E7; [|done].
  intros [= <- <-]. by rewrite (match_number_ws _ _ _ E7).
Qed.

(** What the scanner has read does not depend on whitespace after it. *)
Lemma scan_once_ws (fuel : nat) :
  (∀ s v rest, scan_once pc fuel s = Ok (v, rest) →
     scan_once pc fuel (s ++ t) = Ok (v, rest ++ t)) ∧
  (∀ acc s v rest, parse_object pc fuel acc s = Ok (v, rest) →
     parse_object pc fuel acc (s ++ t) = Ok (v, rest ++ t)) ∧
  (∀ acc s v rest, parse_array pc fuel acc s = Ok (v, rest) →
     parse_array pc fuel acc (s ++ t) = Ok (v, rest ++ t)).
Proof.
  induction fuel as [|fuel (IHs & IHo & IHa)]; [by split_and!|].
  assert (∀ s v rest, scan_once pc fuel (skip_ws s) = Ok (v, rest) →
            scan_once pc fuel (skip_ws (s ++ t)) = Ok (v, rest ++ t)) as IHs'.
  { intros s v rest Hs. rewrite skip_ws_app; [by apply IHs|].
    intros Hnil. rewrite Hnil in Hs. by destruct fuel. }
  assert (∀ acc s v rest, parse_object pc fuel acc (skip_ws s) = Ok (v, rest) →
            parse_object pc fuel acc (skip_ws (s ++ t)) = Ok (v, rest ++ t)) as IHo'.
  { intros acc s v rest Hs. rewrite skip_ws_app; [by apply IHo|].
    intros Hnil. rewrite Hnil in Hs. by destruct fuel. }
  assert (∀ acc s v rest, parse_array pc fuel acc (skip_ws s) = Ok (v, rest) →
            parse_array pc fuel acc (skip_ws (s ++ t)) = Ok (v, rest ++ t)) as IHa'.
  { intros acc s v rest Hs. rewrite skip_ws_app; [by apply IHa|].
    intros Hnil. rewrite Hnil in Hs. destruct fuel as [|fuel']; [done|].
    cbn [parse_array] in Hs. by destruct fuel'. }
  split_and!.
  - intros [|c s1] v rest; [done|]. rewrite <- app_comm_cons.
    cbn [scan_once]. destruct (c =? 34).
    { intros ([r rest'] & Hs & [= <- <-])%bind_Ok.
      by rewrite (scanstring_app (S (length s1)) s1 r rest' t) by (done || lia). }
    destruct (c =? 123).
    { destruct (skip_ws s1) as [|c' s2] eqn:Hws; [done|].
      rewrite skip_ws_app, Hws, <- app_comm_cons by (by rewrite Hws).
      destruct (c' =? 125); [by intros [= <- <-]|].
      intros Hp. rewrite app_comm_cons. by apply IHo. }
    destruct (c =? 91).
    { destruct (skip_ws s1) as [|c' s2] eqn:Hws; [done|].
      rewrite skip_ws_app, Hws, <- app_comm_cons by (by rewrite Hws).
      destruct (c' =? 93); [by intros [= <- <-]|].
      intros Hp. rewrite app_comm_cons. by apply IHa. }
    intros Hs. rewrite app_comm_cons. by apply scan_scalar_ws.
  - intros acc [|c s1] v rest; [done|]. rewrite <- app_comm_cons.
    cbn [parse_object]. destruct (c =? 34); [|done].
    destruct (scanstring s1) as [[key s2]|e'] eqn:Hkey; [|done].
    rewrite (scanstring_app (S (length s1)) s1 key s2 t) by (done || lia).
    cbn [mbind result_bind].
    destruct (skip_ws s2) as [|c2 s3] eqn:Hws2; [done|].
    rewrite skip_ws_app, Hws2, <- app_comm_cons by (by rewrite Hws2).
    destruct (c2 =? 58); [|done].
    destruct (scan_once pc fuel (skip_ws s3)) as [[val s4]|e'] eqn:Hval; [|done].
    rewrite (IHs' _ _ _ Hval). cbn [mbind result_bind].
    destruct (skip_ws s4) as [|c4 s5] eqn:Hws4; [done|].
    rewrite skip_ws_app, Hws4, <- app_comm_cons by (by rewrite Hws4).
    destruct (c4 =? 125); [by intros [= <- <-]|].
    destruct (c4 =? 44); [|done]. apply IHo'.
  - intros acc s v rest. cbn [parse_array].
    destruct (scan_once pc fuel s) as [[val s1]|e'] eqn:Hval; [|done].
    rewrite (IHs _ _ _ Hval). cbn [mbind result_bind].
    destruct (skip_ws s1) as [|c s2] eqn:Hws1; [done|].
    rewrite skip_ws_app, Hws1, <- app_comm_cons by (by rewrite Hws1).
    destruct (c =? 93); [by intros [= <- <-]|].
    destruct (c =? 44); [|done]. apply IHa'.
Qed.
End hook.
End trailing_whitespace.

Lemma skip_ws_prefix (t s : str) :
  Forall (λ c, is_ws c = true) t → skip_ws (t ++ s) = skip_ws s.
Proof. induction 1 as [|c l Hc _ IH]; simpl; [done|by rewrite Hc]. Qed.

(** X14.  Whitespace before and after the document does not count: a
    text [json.loads] accepts is read as the same document when spaces,
    tabs, line feeds and carriage returns are put around it. *)
Theorem loads_surrounding_whitespace (ws1 ws2 s : str) (v : value) :
  Forall (λ c, is_ws c = true) ws1 →
  Forall (λ c, is_ws c = true) ws2 →
  loads s = Ok v →
  loads (ws1 ++ s ++ ws2) = Ok v.
Proof.
  intros H1 H2. unfold loads, decode.
  destruct (starts_with_bom s) eqn:Hbom; [done|].
  destruct (scan_once default_constant (S (2 * length s)) (skip_ws s))
    as [[obj rest]|e] eqn:Hscan; [|done].
  cbn [mbind result_bind]. destruct (skip_ws rest) eqn:Hrest; [|done].
  intros [= <-].
  assert (skip_ws s ≠ []) as Hne by (intros Hnil; by rewrite Hnil in Hscan).
  assert (starts_with_bom (ws1 ++ s ++ ws2) = false) as ->.
  { destruct (ws_cases ws1 H1) as [->|(c & l & -> & Hc & _)]; simpl.
    - destruct s as [|c s']; [done|exact Hbom].
    - apply Z.eqb_neq. intros ->. done. }
  rewrite skip_ws_prefix, skip_ws_app by done.
  pose proof (proj1 (scan_once_ws ws2 H2 default_constant _) _ _ _ Hscan) as Hscan'.
  rewrite (proj1 (scan_once_mono default_constant (S (2 * length s)))
             (S (2 * length (ws1 ++ s ++ ws2))));
    [|rewrite !length_app; lia|by rewrite Hscan'].
  rewrite Hscan'. cbn [mbind result_bind]. by rewrite skip_ws_all.
Qed.

Lemma loads_surrounding_whitespace_witness :
  loads ([32; 10] ++ js "{'portfolio': []}" ++ [13; 10; 9])
  = Ok (VDict [(py "portfolio", VList [])]).
Proof.
  apply (loads_surrounding_whitespace [32; 10] [13; 10; 9] (js "{'portfolio': []}")).
  - by repeat constructor.
  - by repeat constructor.
  - vm_compute. reflexivity.
Defined.

(* ===================================================================== *)
(** * A key more than once *)
(* ===================================================================== *)

(** One member of an object: the key, the colon, the value, and what
    follows. *)
Lemma parse_object_member (fuel : nat) (acc : dict) (k : str) (x : value) (tail : str) :
  wf_str k → wf_value x →
  parse_object default_constant (S fuel) acc
    (encode_basestring_ascii k ++ py ": " ++ encode x ++ tail)
  = '(val, s4) ← scan_once default_constant fuel (encode x ++ tail);
    match skip_ws s4 with
    | [] => Raise JSONDecodeError
    | c4 :: s5 =>
        if c4 =? 125 then Ok (VDict (dict_set acc k val), s5)
        else if c4 =? 44
             then parse_object default_constant fuel (dict_set acc k val) (skip_ws s5)
             else Raise JSONDecodeError
    end.
Proof.
  intros Hwk Hwx.
  destruct (scanstring_encode_basestring k (py ": " ++ encode x ++ tail) Hwk)
    as (body & -> & Hbody).
  cbn [parse_object]. change (34 =? 34) with true. cbv iota. rewrite Hbody.
  cbn [mbind result_bind].
  change (py ": " ++ encode x ++ tail) with (58 :: 32 :: (encode x ++ tail)).
  rewrite skip_ws_head by done. change (58 =? 58) with true. cbv iota.
  destruct (encode_head x tail Hwx) as (c & s & Hc & Hws & _).
  by rewrite Hc, skip_ws_space, <- Hc by done.
Qed.

(** The members of an object, whatever their keys: each is assigned to
    the dictionary in turn. *)
Lemma parse_object_members (n : nat) (d : dict) :
  d ≠ [] →
  Forall (λ kv, wf_str kv.1 ∧ wf_value kv.2) d →
  Forall (λ kv, reads_back kv.2 n) d →
  ∀ fuel acc rest, (n + length d ≤ fuel)%nat →
    parse_object default_constant fuel acc (encode_pairs d ++ 125 :: rest)
    = Ok (VDict (foldl (λ a kv, dict_set a kv.1 kv.2) acc d), rest).
Proof.
  intros Hne Hwf Hall. induction Hall as [|[k x] l Hx Hl IH]; [done|].
  apply Forall_cons in Hwf as [[Hwk Hwx] Hwl]. simpl in Hwk, Hwx, Hx.
  intros [|fuel] acc rest Hfuel; [simpl in Hfuel; lia|].
  destruct l as [|[k' y] l].
  - cbn [encode_pairs]. rewrite <- !app_assoc, parse_object_member by done.
    rewrite (Hx fuel (125 :: rest)); [|simpl in *; lia|].
    2:{ simpl. unfold is_delim. auto. }
    cbn [mbind result_bind]. rewrite skip_ws_head by done.
    change (125 =? 125) with true. cbv iota. done.
  - rewrite encode_pairs_cons, <- !app_assoc, parse_object_member by done.
    rewrite <- !app_comm_cons.
    rewrite (Hx fuel); [|simpl in *; lia|].
    2:{ simpl. unfold is_delim. auto. }
    cbn [mbind result_bind]. rewrite skip_ws_head by done.
    change (44 =? 125) with false. change (44 =? 44) with true. cbv iota.
    destruct (encode_pairs_head k' y l (125 :: rest)) as [rest' Hhead].
    rewrite Hhead, skip_ws_space, <- Hhead by done.
    rewrite IH; [done|done|done|simpl in *; lia].
Qed.

(** Read without the limits of the interpreter, an object text in the
    layout of [json.dumps] gives the dictionary its members build when
    they are assigned in turn. *)
Lemma loads_members (d : dict) :
  Forall (λ kv, wf_str kv.1 ∧ wf_value kv.2) d →
  loads (123 :: encode_pairs d ++ [125])
  = Ok (VDict (foldl (λ a kv, dict_set a kv.1 kv.2) [] d)).
Proof.
  intros Hwf. destruct d as [|[k x] l]; [reflexivity|].
  assert (∃ n, Forall (λ kv, reads_back kv.2 n) ((k, x) :: l)) as [n Hn].
  { destruct (reads_back_bound wf_value (((k, x) :: l).*2)) as [n Hn].
    - apply Forall_fmap. apply Forall_forall. intros [k' y] _. simpl. apply encode_reads_back.
    - apply Forall_fmap. eapply Forall_impl; [exact Hwf|]. by intros [k' y] [_ ?].
    - exists n. by apply Forall_fmap in Hn. }
  set (text := 123 :: encode_pairs ((k, x) :: l) ++ [125]).
  unfold loads, decode. change (starts_with_bom text) with false. cbv iota.
  change (skip_ws text) with text.
  set (F := S (2 * length text)).
  destruct (proj1 (scan_once_shorter default_constant (λ c, ltac:(by destruct c)) F)
              text) as [Hfuel _]; [unfold F; lia|].
  rewrite <- (proj1 (scan_once_mono default_constant F)
                (F `max` S (n + length ((k, x) :: l)))%nat) by (done || lia).
  destruct (F `max` S (n + length ((k, x) :: l)))%nat as [|fuel] eqn:Hmax; [lia|].
  unfold text. cbn [scan_once].
  change (123 =? 34) with false. change (123 =? 123) with true. cbv iota.
  destruct (encode_pairs_head k x l [125]) as [rest' Hhead].
  rewrite Hhead, skip_ws_head by done.
  change (34 =? 125) with false. cbv iota. rewrite <- Hhead.
  rewrite (parse_object_members n); [done|done|done|done|lia].
Qed.

(** X15.  Where an object text in the layout of [json.dumps] names a key
    more than once and [json.loads] accepts the text, the members have
    been assigned in turn: a key keeps the place of its first occurrence
    and the value of its last. *)
Theorem loads_duplicate_keys (d : dict) (v : value) :
  Forall (λ kv, wf_str kv.1 ∧ wf_value kv.2) d →
  loads (123 :: encode_pairs d ++ [125]) = Ok v →
  v = VDict (foldl (λ a kv, dict_set a kv.1 kv.2) [] d).
Proof.
  intros Hwf Hl. rewrite (loads_members d Hwf) in Hl. by injection Hl.
Qed.

Lemma loads_duplicate_keys_witness :
  VDict [(py "id", VInt 2); (py "name", VStr (py "a"))]
  = VDict (foldl (λ a kv, dict_set a kv.1 kv.2) []
             [(py "id", VInt 1); (py "name", VStr (py "a")); (py "id", VInt 2)]).
Proof.
  apply (loads_duplicate_keys
           [(py "id", VInt 1); (py "name", VStr (py "a")); (py "id", VInt 2)]).
  - repeat constructor; simpl; try done; lia.
  - vm_compute. reflexivity.
Defined.
